(** * Learny front end: progress stream, history facade and auth session

    A shallow embedding of the client networking code of the Learny
    single-page application:

    - [getProgressUpdates] (services/api.js, both the retrying version and
      the earlier one-shot version),
    - the [onMessage] callback that [connectToProgressUpdates] builds in
      pages/GeneratorPage.js, with its [calculateProgress] heuristic,
    - [refreshAuthToken] and the 401 branch of the response interceptor,
    - the history facade ([saveToHistory], [updateHistoryEntry],
      [deleteHistoryEntry], [getHistoryPreview], and further on
      [getHistoryEntry], [importLearningPath], [exportHistory]),
    - the credential store of both versions, the bearer token, the exchange
      of API keys, the migration of local paths, the retrieval of a
      generated path, the earlier [generateLearningPath], and the tag
      handlers of the generator page.

    JavaScript values are modelled by a small JSON datatype, exceptions by a
    state-and-exception monad (a [throw] keeps the mutations made before it,
    as in JavaScript), the browser event loop by a stream of events that are
    dispatched one at a time. *)

From Stdlib Require Import ZArith Ascii String.
From stdpp Require Import base list strings gmap pretty.

Set Warnings "-register-all".
Local Open Scope string_scope.

(** ** JavaScript values *)

Module Js.

(** What [JSON.parse] can return. Numbers are represented by integers:
    the code only tests them for truthiness and strict equality. The
    fields of [JObj] are the own properties of the parsed object. *)
Inductive json : Type :=
| JNull
| JBool (b : bool)
| JNum (n : Z)
| JStr (s : string)
| JArr (items : list json)
| JObj (fields : list (string * json)).

(** Values that are thrown or handed to [onError]. *)
Inductive error : Type :=
| SyntaxError                 (* JSON.parse on malformed text *)
| TypeError                   (* property read on null, call of a non-function *)
| Error (message : string)    (* new Error(message) *)
| ErrorEvent                  (* the Event object passed to EventSource.onerror *)
| HttpError (status : Z).     (* a rejected request carrying error.response.status *)

Inductive res (A : Type) : Type :=
| Ok (a : A)
| Throw (e : error).
Arguments Ok {A} a.
Arguments Throw {A} e.

(** A property read yields [None] for [undefined]. *)
Definition jsval : Type := option json.

Fixpoint assoc (k : string) (fs : list (string * json)) : jsval :=
  match fs with
  | [] => None
  | (k', v) :: fs' => if String.eqb k k' then Some v else assoc k fs'
  end.

(** [v.p] for a property name [p] that is not a built-in member of
    strings, numbers, booleans or arrays ([complete], [message],
    [path_id], ...): reading it off [null] throws, off a primitive or an
    array gives [undefined]. *)
Definition get (v : json) (p : string) : res jsval :=
  match v with
  | JNull => Throw TypeError
  | JObj fs => Ok (assoc p fs)
  | _ => Ok None
  end.

(** ToBoolean. *)
Definition truthy (v : jsval) : bool :=
  match v with
  | None | Some JNull => false
  | Some (JBool b) => b
  | Some (JNum n) => negb (n =? 0)%Z
  | Some (JStr s) => negb (String.eqb s "")
  | Some (JArr _) | Some (JObj _) => true
  end.

(** [a === b] for two values obtained from distinct [JSON.parse] results:
    primitives compare by value, objects and arrays by identity, and two
    parses never share an object. *)
Definition strict_eq (a b : jsval) : bool :=
  match a, b with
  | None, None => true
  | Some JNull, Some JNull => true
  | Some (JBool x), Some (JBool y) => Bool.eqb x y
  | Some (JNum x), Some (JNum y) => (x =? y)%Z
  | Some (JStr x), Some (JStr y) => String.eqb x y
  | _, _ => false
  end.

(** [s.includes(pat)]. *)
Definition includes (s pat : string) : bool :=
  match String.index 0 pat s with
  | Some _ => true
  | None => false
  end.

(** [s.startsWith(pat)]. *)
Definition startsWith (s pat : string) : bool := String.prefix pat s.

(** [s.replace(pat, rep)] with a string pattern: the first occurrence
    only. *)
Definition replace (s pat rep : string) : string :=
  match String.index 0 pat s with
  | Some i =>
      String.substring 0 i s ++ rep ++
      String.substring (i + String.length pat)
                       (String.length s - (i + String.length pat)) s
  | None => s
  end.

(** A method call [v.m(...)] where [m] is a String method: defined on
    strings only, a call of [undefined] elsewhere. *)
Definition string_method {A} (v : jsval) (m : string -> A) : res A :=
  match v with
  | Some (JStr s) => Ok (m s)
  | _ => Throw TypeError
  end.

End Js.

(** ** The progress stream client (services/api.js, current version) *)

Module ProgressStream.
Import Js.

Section Client.

(** The state of the code that supplied the callbacks (for the generator
    page: its React state). *)
Context {U : Type}.

(** A callback receives its argument and the client state; it returns
    the new client state and the exception it raised, if any. It does
    not call back into the stream client. *)
Definition callback (A : Type) : Type := A -> U -> U * option error.

Record callbacks : Type := {
  onMessage : option (callback json);
  onError : option (callback error);
  onComplete : option (callback unit)
}.

(** The callback invocations made so far, as an observer sees them. *)
Inductive call : Type :=
| OnMessage (data : json)
| OnError (e : error)
| OnComplete.

(** The variables closed over by [connect] and by the handlers, and the
    part of the browser they act on. EventSource objects are numbered
    in creation order. *)
Record state : Type := {
  retryCount : nat;            (* let retryCount *)
  eventSource : option nat;    (* let eventSource; None is null *)
  created : nat;               (* EventSource objects constructed so far *)
  live : list nat;             (* those whose readyState is not CLOSED *)
  timers : list nat;           (* pending setTimeout(connect, ms), oldest first *)
  calls : list call;           (* callback invocations, oldest first *)
  client : U
}.

Definition MAX_RETRIES : nat := 3.

Definition lost_connection : error :=
  Error "Connection to progress updates was lost. Please check your network connection.".

Definition connect_failed : error :=
  Error "Failed to connect to progress updates. Please try refreshing the page.".

(** Statements: run on a state, leave a state, and complete normally or
    abruptly. *)
Definition M (A : Type) : Type := state -> state * res A.

Definition ret {A} (a : A) : M A := fun s => (s, Ok a).
Definition throw {A} (e : error) : M A := fun s => (s, Throw e).
Definition bind {A B} (m : M A) (k : A -> M B) : M B := fun s =>
  match m s with
  | (s', Ok a) => k a s'
  | (s', Throw e) => (s', Throw e)
  end.
Definition lift {A} (r : res A) : M A := fun s => (s, r).

(** [try { m } catch (err) { h err }] *)
Definition try_catch {A} (m : M A) (h : error -> M A) : M A := fun s =>
  match m s with
  | (s', Ok a) => (s', Ok a)
  | (s', Throw e) => h e s'
  end.

Notation "'do' x <- m ; k" := (bind m (fun x => k))
  (at level 10, x name, m at level 100, k at level 200,
   format "'[v' 'do'  x  <-  m ; '/' k ']'").
Notation "'run' m ; k" := (bind m (fun _ => k))
  (at level 10, m at level 100, k at level 200,
   format "'[v' 'run'  m ; '/' k ']'").

Definition set_retryCount (n : nat) : M unit := fun s =>
  ({| retryCount := n; eventSource := eventSource s; created := created s;
      live := live s; timers := timers s; calls := calls s;
      client := client s |}, Ok tt).

Definition get_retryCount : M nat := fun s => (s, Ok (retryCount s)).

(** [es.close()] on the EventSource numbered [c]: readyState becomes
    CLOSED; closing a closed source does nothing. *)
Definition close_source (c : nat) : M unit := fun s =>
  ({| retryCount := retryCount s; eventSource := eventSource s;
      created := created s;
      live := filter (fun c' => c' <> c) (live s);
      timers := timers s; calls := calls s; client := client s |}, Ok tt).

(** [eventSource.close()], unguarded: a TypeError when the variable is
    still null. *)
Definition eventSource_close : M unit := fun s =>
  match eventSource s with
  | Some c => close_source c s
  | None => (s, Throw TypeError)
  end.

(** [eventSource = new EventSource(url)]: the constructor either throws
    [e] ([ctor = Some e]) or yields a fresh source in a non-closed
    state, which is assigned to the variable. *)
Definition new_EventSource (ctor : option error) : M unit := fun s =>
  match ctor with
  | Some e => (s, Throw e)
  | None =>
      ({| retryCount := retryCount s; eventSource := Some (created s);
          created := S (created s); live := live s ++ [created s];
          timers := timers s; calls := calls s; client := client s |},
       Ok tt)
  end.

(** [setTimeout(connect, ms)] *)
Definition setTimeout_connect (ms : nat) : M unit := fun s =>
  ({| retryCount := retryCount s; eventSource := eventSource s;
      created := created s; live := live s;
      timers := timers s ++ [ms]; calls := calls s;
      client := client s |}, Ok tt).

(** [if (cb) cb(a)] *)
Definition invoke {A} (cb : option (callback A)) (obs : A -> call) (a : A)
  : M unit := fun s =>
  match cb with
  | None => (s, Ok tt)
  | Some f =>
      let '(u, exn) := f a (client s) in
      ({| retryCount := retryCount s; eventSource := eventSource s;
          created := created s; live := live s; timers := timers s;
          calls := calls s ++ [obs a]; client := u |},
       match exn with None => Ok tt | Some e => Throw e end)
  end.

Variable cbs : callbacks.

(** [eventSource.onmessage]; [payload] is the outcome of
    [JSON.parse(event.data)], [None] when the text is malformed. *)
Definition onmessage (payload : option json) : M unit :=
  try_catch
    (do data <- lift (match payload with
                      | Some d => Ok d
                      | None => Throw SyntaxError
                      end);
     do complete <- lift (get data "complete");
     if truthy complete then
       run eventSource_close;
       invoke (onComplete cbs) (fun _ => OnComplete) tt
     else
       do message <- lift (get data "message");
       do is_error <- (if truthy message
                       then lift (string_method message
                                    (fun m => startsWith m "Error:"))
                       else ret false);
       if is_error : bool then
         do text <- lift (string_method message
                            (fun m => replace m "Error: " ""));
         invoke (onError cbs) OnError (Error text)
       else
         run set_retryCount 0;
         invoke (onMessage cbs) OnMessage data)
    (fun err => invoke (onError cbs) OnError err).

(** [eventSource.onerror] *)
Definition onerror : M unit :=
  run eventSource_close;
  do n <- get_retryCount;
  if (n <? MAX_RETRIES)%nat then
    run set_retryCount (n + 1);
    setTimeout_connect 1000
  else
    invoke (onError cbs) OnError lost_connection.

(** [eventSource.onopen] *)
Definition onopen : M unit := set_retryCount 0.

(** [connect]; the three handlers above are attached to the new
    source. *)
Definition connect (ctor : option error) : M unit :=
  try_catch (new_EventSource ctor)
            (fun _ => invoke (onError cbs) OnError connect_failed).

(** The [close] method of the returned handle. *)
Definition close : M unit := fun s =>
  match eventSource s with
  | Some c => close_source c s
  | None => (s, Ok tt)
  end.

Definition initial (u : U) : state :=
  {| retryCount := 0; eventSource := None; created := 0; live := [];
     timers := []; calls := []; client := u |}.

(** [getProgressUpdates(taskId, onMessage, onError, onComplete)]: the
    task identifier only selects the URL. The result is the state the
    returned handle closes over, or the exception that escapes. *)
Definition getProgressUpdates (taskId : string) (ctor : option error)
  (u : U) : state * res unit :=
  connect ctor (initial u).

(** What the event loop can run next. A source that is CLOSED
    dispatches nothing; a timer that is not pending does not fire. *)
Inductive event : Type :=
| EvOpen (c : nat)
| EvMessage (c : nat) (payload : option json)
| EvError (c : nat)
| EvTimer (ctor : option error)   (* the oldest pending timer expires *)
| EvClose.                        (* the holder of the handle calls close() *)

Definition pop_timer : state -> state := fun s =>
  {| retryCount := retryCount s; eventSource := eventSource s;
     created := created s; live := live s; timers := tail (timers s);
     calls := calls s; client := client s |}.

(** One turn of the event loop; an exception that escapes a handler is
    reported by the browser and the loop goes on. *)
Definition dispatch (ev : event) (s : state) : state :=
  match ev with
  | EvOpen c => if decide (c ∈ live s) then fst (onopen s) else s
  | EvMessage c payload =>
      if decide (c ∈ live s) then fst (onmessage payload s) else s
  | EvError c => if decide (c ∈ live s) then fst (onerror s) else s
  | EvTimer ctor =>
      match timers s with
      | [] => s
      | _ :: _ => fst (connect ctor (pop_timer s))
      end
  | EvClose => fst (close s)
  end.

Definition steps (evs : list event) (s : state) : state :=
  foldl (fun s ev => dispatch ev s) s evs.

End Client.

Arguments callbacks U : clear implicits.
Arguments state U : clear implicits.
Arguments M U A : clear implicits.

End ProgressStream.

(** ** The progress stream client, earlier version (frontend/src/services/api.js) *)

Module LegacyStream.
Import Js ProgressStream.

Section Client.
Context {U : Type}.
Variable cbs : callbacks U.

Notation "'do' x <- m ; k" := (bind m (fun x => k))
  (at level 10, x name, m at level 100, k at level 200).
Notation "'run' m ; k" := (bind m (fun _ => k))
  (at level 10, m at level 100, k at level 200).

(** [eventSource.onmessage] *)
Definition onmessage (payload : option json) : M U unit :=
  try_catch
    (do data <- lift (match payload with
                      | Some d => Ok d
                      | None => Throw SyntaxError
                      end);
     do complete <- lift (get data "complete");
     if truthy complete then
       run eventSource_close;
       invoke (onComplete cbs) (fun _ => OnComplete) tt
     else
       invoke (onMessage cbs) OnMessage data)
    (fun err => invoke (onError cbs) OnError err).

(** [eventSource.onerror]: no retry, the event itself is passed on. *)
Definition onerror : M U unit :=
  run eventSource_close;
  invoke (onError cbs) OnError ErrorEvent.

(** [getProgressUpdates]: a failing constructor is reported through
    [onError] and a handle with a dummy [close] is returned, modelled
    by a state whose [eventSource] is null. *)
Definition getProgressUpdates (taskId : string) (ctor : option error)
  (u : U) : state U * res unit :=
  try_catch (new_EventSource ctor)
            (fun initError => invoke (onError cbs) OnError initError)
            (initial u).

Definition dispatch (ev : event) (s : state U) : state U :=
  match ev with
  | EvOpen c => s
  | EvMessage c payload =>
      if decide (c ∈ live s) then fst (onmessage payload s) else s
  | EvError c => if decide (c ∈ live s) then fst (onerror s) else s
  | EvTimer _ => s
  | EvClose => fst (close s)
  end.

Definition steps (evs : list event) (s : state U) : state U :=
  foldl (fun s ev => dispatch ev s) s evs.

End Client.

End LegacyStream.

(** ** The generator page (frontend/src/pages/GeneratorPage.js) *)

Module GeneratorPage.
Import Js.

(** The two pieces of React state the progress callback writes. *)
Record page : Type := {
  progressUpdates : list json;
  progressPercentage : option Z    (* null until the first generation *)
}.

(** The updater handed to [setProgressUpdates]. *)
Definition addUpdate (data : json) (prevUpdates : list json)
  : res (list json) :=
  match last prevUpdates with
  | None => Ok (prevUpdates ++ [data])%list
  | Some lastUpdate =>
      match get lastUpdate "message" with
      | Throw e => Throw e
      | Ok m =>
          match get data "message" with
          | Throw e => Throw e
          | Ok m' =>
              if negb (strict_eq m m') then Ok (prevUpdates ++ [data])%list
              else Ok prevUpdates
          end
      end
  end.

Definition is_digit (a : ascii) : bool :=
  (48 <=? nat_of_ascii a)%nat && (nat_of_ascii a <=? 57)%nat.

(** The longest prefix of decimal digits, and the rest. *)
Fixpoint span_digits (s : string) : string * string :=
  match s with
  | String a s' =>
      if is_digit a
      then let '(ds, rest) := span_digits s' in (String a ds, rest)
      else ("", s)
  | "" => ("", "")
  end.

Fixpoint drop_chars (n : nat) (s : string) : string :=
  match n, s with
  | S n', String _ s' => drop_chars n' s'
  | _, _ => s
  end.

(** The regular expression [/batch (\d+) with/] anchored at the start of
    [s]; the result is the captured group. The digits are followed by a
    space, so the greedy [\d+] never has to give characters back. *)
Definition batch_at (s : string) : option string :=
  if String.prefix "batch " s then
    let '(ds, rest) := span_digits (drop_chars 6 s) in
    if String.eqb ds "" then None
    else if String.prefix " with" rest then Some ds else None
  else None.

(** [lastMessage.match(/batch (\d+) with/)]: the leftmost match. *)
Fixpoint match_batch (s : string) : option string :=
  match batch_at s with
  | Some ds => Some ds
  | None =>
      match s with
      | String _ s' => match_batch s'
      | "" => None
      end
  end.

(** [parseInt] on a non-empty string of decimal digits. *)
Fixpoint parseInt_from (acc : Z) (ds : string) : Z :=
  match ds with
  | String a ds' =>
      parseInt_from (10 * acc + (Z.of_nat (nat_of_ascii a) - 48))%Z ds'
  | "" => acc
  end.
Definition parseInt (ds : string) : Z := parseInt_from 0 ds.

(** [lastMessage.includes]: on a text the substring test of
    [String.prototype.includes]; on an array the membership test of
    [Array.prototype.includes], which a text element equal to the
    argument passes; no other value that [JSON.parse] returns has the
    method. *)
Definition includes_of (lastMessage : jsval) : option (string -> bool) :=
  match lastMessage with
  | Some (JStr m) => Some (includes m)
  | Some (JArr items) =>
      Some (fun pat =>
              existsb (fun x => strict_eq (Some x) (Some (JStr pat))) items)
  | _ => None
  end.

(** [calculateProgress]. [30 * (currentBatch / 10)] is computed here as
    [30 * currentBatch / 10], which is the same number: for the batch
    numbers 0 to 9 the double-precision product is exactly
    [3 * currentBatch], and from ten batches on the minimum caps it.
    [lastMessage.match] is a method of texts only. *)
Definition calculateProgress (updates : list json) : res Z :=
  match last updates with
  | None => Ok 10%Z
  | Some lastUpdate =>
      match get lastUpdate "message" with
      | Throw e => Throw e
      | Ok lastMessage =>
          match includes_of lastMessage with
          | None => Throw TypeError
          | Some has =>
              if has "Generated" && has "search queries" then Ok 20%Z
              else if has "Executed" && has "web searches" then Ok 30%Z
              else if has "Created learning path with" then Ok 40%Z
              else if has "Planned" && has "submodules" then Ok 50%Z
              else if has "Organized" && has "submodules into" then Ok 60%Z
              else if has "Processing submodule batch" then
                match string_method lastMessage match_batch with
                | Throw e => Throw e
                | Ok (Some digits) =>
                    let currentBatch := parseInt digits in
                    Ok (60 + Z.min (30 * currentBatch / 10) 30)%Z
                | Ok None => Ok 70%Z
                end
              else if has "Completed batch" then Ok 80%Z
              else if has "Finalized" then Ok 95%Z
              else Ok (Z.min (5 + Z.of_nat (length updates) * 2) 90)%Z
          end
      end
  end.

(** The [onMessage] callback that [connectToProgressUpdates] passes to
    [getProgressUpdates]. [captured] is the [progressUpdates] constant of
    the render whose closure this is: the updater receives the current
    list, [calculateProgress] receives [captured]. *)
Definition onMessage (captured : list json)
  : ProgressStream.callback (U := page) json := fun data p =>
  let p1 :=
    match addUpdate data (progressUpdates p) with
    | Ok l => {| progressUpdates := l;
                 progressPercentage := progressPercentage p |}
    | Throw _ => p
    end in
  match calculateProgress captured with
  | Ok v => ({| progressUpdates := progressUpdates p1;
                progressPercentage := Some v |}, None)
  | Throw e => (p1, Some e)
  end.

(** [(error) => console.error(...)] *)
Definition onError : ProgressStream.callback (U := page) error :=
  fun _ p => (p, None).

Definition page_callbacks (captured : list json)
  : ProgressStream.callbacks page :=
  {| ProgressStream.onMessage := Some (onMessage captured);
     ProgressStream.onError := Some onError;
     ProgressStream.onComplete := None |}.

(** [connectToProgressUpdates(taskId)], as defined by a render whose
    [progressUpdates] constant is [captured], called when the page state
    is [p]. (Closing the handle of an earlier task acts on that task's
    client, not on this one.) *)
Definition connectToProgressUpdates (captured : list json)
  (taskId : string) (ctor : option error) (p : page)
  : ProgressStream.state page * res unit :=
  ProgressStream.getProgressUpdates (page_callbacks captured) taskId ctor p.

(** The part of [handleSubmit] that concerns progress: the two resets,
    then, once the task identifier has arrived, [connectToProgressUpdates].
    The closures are those of the render in which the form was
    submitted, whose page state is [p]. *)
Definition handleSubmit (p : page) (taskId : string) (ctor : option error)
  : ProgressStream.state page * res unit :=
  connectToProgressUpdates (progressUpdates p) taskId ctor
    {| progressUpdates := []; progressPercentage := Some 10%Z |}.

End GeneratorPage.

(** ** The auth session (services/api.js): token refresh on 401 *)

Module AuthSession.
Import Js.

(** An axios request configuration; [retried] is its [_retry] mark. *)
Record request : Type := {
  rid : nat;
  url : string;
  retried : bool
}.

Definition mark_retried (r : request) : request :=
  {| rid := rid r; url := url r; retried := true |}.

(** Calls that reach the network from this code. *)
Inductive net_call : Type :=
| PostRefresh                                       (* api.post('/auth/refresh') *)
| Replay (r : request) (authorization : string).    (* axios(originalRequest) *)

(** The module-level variables, the interceptor runs that are suspended
    on a refresh, and what has been observed. A subscriber callback is
    represented by the request whose interceptor run it resumes. *)
Record state : Type := {
  authToken : option string;
  isRefreshingToken : bool;
  refreshSubscribers : list request;
  awaiting : list request;     (* suspended at [await api.post('/auth/refresh')] *)
  net : list net_call;
  rejected : list request      (* requests rejected back to their caller *)
}.

Definition token_truthy (t : option string) : bool :=
  match t with
  | Some s => negb (String.eqb s "")
  | None => false
  end.

(** [`Bearer ${access_token}`] *)
Definition bearer (t : option string) : string :=
  "Bearer " ++ match t with Some s => s | None => "undefined" end.

(** [refreshAuthToken()] up to its first suspension, called from the
    interceptor run of [r]. *)
Definition refreshAuthToken (r : request) (s : state) : state :=
  if isRefreshingToken s then
    {| authToken := authToken s; isRefreshingToken := isRefreshingToken s;
       refreshSubscribers := refreshSubscribers s ++ [r];
       awaiting := awaiting s; net := net s; rejected := rejected s |}
  else
    {| authToken := authToken s; isRefreshingToken := true;
       refreshSubscribers := refreshSubscribers s;
       awaiting := awaiting s ++ [r];
       net := net s ++ [PostRefresh]; rejected := rejected s |}.

(** The rejection branch of the interceptor for a 401 response to the
    request [r]. *)
Definition on401 (r : request) (s : state) : state :=
  if negb (retried r) && negb (includes (url r) "/auth/refresh") then
    refreshAuthToken (mark_retried r) s
  else
    {| authToken := authToken s; isRefreshingToken := isRefreshingToken s;
       refreshSubscribers := refreshSubscribers s; awaiting := awaiting s;
       net := net s; rejected := rejected s ++ [r] |}.

(** The [.then] branch of the interceptor: the header is rewritten, the
    token stored and the request replayed. *)
Definition replay (t : option string) (s : state) (r : request) : state :=
  {| authToken := t; isRefreshingToken := isRefreshingToken s;
     refreshSubscribers := refreshSubscribers s; awaiting := awaiting s;
     net := net s ++ [Replay r (bearer t)]; rejected := rejected s |}.

(** The [.catch] branch of the interceptor: the auth state is cleared
    and the original error is passed on. *)
Definition fail_request (s : state) (r : request) : state :=
  {| authToken := None; isRefreshingToken := isRefreshingToken s;
     refreshSubscribers := refreshSubscribers s; awaiting := awaiting s;
     net := net s; rejected := rejected s ++ [r] |}.

(** The refresh call is rejected: [onTokenRefreshed(null)], the flag is
    lowered, and every suspended interceptor run takes its [.catch]
    branch. *)
Definition refresh_rejected (s : state) : state :=
  match awaiting s with
  | [] => s
  | r0 :: rest =>
      let subscribers := refreshSubscribers s in
      let s1 :=
        {| authToken := authToken s; isRefreshingToken := false;
           refreshSubscribers := []; awaiting := rest;
           net := net s; rejected := rejected s |} in
      foldl fail_request (fail_request s1 r0) subscribers
  end.

(** How the statements of [refreshAuthToken] between the resolution of
    the call and [onTokenRefreshed] end: they complete, or one of them
    raises an exception, which can be the destructuring of a response
    without data, [JSON.parse] of a stored session that is not JSON, the
    assignment of [accessToken] to a stored session that parses to null
    or to a primitive (module code is strict), or [setItem]. *)
Inductive resumption : Type :=
| Completes
| Raises (e : error).

(** The refresh call resolves with [response.data.access_token = t].
    [refreshAuthToken] resumes: it stores the token and updates the
    session kept under 'auth' in localStorage. When that completes it
    runs [onTokenRefreshed(t)], which empties the subscriber list, and
    lowers the flag; then the suspended interceptor runs continue, the
    one that issued the call first, the subscribers in the order they
    subscribed. A subscriber is rejected when [t] is falsy. When an
    exception is raised instead, the catch block of [refreshAuthToken]
    runs as it does for a rejected call: [onTokenRefreshed(null)], the
    exception is passed on, and every suspended interceptor run takes
    its [.catch] branch, which clears the token just stored. The content
    of localStorage is not part of the state. *)
Definition refresh_resolved (t : option string) (how : resumption)
  (s : state) : state :=
  match how with
  | Raises _ => refresh_rejected s
  | Completes =>
      match awaiting s with
      | [] => s
      | r0 :: rest =>
          let subscribers := refreshSubscribers s in
          let s1 :=
            {| authToken := t; isRefreshingToken := false;
               refreshSubscribers := []; awaiting := rest;
               net := net s; rejected := rejected s |} in
          let s2 := replay t s1 r0 in
          if token_truthy t then foldl (replay t) s2 subscribers
          else foldl fail_request s2 subscribers
      end
  end.

(** [ReplayRejected r]: the replay of [r] is rejected. The replay is made
    with the global [axios], not with the instance that carries the
    interceptor, and it is the last step of the [.then] branch: its
    rejection reaches the [.catch] branch of the same interceptor run,
    which clears the auth state and rejects [r]. *)
Inductive event : Type :=
| Resp401 (r : request)
| RefreshResolved (access_token : option string) (how : resumption)
| RefreshRejected
| ReplayRejected (r : request).

Definition dispatch (ev : event) (s : state) : state :=
  match ev with
  | Resp401 r => on401 r s
  | RefreshResolved t how => refresh_resolved t how s
  | RefreshRejected => refresh_rejected s
  | ReplayRejected r => fail_request s r
  end.

Definition steps (evs : list event) (s : state) : state :=
  foldl (fun s ev => dispatch ev s) s evs.

Definition is_refresh (c : net_call) : bool :=
  match c with
  | PostRefresh => true
  | Replay _ _ => false
  end.

Definition count_refresh (l : list net_call) : nat :=
  length (List.filter is_refresh l).

End AuthSession.

(** ** The history facade (services/api.js) *)

Module History.
Import Js.

(** A request made through the axios instance. *)
Record http : Type := {
  method : string;
  path : string;
  params : list (string * string);
  body : option json
}.

(** A history preview as [getHistoryPreview] caches it. *)
Record cache_entry : Type := {
  data : json;
  timestamp : Z       (* Date.now() when it was stored *)
}.

(** What an awaited request comes back with: [response.data] or the
    rejection, and the module-level token as the response interceptor
    leaves it (it may have refreshed or cleared it meanwhile). *)
Record reply : Type := {
  outcome : res json;
  authToken_on_resume : option string
}.

Section Facade.

(** The local history service (./localHistoryService) is imported by
    api.js and is not part of these sources: its operations are
    parameters, acting on a store of type [L]. *)
Context {L : Type}.
Variable local_saveToHistory : json -> string -> L -> L * res json.
Variable local_updateHistoryEntry : string -> json -> L -> L * res json.
Variable local_deleteHistoryEntry : string -> L -> L * res json.
Variable local_getHistoryPreview :
  string -> option string -> option string -> L -> L * res json.

Record world : Type := {
  authToken : option string;                    (* let authToken *)
  sessionStorage : gmap string cache_entry;
  local : L;
  net : list http                               (* requests sent, oldest first *)
}.

Definition M (A : Type) : Type := world -> world * res A.

Definition ret {A} (a : A) : M A := fun w => (w, Ok a).
Definition throw {A} (e : error) : M A := fun w => (w, Throw e).
Definition bind {A B} (m : M A) (k : A -> M B) : M B := fun w =>
  match m w with
  | (w', Ok a) => k a w'
  | (w', Throw e) => (w', Throw e)
  end.
Definition lift {A} (r : res A) : M A := fun w => (w, r).
Definition try_catch {A} (m : M A) (h : error -> M A) : M A := fun w =>
  match m w with
  | (w', Ok a) => (w', Ok a)
  | (w', Throw e) => h e w'
  end.

Notation "'do' x <- m ; k" := (bind m (fun x => k))
  (at level 10, x name, m at level 100, k at level 200).
Notation "'run' m ; k" := (bind m (fun _ => k))
  (at level 10, m at level 100, k at level 200).

(** [if (authToken)] *)
Definition has_token : M bool := fun w =>
  (w, Ok match authToken w with
         | Some t => negb (String.eqb t "")
         | None => false
         end).

Definition clearAuthToken : M unit := fun w =>
  ({| authToken := None; sessionStorage := sessionStorage w;
      local := local w; net := net w |}, Ok tt).

(** [await api.<method>(...)] *)
Definition request (q : http) (rep : reply) : M json := fun w =>
  ({| authToken := authToken_on_resume rep;
      sessionStorage := sessionStorage w; local := local w;
      net := net w ++ [q] |}, outcome rep).

Definition on_local {A} (f : L -> L * res A) : M A := fun w =>
  let '(l, r) := f (local w) in
  ({| authToken := authToken w; sessionStorage := sessionStorage w;
      local := l; net := net w |}, r).

Definition getItem (k : string) : M (option cache_entry) := fun w =>
  (w, Ok (sessionStorage w !! k)).

(** [sessionStorage.setItem]; it throws when the quota is exceeded. *)
Definition setItem (k : string) (e : cache_entry) (quota_ok : bool)
  : M unit := fun w =>
  if quota_ok then
    ({| authToken := authToken w;
        sessionStorage := <[k := e]> (sessionStorage w);
        local := local w; net := net w |}, Ok tt)
  else (w, Throw (Error "QuotaExceededError")).

(** An object literal; a property whose value is [undefined] reads
    like an absent one. *)
Definition object (fields : list (string * jsval)) : json :=
  JObj (omap (fun '(k, v) => match v with
                             | Some j => Some (k, j)
                             | None => None
                             end) fields).

(** [a || b] *)
Definition or_else (a : jsval) (b : json) : jsval :=
  if truthy a then a else Some b.

Definition create_request (learningPath : json) (topic : jsval)
  (source : string) : http :=
  {| method := "POST"; path := "/learning-paths"; params := [];
     body := Some (object [("topic", or_else topic (JStr "Untitled"));
                           ("path_data", Some learningPath);
                           ("favorite", Some (JBool false));
                           ("tags", Some (JArr []));
                           ("source", Some (JStr source))]) |}.

(** [saveToHistory(learningPath, source)] *)
Definition saveToHistory (learningPath : json) (source : string)
  (rep : reply) : M json :=
  try_catch
    (do authed <- has_token;
     if authed : bool then
       do topic <- lift (get learningPath "topic");
       do response_data <-
         request (create_request learningPath topic source) rep;
       do path_id <- lift (get response_data "path_id");
       ret (object [("success", Some (JBool true));
                    ("entry_id", path_id)])
     else
       on_local (local_saveToHistory learningPath source))
    (fun _ => on_local (local_saveToHistory learningPath source)).

(** [updateHistoryEntry(entryId, data)] *)
Definition updateHistoryEntry (entryId : string) (data : json)
  (rep : reply) : M json :=
  try_catch
    (do authed <- has_token;
     if authed : bool then
       run request {| method := "PUT";
                      path := "/learning-paths/" ++ entryId;
                      params := []; body := Some data |} rep;
       ret (object [("success", Some (JBool true))])
     else
       on_local (local_updateHistoryEntry entryId data))
    (fun error =>
       do authed <- has_token;
       if negb authed then
         on_local (local_updateHistoryEntry entryId data)
       else throw error).

(** [deleteHistoryEntry(entryId)] *)
Definition deleteHistoryEntry (entryId : string) (rep : reply) : M json :=
  try_catch
    (do authed <- has_token;
     if authed : bool then
       run request {| method := "DELETE";
                      path := "/learning-paths/" ++ entryId;
                      params := []; body := None |} rep;
       ret (object [("success", Some (JBool true))])
     else
       on_local (local_deleteHistoryEntry entryId))
    (fun error =>
       do authed <- has_token;
       if negb authed then on_local (local_deleteHistoryEntry entryId)
       else throw error).

(** [x || 'null'] inside the cache key, [if (x)] for the parameters:
    null and the empty string are falsy. *)
Definition given (x : option string) : option string :=
  match x with
  | Some t => if String.eqb t "" then None else Some t
  | None => None
  end.

Definition cacheKey (sortBy : string) (filterSource searchTerm : option string)
  : string :=
  "history_preview_" ++ sortBy ++ "_" ++
  default "null" (given filterSource) ++ "_" ++
  default "null" (given searchTerm).

Definition cacheTimeMs : Z := 60000.

Definition preview_request (sortBy : string)
  (filterSource searchTerm : option string) : http :=
  {| method := "GET"; path := "/learning-paths";
     params :=
       [("sort_by", sortBy); ("include_full_data", "false")] ++
       match given filterSource with
       | Some f => [("source", f)]
       | None => []
       end ++
       match given searchTerm with
       | Some t => [("search", t)]
       | None => []
       end;
     body := None |}.

(** [response.data.entries] is truthy, for a [response.data] that is
    truthy itself: on an object its own property decides; an array
    answers with its method of that name, a function; a text, a number
    and a boolean have no such member. *)
Definition has_entries (response_data : json) : bool :=
  match response_data with
  | JObj fs => truthy (assoc "entries" fs)
  | JArr _ => true
  | _ => false
  end.

(** [serverError.response && (status === 401 || status === 403)] *)
Definition is_auth_error (e : error) : bool :=
  match e with
  | HttpError st => (st =? 401)%Z || (st =? 403)%Z
  | _ => false
  end.

(** [getHistoryPreview(sortBy, filterSource, searchTerm)]. [now_check]
    and [now_store] are the two readings of [Date.now()], the second
    one taken after the response has arrived. *)
Definition getHistoryPreview (sortBy : string)
  (filterSource searchTerm : option string)
  (now_check now_store : Z) (quota_ok : bool) (rep : reply) : M json :=
  let key := cacheKey sortBy filterSource searchTerm in
  try_catch
    (do authed <- has_token;
     if negb authed then
       on_local (local_getHistoryPreview sortBy filterSource searchTerm)
     else
       do cachedData <- getItem key;
       let fresh :=
         match cachedData with
         | Some e =>
             let age := (now_check - timestamp e)%Z in
             if (age <? cacheTimeMs)%Z then Some (data e) else None
         | None => None
         end in
       match fresh with
       | Some d => ret d
       | None =>
           do response_data <-
             request (preview_request sortBy filterSource searchTerm) rep;
           if negb (truthy (Some response_data))
              || negb (has_entries response_data) then
             ret (object [("entries", Some (JArr []));
                          ("total", Some (JNum 0))])
           else
             run try_catch
                   (setItem key {| data := response_data;
                                   timestamp := now_store |} quota_ok)
                   (fun _ => ret tt);
             ret response_data
       end)
    (fun serverError =>
       run (if is_auth_error serverError then clearAuthToken else ret tt);
       on_local (local_getHistoryPreview sortBy filterSource searchTerm)).

End Facade.

Arguments world L : clear implicits.
Arguments M L A : clear implicits.

End History.

(** Modelled from the spec: the Local History Store (localHistoryService.js
    is imported by api.js but is not among the sources). Following the
    spec it is a client-owned collection of entries that issues its own
    identifiers and never touches the network; it is used where a concrete
    store is needed to run the facade. *)
Module LocalStore.
Import Js.

Definition store : Type := list (string * json).

Definition local_id (n : nat) : string := "local-" ++ pretty n.

Definition saveToHistory (learningPath : json) (source : string)
  (l : store) : store * res json :=
  let id := local_id (length l) in
  ((l ++ [(id, learningPath)])%list,
   Ok (JObj [("success", JBool true); ("entry_id", JStr id)])).

Definition updateHistoryEntry (entryId : string) (data : json)
  (l : store) : store * res json :=
  (l, Ok (JObj [("success", JBool (bool_decide (entryId ∈ l.*1)))])).

Definition deleteHistoryEntry (entryId : string) (l : store)
  : store * res json :=
  (filter (fun e => e.1 <> entryId) l,
   Ok (JObj [("success", JBool (bool_decide (entryId ∈ l.*1)))])).

Definition getHistoryPreview (sortBy : string)
  (filterSource searchTerm : option string) (l : store)
  : store * res json :=
  (l, Ok (JObj [("entries", JArr (l.*2))])).

End LocalStore.

(** ** Vocabulary for the statements about the progress stream *)

Module StreamSpec.
Import Js ProgressStream.

Section Vocabulary.
Context {U : Type}.

(** In every state the client can reach at most one source is live, it
    is the one the variable refers to, and a reconnect timer is pending
    only while no source is live. *)
Definition wf (s : state U) : Prop :=
  (retryCount s <= MAX_RETRIES)%nat /\
  ((live s = [] /\ (timers s = [] \/ timers s = [1000%nat])) \/
   (exists c, live s = [c] /\ eventSource s = Some c /\ timers s = [])).

(** Nothing can happen any more: no live source, no pending timer. *)
Definition quiescent (s : state U) : Prop :=
  live s = [] /\ timers s = [].

Definition is_complete (c : call) : bool :=
  match c with OnComplete => true | _ => false end.
Definition is_message (c : call) : bool :=
  match c with OnMessage _ => true | _ => false end.
Definition is_error (c : call) : bool :=
  match c with OnError _ => true | _ => false end.

(** How often a kind of callback has been invoked. *)
Definition count (kind : call -> bool) (l : list call) : nat :=
  length (List.filter kind l).

(** What is reported to [onError], when one was supplied. *)
Definition reported (cbs : callbacks U) (e : error) : list call :=
  match onError cbs with
  | Some _ => [OnError e]
  | None => []
  end.

(** [k] transport failures in a row, each followed by the expiry of the
    reconnect timer and a successful reconnect: the failing source is
    [c], the sources created next are [next], [next + 1], ... *)
Fixpoint failures (c next : nat) (k : nat) : list event :=
  match k with
  | O => []
  | S k' => EvError c :: EvTimer None :: failures next (S next) k'
  end.

(** A stream client, given by its start state and its event loop,
    treats a [{complete: true}] payload as final: once it is received
    on a live source, [onComplete] has been invoked exactly once (if
    supplied), no [onMessage] was added, and whatever arrives afterwards
    changes nothing. *)
Definition complete_is_final (cbs : callbacks U) (start : state U)
  (dispatch : event -> state U -> state U) : Prop :=
  forall evs c data evs',
    let s := foldl (fun s ev => dispatch ev s) start evs in
    c ∈ live s ->
    get data "complete" = Ok (Some (JBool true)) ->
    let s1 := dispatch (EvMessage c (Some data)) s in
    count is_complete (calls s1)
      = match onComplete cbs with Some _ => 1%nat | None => 0%nat end /\
    count is_message (calls s1) = count is_message (calls s) /\
    quiescent s1 /\
    foldl (fun s ev => dispatch ev s) s1 evs' = s1.

(** A call of [getProgressUpdates] with outcome [out] returned a
    handle: nothing was thrown, and [close] can be called on it at any
    later time without throwing. When the constructor failed with [e],
    [report e] was passed to [onError] and [close] has nothing to do. *)
Definition returns_handle (cbs : callbacks U) (ctor : option error)
  (report : error -> error) (dispatch : event -> state U -> state U)
  (out : state U * res unit) : Prop :=
  out.2 = Ok tt /\
  (forall evs,
     (close (foldl (fun s ev => dispatch ev s) out.1 evs)).2 = Ok tt) /\
  (forall e, ctor = Some e ->
     calls out.1 = reported cbs (report e) /\ quiescent out.1 /\
     (close out.1).1 = out.1).

(** A payload that is an ordinary progress message with text [t]. *)
Definition progress_message (data : json) (t : string) : Prop :=
  (exists v, get data "complete" = Ok v /\ truthy v = false) /\
  get data "message" = Ok (Some (JStr t)) /\
  startsWith t "Error:" = false.

(** The reading of "close() ends everything" that the code does not
    satisfy: after any run, once [close] has been called no timer is
    pending and no later event adds a callback invocation. *)
Definition close_is_final (start : state U)
  (dispatch : event -> state U -> state U) : Prop :=
  forall evs evs',
    let s := dispatch EvClose (foldl (fun s ev => dispatch ev s) start evs) in
    timers s = [] /\
    calls (foldl (fun s ev => dispatch ev s) s evs') = calls s.

End Vocabulary.

(** Callbacks that only observe: the client state is [unit]. *)
Definition observers : callbacks unit :=
  {| onMessage := Some (fun _ u => (u, None));
     onError := Some (fun _ u => (u, None));
     onComplete := Some (fun _ u => (u, None)) |}.

Definition text (t : string) : json := JObj [("message", JStr t)].

(** A client with observing callbacks, just opened. *)
Definition start : state unit :=
  (getProgressUpdates observers "task-1" None tt).1.

End StreamSpec.

(** ** Vocabulary for the statements about the generator page *)

Module PageSpec.
Import Js GeneratorPage.

(** No two neighbours of the list are the same entry, and their
    [message] properties are not strictly equal. *)
Definition no_adjacent_duplicates (l : list json) : Prop :=
  forall i a b, l !! i = Some a -> l !! S i = Some b ->
    a <> b /\
    exists m m', get a "message" = Ok m /\ get b "message" = Ok m' /\
                 strict_eq m m' = false.

(** What [getProgressUpdates] hands to [onMessage]: the [message]
    property can be read and is falsy or a string. *)
Definition deliverable (data : json) : Prop :=
  exists m, get data "message" = Ok m /\
            (truthy m = false \/ exists t, m = Some (JStr t)).

(** The invariant of the recorded list. *)
Definition recorded (l : list json) : Prop :=
  Forall deliverable l /\ no_adjacent_duplicates l.

(** The page before its first generation. *)
Definition fresh : page :=
  {| progressUpdates := []; progressPercentage := None |}.

End PageSpec.

(** ** Vocabulary for the statements about the auth session and the facade *)

Module AuthSpec.
Import Js AuthSession.

(** A request the interceptor has not retried yet and that is not the
    refresh call itself. *)
Definition fresh_request (r : request) : Prop :=
  retried r = false /\ includes (url r) "/auth/refresh" = false.

(** No refresh is in flight. *)
Definition idle (s : state) : Prop :=
  isRefreshingToken s = false /\ refreshSubscribers s = [] /\
  awaiting s = [].

Definition logged_in (t : string) : state :=
  {| authToken := Some t; isRefreshingToken := false;
     refreshSubscribers := []; awaiting := []; net := []; rejected := [] |}.

Definition get_request (n : nat) (u : string) : request :=
  {| rid := n; url := u; retried := false |}.

End AuthSpec.

Module HistorySpec.
Import Js History.

(** [authToken] is truthy. *)
Definition authenticated {L} (w : world L) : Prop :=
  exists t, authToken w = Some t /\ t <> "".

Definition signed_in (t : string) : world LocalStore.store :=
  {| authToken := Some t; sessionStorage := ∅; local := []; net := [] |}.

Definition signed_out : world LocalStore.store :=
  {| authToken := None; sessionStorage := ∅; local := []; net := [] |}.

(** The facade over the modelled local store. *)
Definition saveToHistory := History.saveToHistory LocalStore.saveToHistory.
Definition updateHistoryEntry :=
  History.updateHistoryEntry LocalStore.updateHistoryEntry.
Definition deleteHistoryEntry :=
  History.deleteHistoryEntry LocalStore.deleteHistoryEntry.
Definition getHistoryPreview :=
  History.getHistoryPreview LocalStore.getHistoryPreview.

Definition path : json := JObj [("topic", JStr "Rocq")].

End HistorySpec.

(** ** Further vocabulary for the stream client and the page *)

Module StreamSpec2.
Import Js ProgressStream.

Section Vocabulary.
Context {U : Type}.

(** A payload that [onmessage] passes on to [onMessage]: it is not a
    completion and its [message] is falsy or a text that does not
    announce an error. *)
Definition plain (data : json) : Prop :=
  exists v m, get data "complete" = Ok v /\ truthy v = false /\
              get data "message" = Ok m /\
              (truthy m = false \/
               exists t, m = Some (JStr t) /\ startsWith t "Error:" = false).

Definition plain_call (c : call) : Prop :=
  match c with
  | OnMessage data => plain data
  | _ => True
  end.

(** What [onmessage] reports a second time: when [onError] is called
    inside the try block with [e] and itself throws, the catch block
    hands the exception it threw to [onError] again. *)
Definition echoed (cbs : callbacks U) (e : error) (u : U) : list call :=
  match onError cbs with
  | Some f => match (f e u).2 with
              | Some e' => [OnError e']
              | None => []
              end
  | None => []
  end.

(** How many retry timers expire in a run. *)
Definition timer_events (evs : list event) : nat :=
  length (List.filter (fun ev => match ev with
                                 | EvTimer _ => true
                                 | _ => false
                                 end) evs).

End Vocabulary.

End StreamSpec2.

(** ** More of JavaScript: conversion to string, object spread, assignment *)

Module JsObject.
Import Js.

Section Printing.

(** [Number.prototype.toString] on the number that an integer numeral
    of JSON denotes: decimal digits for integers of ordinary size,
    exponent notation from 10^21 on. The function is a parameter. *)
Variable number_text : Z -> string.

(** [String(v)], which is also the conversion that a template
    literal, [new Error(v)] and [Storage.setItem] apply. An array
    prints its elements separated by commas, null elements as the
    empty string. An object prints as "[object Object]", unless it has
    an own property [toString]: what [JSON.parse] puts there is never
    a function, the inherited [valueOf] returns the object itself, and
    the conversion throws a TypeError. *)
Fixpoint toString (v : json) : res string :=
  match v with
  | JNull => Ok "null"
  | JBool true => Ok "true"
  | JBool false => Ok "false"
  | JNum n => Ok (number_text n)
  | JStr s => Ok s
  | JArr items =>
      (fix join (l : list json) : res string :=
         match l with
         | [] => Ok ""
         | x :: l' =>
             match match x with JNull => Ok "" | _ => toString x end with
             | Throw e => Throw e
             | Ok s =>
                 match l' with
                 | [] => Ok s
                 | _ :: _ =>
                     match join l' with
                     | Throw e => Throw e
                     | Ok r => Ok (s ++ "," ++ r)
                     end
                 end
             end
         end) items
  | JObj fs =>
      match assoc "toString" fs with
      | Some _ => Throw TypeError
      | None => Ok "[object Object]"
      end
  end.

Definition toString_val (v : jsval) : res string :=
  match v with
  | Some j => toString j
  | None => Ok "undefined"
  end.

End Printing.

(** Decimal digits, which is how JavaScript prints the integers below
    10^21 in absolute value. *)
Definition decimal (n : Z) : string := pretty n.

(** [{...v}]: the own enumerable properties of [v]; an array and a
    string contribute their indices, null and the other primitives
    nothing. *)
Definition spread (v : json) : list (string * json) :=
  match v with
  | JObj fs => fs
  | JArr items => imap (fun i x => (pretty i, x)) items
  | JStr s =>
      imap (fun i a => (pretty i, JStr (String a EmptyString)))
           (list_ascii_of_string s)
  | _ => []
  end.

(** [o[k] = v] on the properties of [o], for a defined [v]: an existing
    property keeps its place, a new one comes last. *)
Fixpoint set_field (k : string) (v : json) (fs : list (string * json))
  : list (string * json) :=
  match fs with
  | [] => [(k, v)]
  | (k', v') :: fs' =>
      if String.eqb k k' then (k, v) :: fs'
      else (k', v') :: set_field k v fs'
  end.

Definition remove_field (k : string) (fs : list (string * json))
  : list (string * json) :=
  List.filter (fun kv => negb (String.eqb k kv.1)) fs.

(** [o[k] = v] where [v] may be [undefined]; a property that holds
    [undefined] reads like an absent one and is represented so. *)
Definition with_field (k : string) (v : jsval) (fs : list (string * json))
  : list (string * json) :=
  match v with
  | Some j => set_field k j fs
  | None => remove_field k fs
  end.

(** [v.k] behind a guard that [v] is truthy, where the read cannot
    throw. *)
Definition prop (v : jsval) (k : string) : jsval :=
  match v with
  | Some j => match get j k with Ok x => x | Throw _ => None end
  | None => None
  end.

(** [Array.isArray(v)] *)
Definition isArray (v : jsval) : bool :=
  match v with
  | Some (JArr _) => true
  | _ => false
  end.

(** [xs.map(f)] for an [f] that may throw. *)
Fixpoint map_res {A B} (f : A -> res B) (l : list A) : res (list B) :=
  match l with
  | [] => Ok []
  | x :: l' =>
      match f x with
      | Throw e => Throw e
      | Ok y =>
          match map_res f l' with
          | Throw e => Throw e
          | Ok ys => Ok (y :: ys)
          end
      end
  end.

End JsObject.

(** ** The rest of the history facade (services/api.js) *)

Module HistoryMore.
Import Js JsObject History.

Section Facade.

(** Further operations of the local history service, parameters as
    before. *)
Context {L : Type}.
Variable local_getHistoryEntry : string -> L -> L * res jsval.
Variable local_importLearningPath : string -> L -> L * res json.
Variable local_getLocalHistory : L -> L * res json.

Notation "'do' x <- m ; k" := (bind m (fun x => k))
  (at level 10, x name, m at level 100, k at level 200).
Notation "'run' m ; k" := (bind m (fun _ => k))
  (at level 10, m at level 100, k at level 200).

Definition not_found : error :=
  Error "Learning path not found. The ID may be invalid or the item has been deleted.".

(** [getHistoryEntry(entryId)] *)
Definition getHistoryEntry (entryId : string) (rep : reply)
  : M L jsval :=
  do authed <- has_token;
  if authed : bool then
    try_catch
      (do response_data <-
         request {| method := "GET";
                    path := "/learning-paths/" ++ entryId;
                    params := []; body := None |} rep;
       ret (Some (object [("entry", Some response_data)])))
      (fun serverError =>
         run (if is_auth_error serverError then clearAuthToken
              else ret tt);
         do localEntry <- on_local (local_getHistoryEntry entryId);
         do found <-
           (if truthy localEntry
            then match localEntry with
                 | Some l => do entry <- lift (get l "entry");
                             ret (truthy entry)
                 | None => ret false
                 end
            else ret false);
         if found : bool then ret localEntry else throw not_found)
  else
    on_local (local_getHistoryEntry entryId).

Definition import_request (learningPath : json) (topic : jsval) : http :=
  {| method := "POST"; path := "/learning-paths"; params := [];
     body := Some (object [("topic", or_else topic (JStr "Untitled"));
                           ("path_data", Some learningPath);
                           ("favorite", Some (JBool false));
                           ("tags", Some (JArr []));
                           ("source", Some (JStr "imported"))]) |}.

(** [importLearningPath(jsonData)]; [parsed] is the outcome of
    [JSON.parse(jsonData)], [None] when the text is malformed. *)
Definition importLearningPath (jsonData : string) (parsed : option json)
  (rep : reply) : M L json :=
  try_catch
    (do learningPath <- lift (match parsed with
                              | Some j => Ok j
                              | None => Throw SyntaxError
                              end);
     do authed <- has_token;
     if authed : bool then
       do topic <- lift (get learningPath "topic");
       do response_data <- request (import_request learningPath topic) rep;
       do path_id <- lift (get response_data "path_id");
       ret (object [("success", Some (JBool true));
                    ("entry_id", path_id);
                    ("topic", topic)])
     else
       on_local (local_importLearningPath jsonData))
    (fun _ => on_local (local_importLearningPath jsonData)).

(** [entry => ({ ...entry, id: entry.path_id })] *)
Definition with_id (entry : json) : res json :=
  match get entry "path_id" with
  | Throw e => Throw e
  | Ok path_id => Ok (JObj (with_field "id" path_id (spread entry)))
  end.

Definition export_request : http :=
  {| method := "GET"; path := "/learning-paths?per_page=1000";
     params := []; body := None |}.

(** [exportHistory()]; [now] is [new Date().toISOString()]. *)
Definition exportHistory (now : string) (rep : reply) : M L json :=
  try_catch
    (do authed <- has_token;
     if authed : bool then
       do response_data <- request export_request rep;
       do entries <- lift (get response_data "entries");
       do mapped <- lift (match entries with
                          | Some (JArr items) => map_res with_id items
                          | _ => Throw TypeError
                          end);
       ret (object [("entries", Some (JArr mapped));
                    ("last_updated", Some (JStr now))])
     else
       on_local local_getLocalHistory)
    (fun _ => on_local local_getLocalHistory).

End Facade.

End HistoryMore.

(** ** The credential store (services/api.js, both versions) *)

Module Credentials.
Import Js JsObject.

(** The three sessionStorage keys a version of the store uses. *)
Record keys : Type := {
  first_key : string;
  second_key : string;
  remember_key : string
}.

(** GOOGLE_KEY_TOKEN_STORAGE, PPLX_KEY_TOKEN_STORAGE,
    REMEMBER_TOKENS_STORAGE *)
Definition token_keys : keys :=
  {| first_key := "learning_path_google_key_token";
     second_key := "learning_path_pplx_key_token";
     remember_key := "learning_path_remember_tokens" |}.

(** OPENAI_KEY_STORAGE, TAVILY_KEY_STORAGE, REMEMBER_KEYS_STORAGE of the
    earlier version. *)
Definition api_keys : keys :=
  {| first_key := "learning_path_openai_key";
     second_key := "learning_path_tavily_key";
     remember_key := "learning_path_remember_keys" |}.

(** sessionStorage, and the number of operations performed on it during
    the current call. *)
Record storage : Type := {
  items : gmap string string;
  performed : nat
}.

Definition M (A : Type) : Type := storage -> storage * res A.

Definition ret {A} (a : A) : M A := fun s => (s, Ok a).
Definition bind {A B} (m : M A) (k : A -> M B) : M B := fun s =>
  match m s with
  | (s', Ok a) => k a s'
  | (s', Throw e) => (s', Throw e)
  end.
Definition try_catch {A} (m : M A) (h : error -> M A) : M A := fun s =>
  match m s with
  | (s', Ok a) => (s', Ok a)
  | (s', Throw e) => h e s'
  end.

Notation "'do' x <- m ; k" := (bind m (fun x => k))
  (at level 10, x name, m at level 100, k at level 200).
Notation "'run' m ; k" := (bind m (fun _ => k))
  (at level 10, m at level 100, k at level 200).

Section Store.

(** A storage operation can throw (quota exceeded, storage disabled).
    [fails_at = Some n] makes operation number [n] of the call throw;
    a function leaves its try block at the first exception, so one
    such number describes every way a call can go. *)
Variable fails_at : option nat.

(** How numbers print, see [JsObject.toString]. *)
Variable number_text : Z -> string.

Definition operation {A} (f : gmap string string -> gmap string string * A)
  : M A := fun s =>
  if decide (fails_at = Some (performed s))
  then (s, Throw (Error "storage"))
  else let '(m, a) := f (items s) in
       ({| items := m; performed := S (performed s) |}, Ok a).

(** [sessionStorage.setItem(k, v)]: the value is converted to a
    string first, which can throw. *)
Definition setItem (k : string) (v : jsval) : M unit :=
  match toString_val number_text v with
  | Throw e => fun s => (s, Throw e)
  | Ok text => operation (fun m => (<[k := text]> m, tt))
  end.
Definition removeItem (k : string) : M unit :=
  operation (fun m => (delete k m, tt)).
Definition getItem (k : string) : M (option string) :=
  operation (fun m => (m, m !! k)).

Variable ks : keys.

(** [clearSavedApiTokens] / [clearSavedApiKeys] *)
Definition clearSaved : M unit :=
  try_catch
    (run removeItem (first_key ks);
     run removeItem (second_key ks);
     removeItem (remember_key ks))
    (fun _ => ret tt).

(** [x || ''] *)
Definition or_empty (x : jsval) : jsval :=
  if truthy x then x else Some (JStr "").

(** [saveApiTokens] / [saveApiKeys]; the result repeats the
    arguments. *)
Definition save (first second : jsval) (remember : bool)
  : M (jsval * jsval * bool) :=
  run (if remember then
         try_catch
           (run setItem (first_key ks) (or_empty first);
            run setItem (second_key ks) (or_empty second);
            setItem (remember_key ks) (Some (JStr "true")))
           (fun _ => ret tt)
       else clearSaved);
  ret (first, second, remember).

(** [x || null] on a stored string *)
Definition or_null (x : option string) : option string :=
  match x with
  | Some t => if String.eqb t "" then None else Some t
  | None => None
  end.

(** [getSavedApiTokens] / [getSavedApiKeys]: the two values ([None]
    is null) and the flag. *)
Definition getSaved : M (option string * option string * bool) :=
  do found <-
    try_catch
      (do flag <- getItem (remember_key ks);
       if bool_decide (flag = Some "true") then
         do first <- getItem (first_key ks);
         do second <- getItem (second_key ks);
         ret (Some (or_null first, or_null second, true))
       else ret None)
      (fun _ => ret None);
  match found with
  | Some r => ret r
  | None => ret (None, None, false)
  end.

End Store.

(** [x] is the text [a]; an absent [x] (null, undefined) stands for the
    empty text. *)
Definition holds_text (x : jsval) (a : string) : Prop :=
  x = Some (JStr a) \/ (a = "" /\ (x = None \/ x = Some JNull)).

(** A call starts counting its operations from zero. *)
Definition call {A} (m : M A) (st : gmap string string)
  : gmap string string * res A :=
  let '(s, r) := m {| items := st; performed := 0 |} in (items s, r).

Definition saveApiTokens number_text fails_at :=
  save fails_at number_text token_keys.
Definition getSavedApiTokens fails_at := getSaved fails_at token_keys.
Definition clearSavedApiTokens fails_at := clearSaved fails_at token_keys.
Definition saveApiKeys number_text fails_at :=
  save fails_at number_text api_keys.
Definition getSavedApiKeys fails_at := getSaved fails_at api_keys.
Definition clearSavedApiKeys fails_at := clearSaved fails_at api_keys.

End Credentials.

(** ** The bearer token (services/api.js) *)

Module AuthToken.
Import Js JsObject.

(** The item stored under 'auth' in localStorage, seen through
    [JSON.parse]: the empty string, a text that does not parse, or the
    parsed value. *)
Inductive auth_item : Type :=
| EmptyText
| Malformed
| Holds (v : json).

Record state : Type := {
  authToken : jsval;                (* let authToken; None is null *)
  authorization : option string;    (* api.defaults.headers.common['Authorization'] *)
  stored : option auth_item         (* localStorage.getItem('auth') *)
}.

Section Token.

(** How numbers print, see [JsObject.toString]. *)
Variable number_text : Z -> string.

(** [setAuthToken(token)]: the variable is assigned first; the
    template literal that builds the header converts the token to a
    string, which can throw and then leaves the header as it was. *)
Definition setAuthToken (token : jsval) (s : state) : state * res unit :=
  if truthy token then
    match toString_val number_text token with
    | Ok text =>
        ({| authToken := token;
            authorization := Some ("Bearer " ++ text);
            stored := stored s |}, Ok tt)
    | Throw e =>
        ({| authToken := token; authorization := authorization s;
            stored := stored s |}, Throw e)
    end
  else
    ({| authToken := token; authorization := None; stored := stored s |},
     Ok tt).

(** [clearAuthToken()] *)
Definition clearAuthToken (s : state) : state :=
  {| authToken := None; authorization := None; stored := stored s |}.

Definition removeItem (s : state) : state :=
  {| authToken := authToken s; authorization := authorization s;
     stored := None |}.

(** [initAuthFromStorage()]: the new state and the boolean returned. *)
Definition initAuthFromStorage (s : state) : state * bool :=
  match stored s with
  | None | Some EmptyText => (s, false)          (* if (authData) fails *)
  | Some Malformed => (removeItem s, false)      (* JSON.parse throws *)
  | Some (Holds v) =>
      match get v "accessToken" with             (* const { accessToken } = ... *)
      | Throw _ => (removeItem s, false)
      | Ok accessToken =>
          if truthy accessToken then
            match setAuthToken accessToken s with
            | (s', Ok _) => (s', true)
            | (s', Throw _) => (removeItem s', false)
            end
          else (s, false)
      end
  end.

(** What the rest of the module may do to the token. *)
Inductive action : Type :=
| SetAuthToken (token : jsval)
| ClearAuthToken
| InitAuthFromStorage
| Store (item : option auth_item).    (* localStorage is written elsewhere *)

Definition perform (a : action) (s : state) : state :=
  match a with
  | SetAuthToken t => (setAuthToken t s).1
  | ClearAuthToken => clearAuthToken s
  | InitAuthFromStorage => (initAuthFromStorage s).1
  | Store item => {| authToken := authToken s;
                     authorization := authorization s; stored := item |}
  end.

End Token.

(** The module as loaded: no token, no header. *)
Definition loaded (item : option auth_item) : state :=
  {| authToken := None; authorization := None; stored := item |}.

(** A token that is a text, or absent. *)
Definition textual (v : jsval) : Prop :=
  match v with
  | None | Some JNull | Some (JStr _) => True
  | _ => False
  end.

(** An action that brings in textual tokens only. *)
Definition textual_action (a : action) : Prop :=
  match a with
  | SetAuthToken t => textual t
  | Store (Some (Holds v)) =>
      match get v "accessToken" with
      | Ok accessToken => textual accessToken
      | Throw _ => True
      end
  | _ => True
  end.

End AuthToken.

(** ** Tags on the generator and history pages *)

Module Tags.

Section Handlers.

(** [String.prototype.trim] *)
Variable trim : string -> string.

(** The tag list and the text of the input field. *)
Record tag_state : Type := {
  tags : list string;
  newTag : string
}.

(** [handleAddTag] (also [handleAddDialogTag], and [TagsInput]'s
    [handleAddTag] composed with the card's). *)
Definition handleAddTag (s : tag_state) : tag_state :=
  if negb (String.eqb (trim (newTag s)) "")
     && negb (bool_decide (trim (newTag s) ∈ tags s))
  then {| tags := (tags s ++ [trim (newTag s)])%list; newTag := "" |}
  else s.

(** [handleDeleteTag] *)
Definition handleDeleteTag (tagToDelete : string) (s : tag_state)
  : tag_state :=
  {| tags := filter (fun tag => tag <> tagToDelete) (tags s);
     newTag := newTag s |}.

(** [handleTagKeyDown]; [key] is [e.key]. *)
Definition handleTagKeyDown (key : string) (s : tag_state) : tag_state :=
  if String.eqb key "Enter" then handleAddTag s else s.

Inductive action : Type :=
| Type_ (text : string)          (* the input field changes *)
| Add
| Delete (tag : string)
| KeyDown (key : string).

Definition perform (a : action) (s : tag_state) : tag_state :=
  match a with
  | Type_ text => {| tags := tags s; newTag := text |}
  | Add => handleAddTag s
  | Delete tag => handleDeleteTag tag s
  | KeyDown key => handleTagKeyDown key s
  end.

End Handlers.

Definition is_space (a : ascii) : bool :=
  let n := nat_of_ascii a in
  (n =? 32)%nat || ((9 <=? n)%nat && (n <=? 13)%nat).

Fixpoint trim_left (s : string) : string :=
  match s with
  | String a s' => if is_space a then trim_left s' else s
  | EmptyString => EmptyString
  end.

Fixpoint trim_right (s : string) : string :=
  match s with
  | String a s' =>
      match trim_right s' with
      | EmptyString => if is_space a then EmptyString
                       else String a EmptyString
      | r => String a r
      end
  | EmptyString => EmptyString
  end.

(** [trim] on texts whose white space is ASCII. *)
Definition trim_ascii (s : string) : string := trim_right (trim_left s).

End Tags.

(** ** Migration of local learning paths (services/api.js) *)

Module Migration.
Import Js JsObject History.

(** The clock and the random texts consulted for one path:
    [Date.now()] and [Math.random().toString(36).substring(2, 10)],
    twice. *)
Record entropy : Type := {
  timestamp : Z;
  randomPart1 : string;
  randomPart2 : string
}.

Section Process.

(** How numbers print, see [JsObject.toString]. *)
Variable number_text : Z -> string.

(** The identifier for a path without one; [id] is the [id] of the
    path when that is truthy. [String(id)] can throw. *)
Definition generated_id (en : entropy) (id : jsval) : res string :=
  match id with
  | Some j =>
      match toString number_text j with
      | Throw e => Throw e
      | Ok text =>
          if includes text "-" then Ok text
          else Ok (number_text (timestamp en) ++ "-" ++ randomPart1 en
                   ++ "-" ++ text)
      end
  | None =>
      Ok (number_text (timestamp en) ++ "-" ++ randomPart1 en ++ "-"
          ++ randomPart2 en)
  end.

(** The function mapped over the paths. *)
Definition processPath (en : entropy) (path : json) : res json :=
  let p0 := spread path in
  match
    (if negb (truthy (assoc "path_id" p0)) then
       match generated_id en (if truthy (assoc "id" p0)
                              then assoc "id" p0 else None) with
       | Throw e => Throw e
       | Ok id => Ok (set_field "path_id" (JStr id) p0)
       end
     else Ok p0)
  with
  | Throw e => Throw e
  | Ok p1 =>
      let path_data := assoc "path_data" p1 in
      let p2 :=
        if negb (truthy (assoc "topic" p1)) && truthy path_data
           && truthy (prop path_data "topic") then
          with_field "topic" (prop path_data "topic") p1
        else if negb (truthy (assoc "topic" p1)) then
          set_field "topic" (JStr "Untitled Path") p1
        else p1 in
      let p3 :=
        if negb (truthy (assoc "path_data" p2))
        then set_field "path_data" (JObj (spread path)) p2 else p2 in
      let p4 :=
        if negb (truthy (assoc "tags" p3))
           || negb (isArray (assoc "tags" p3))
        then set_field "tags" (JArr []) p3 else p3 in
      let p5 :=
        if negb (truthy (assoc "source" p4))
        then set_field "source" (JStr "imported") p4 else p4 in
      Ok (JObj p5)
  end.

(** [learningPaths.map(path => ...)]; [en i] is what the clock and the
    random generator yield for the path at index [i]. The first
    exception ends the mapping. *)
Fixpoint processPaths (en : nat -> entropy) (paths : list json)
  : res (list json) :=
  match paths with
  | [] => Ok []
  | path :: rest =>
      match processPath (en 0%nat) path with
      | Throw e => Throw e
      | Ok p =>
          match processPaths (fun i => en (S i)) rest with
          | Throw e => Throw e
          | Ok ps => Ok (p :: ps)
          end
      end
  end.

End Process.

(** What the back end expects of a path: an identifier, a topic, the
    path data, a tag array and a source. *)
Definition migratable (p : json) : bool :=
  match p with
  | JObj fs =>
      truthy (assoc "path_id" fs) && truthy (assoc "topic" fs)
      && truthy (assoc "path_data" fs) && isArray (assoc "tags" fs)
      && truthy (assoc "source" fs)
  | _ => false
  end.

Definition normalised_fields : list string :=
  ["path_id"; "topic"; "path_data"; "tags"; "source"].

Section Migrate.
Context {L : Type}.
Variable number_text : Z -> string.
Variable local_getLocalHistory : L -> L * res json.

Notation "'do' x <- m ; k" := (bind m (fun x => k))
  (at level 10, x name, m at level 100, k at level 200).

Definition migrate_request (processed : list json) : http :=
  {| method := "POST"; path := "/learning-paths/migrate"; params := [];
     body := Some (object [("learning_paths", Some (JArr processed))]) |}.

(** [migrateLearningPaths(learningPaths)]; [en i] is what the clock
    and the random generator yield for the path at index [i]. *)
Definition migrateLearningPaths (learningPaths : jsval)
  (en : nat -> entropy) (rep : reply) : M L json :=
  do paths <-
    (if negb (truthy learningPaths) || negb (isArray learningPaths) then
       do localHistory <- on_local local_getLocalHistory;
       do entries <-
         lift (match localHistory with
               | JArr _ => Throw TypeError   (* its [entries] is the
                                                built-in method, which
                                                has no [map] *)
               | _ => get localHistory "entries"
               end);
       ret (or_else entries (JArr []))
     else ret learningPaths);
  do items <- lift (match paths with
                    | Some (JArr items) => Ok items
                    | _ => Throw TypeError
                    end);
  do processedPaths <- lift (processPaths number_text en items);
  request (migrate_request processedPaths) rep.

End Migrate.

End Migration.

(** ** Exchange of API keys for tokens (services/api.js) *)

Module ApiKeys.
Import Js JsObject History.

(** sessionStorage and the requests sent. *)
Record state : Type := {
  session : gmap string string;
  sent : list http
}.

Section Authenticate.

(** [error.message] of a caught exception, absent or empty when it has
    none. *)
Variable message_of : error -> option string.

(** How numbers print, see [JsObject.toString]. *)
Variable number_text : Z -> string.

Definition failed_to_authenticate : string :=
  "Failed to authenticate API keys. Please try again.".

Definition keys_request (googleKey pplxKey : jsval) : http :=
  {| method := "POST"; path := "/auth/api-keys"; params := [];
     body := Some (object [("google_api_key", googleKey);
                           ("pplx_api_key", pplxKey)]) |}.

(** The body of the try block once the response has arrived. *)
Definition on_response (remember : bool) (fails_at : option nat)
  (data : json) (st : gmap string string)
  : gmap string string * res json :=
  match get data "google_key_token" with
  | Throw e => (st, Throw e)            (* destructuring null *)
  | Ok google_key_token =>
      let field k := match get data k with Ok v => v | Throw _ => None end in
      let pplx_key_token := field "pplx_key_token" in
      let st' :=
        if remember && (truthy google_key_token || truthy pplx_key_token)
        then (Credentials.call
                (Credentials.saveApiTokens number_text fails_at
                   google_key_token pplx_key_token true) st).1
        else st in
      (st', Ok (object [("googleKeyToken", google_key_token);
                        ("pplxKeyToken", pplx_key_token);
                        ("googleKeyValid", field "google_key_valid");
                        ("pplxKeyValid", field "pplx_key_valid");
                        ("googleKeyError", field "google_key_error");
                        ("pplxKeyError", field "pplx_key_error")]))
  end.

(** [authenticateApiKeys(googleKey, pplxKey, remember)]; [outcome] is
    what the awaited request comes back with. *)
Definition authenticateApiKeys (googleKey pplxKey : jsval)
  (remember : bool) (fails_at : option nat) (outcome : res json)
  (s : state) : state * res json :=
  let sent' := (sent s ++ [keys_request googleKey pplxKey])%list in
  let rethrow e :=
    Throw (Error (default failed_to_authenticate (given (message_of e)))) in
  match outcome with
  | Throw e => ({| session := session s; sent := sent' |}, rethrow e)
  | Ok data =>
      match on_response remember fails_at data (session s) with
      | (st, Ok r) => ({| session := st; sent := sent' |}, Ok r)
      | (st, Throw e) => ({| session := st; sent := sent' |}, rethrow e)
      end
  end.

End Authenticate.

End ApiKeys.

(** ** Retrieval of a generated path (services/api.js) *)

Module Tasks.
Import Js JsObject.

(** What [getLearningPath] ends with: the data, the error it builds
    for a failed task (message, details, type), or an exception passed
    on unchanged. *)
Inductive outcome : Type :=
| Returns (data : json)
| ThrowsFailure (message : string) (details type : jsval)
| Rethrows (e : error).

Definition generation_failed : string :=
  "The learning path generation failed. Please try again.".

(** [a === 'text'] *)
Definition is_text (a : jsval) (t : string) : bool :=
  strict_eq a (Some (JStr t)).

(** [x] when it is truthy, else [undefined]: what an [if (x) e.f = x]
    leaves in [e.f]. *)
Definition when_truthy (x : jsval) : jsval :=
  if truthy x then x else None.

(** [getLearningPath(taskId)] after the request has come back with
    [response]; [number_text] is how numbers print, see
    [JsObject.toString]. [new Error(message)] converts the message to a
    string, which can throw. *)
Definition getLearningPath (number_text : Z -> string)
  (response : res json) : outcome :=
  match response with
  | Throw e => Rethrows e
  | Ok data =>
      match get data "status" with
      | Throw e => Rethrows e
      | Ok status =>
          let error := prop (Some data) "error" in
          if is_text status "failed" && truthy error then
            let message := prop error "message" in
            match (if truthy message then toString_val number_text message
                   else Ok generation_failed) with
            | Throw e => Rethrows e
            | Ok text =>
                ThrowsFailure text
                  (when_truthy (prop error "details"))
                  (when_truthy (prop error "type"))
            end
          else if is_text status "completed" then
            let learning_path := prop (Some data) "learning_path" in
            if truthy learning_path
               && negb (truthy (prop (Some data) "result"))
            then Returns (JObj (with_field "result" learning_path
                                           (spread data)))
            else Returns data
          else Returns data
      end
  end.

End Tasks.

(** ** Starting a generation, earlier version (frontend/src/services/api.js) *)

Module LegacyGenerate.
Import Js JsObject History.

Record options : Type := {
  parallelCount : jsval;
  searchParallelCount : jsval;
  submoduleParallelCount : jsval;
  desiredModuleCount : jsval;
  desiredSubmoduleCount : jsval;
  openaiApiKey : jsval;
  tavilyApiKey : jsval
}.

(** A destructuring default: it replaces [undefined] only. *)
Definition defaulted (x : jsval) (d : json) : json :=
  match x with
  | Some j => j
  | None => d
  end.

Definition keys_required : error :=
  Error "Both OpenAI and Tavily API keys are required".
Definition keys_empty : error := Error "API keys cannot be empty".

Section Generate.

(** [String.prototype.trim] *)
Variable trim : string -> string.

(** [if (desiredCount !== null) requestData.name = desiredCount] *)
Definition optional (name : string) (count : json)
  : list (string * jsval) :=
  match count with
  | JNull => []
  | _ => [(name, Some count)]
  end.

Definition generate_request (topic : jsval) (o : options)
  (openai tavily : string) : http :=
  {| method := "POST"; path := "/generate-learning-path"; params := [];
     body := Some (object
       ([("topic", topic);
         ("parallel_count", Some (defaulted (parallelCount o) (JNum 2)));
         ("search_parallel_count",
          Some (defaulted (searchParallelCount o) (JNum 3)));
         ("submodule_parallel_count",
          Some (defaulted (submoduleParallelCount o) (JNum 2)));
         ("openai_api_key", Some (JStr openai));
         ("tavily_api_key", Some (JStr tavily))]
        ++ optional "desired_module_count"
                    (defaulted (desiredModuleCount o) JNull)
        ++ optional "desired_submodule_count"
                    (defaulted (desiredSubmoduleCount o) JNull))%list) |}.

(** The two keys after the saved ones have been consulted;
    [saved] is the result of [getSavedApiKeys()]. *)
Definition final_keys (o : options)
  (saved : option string * option string * bool) : jsval * jsval :=
  let finalOpenaiKey := Some (defaulted (openaiApiKey o) JNull) in
  let finalTavilyKey := Some (defaulted (tavilyApiKey o) JNull) in
  if negb (truthy finalOpenaiKey) || negb (truthy finalTavilyKey) then
    let stored x := match x with Some t => Some (JStr t) | None => None end in
    (if negb (truthy finalOpenaiKey) && truthy (stored saved.1.1)
     then stored saved.1.1 else finalOpenaiKey,
     if negb (truthy finalTavilyKey) && truthy (stored saved.1.2)
     then stored saved.1.2 else finalTavilyKey)
  else (finalOpenaiKey, finalTavilyKey).

(** [generateLearningPath(topic, options)]; [fails_at] is for the read
    of the saved keys, [response] what the awaited request comes back
    with. *)
Definition generateLearningPath (topic : jsval) (o : options)
  (fails_at : option nat) (response : res json) (s : ApiKeys.state)
  : ApiKeys.state * res json :=
  let needs_saved :=
    negb (truthy (Some (defaulted (openaiApiKey o) JNull)))
    || negb (truthy (Some (defaulted (tavilyApiKey o) JNull))) in
  let saved :=
    if needs_saved
    then match (Credentials.call (Credentials.getSavedApiKeys fails_at)
                                 (ApiKeys.session s)).2 with
         | Ok r => r
         | Throw _ => (None, None, false)
         end
    else (None, None, false) in
  let '(finalOpenaiKey, finalTavilyKey) := final_keys o saved in
  if negb (truthy finalOpenaiKey) || negb (truthy finalTavilyKey)
  then (s, Throw keys_required)
  else
    match string_method finalOpenaiKey trim with
    | Throw e => (s, Throw e)
    | Ok openai =>
        match string_method finalTavilyKey trim with
        | Throw e => (s, Throw e)
        | Ok tavily =>
            if String.eqb openai "" || String.eqb tavily ""
            then (s, Throw keys_empty)
            else
              ({| ApiKeys.session := ApiKeys.session s;
                  ApiKeys.sent :=
                    (ApiKeys.sent s
                     ++ [generate_request topic o openai tavily])%list |},
               response)
        end
    end.

End Generate.

End LegacyGenerate.

(** ** Further vocabulary for the auth session *)

Module AuthSpec2.
Import Js AuthSession.

(** How many outcomes of a refresh call arrive in a run. *)
Definition outcomes (evs : list event) : nat :=
  length (List.filter (fun ev => match ev with
                                 | RefreshResolved _ _ | RefreshRejected =>
                                     true
                                 | Resp401 _ | ReplayRejected _ => false
                                 end) evs).

(** The requests that have been replayed. *)
Definition replayed (l : list net_call) : list request :=
  omap (fun c => match c with
                 | Replay r _ => Some r
                 | PostRefresh => None
                 end) l.

(** A refresh is in flight: the flag is up and one call is awaited. *)
Definition refreshing (s : state) : Prop :=
  isRefreshingToken s = true /\ exists r, awaiting s = [r].

End AuthSpec2.

(** ** Tactics *)

(** Case analysis on the innermost scrutinee first, so that the handlers,
    once unfolded, are explored branch by branch. *)
Ltac break1 :=
  match goal with
  | |- context [match ?x with _ => _ end] =>
      lazymatch x with
      | context [match _ with _ => _ end] => fail
      | _ => destruct x eqn:?
      end
  end.
Ltac break := repeat (simpl in *; break1); simpl in *.

Ltac unfold_handlers :=
  unfold ProgressStream.onmessage, ProgressStream.onerror,
    ProgressStream.onopen, ProgressStream.connect, ProgressStream.close,
    ProgressStream.eventSource_close, ProgressStream.close_source,
    ProgressStream.new_EventSource, ProgressStream.setTimeout_connect,
    ProgressStream.set_retryCount, ProgressStream.get_retryCount,
    ProgressStream.invoke, ProgressStream.try_catch, ProgressStream.bind,
    ProgressStream.lift, ProgressStream.ret, ProgressStream.pop_timer in *.

Ltac unfold_legacy :=
  unfold LegacyStream.onmessage, LegacyStream.onerror,
    LegacyStream.getProgressUpdates, ProgressStream.close,
    ProgressStream.eventSource_close, ProgressStream.close_source,
    ProgressStream.new_EventSource, ProgressStream.invoke,
    ProgressStream.try_catch, ProgressStream.bind, ProgressStream.lift,
    ProgressStream.ret, ProgressStream.initial in *.

Ltac unfold_facade :=
  unfold History.saveToHistory, History.updateHistoryEntry,
    History.deleteHistoryEntry, History.getHistoryPreview, History.has_token,
    History.clearAuthToken, History.request, History.on_local,
    History.getItem, History.setItem, History.try_catch, History.bind,
    History.lift, History.ret, History.throw in *.

Ltac unfold_more :=
  unfold HistoryMore.getHistoryEntry, HistoryMore.importLearningPath,
    HistoryMore.exportHistory, History.has_token,
    History.clearAuthToken, History.request, History.on_local,
    History.try_catch, History.bind,
    History.lift, History.ret, History.throw in *.

Ltac unfold_store :=
  unfold Credentials.call, Credentials.saveApiTokens,
    Credentials.getSavedApiTokens, Credentials.clearSavedApiTokens,
    Credentials.saveApiKeys, Credentials.getSavedApiKeys,
    Credentials.clearSavedApiKeys, Credentials.save, Credentials.getSaved,
    Credentials.clearSaved, Credentials.setItem, Credentials.removeItem,
    Credentials.getItem, Credentials.operation, Credentials.try_catch,
    Credentials.bind, Credentials.ret in *.

(** * Proofs *)

Local Open Scope list_scope.

(** ** The progress stream *)

Section StreamFacts.
Import Js ProgressStream StreamSpec.
Context {U : Type} (cbs : callbacks U).


Lemma count_app kind l1 l2 :
  count kind (l1 ++ l2) = (count kind l1 + count kind l2)%nat.
Proof. unfold count. by rewrite List.filter_app, length_app. Qed.

Lemma filter_ne_singleton (c : nat) : filter (fun c' => c' <> c) [c] = [].
Proof. rewrite filter_cons, filter_nil. by destruct (decide (c <> c)). Qed.

Lemma state_eta (s : state U) :
  {| retryCount := retryCount s; eventSource := eventSource s;
     created := created s; live := live s; timers := timers s;
     calls := calls s; client := client s |} = s.
Proof. by destruct s. Qed.

Lemma wf_initial (u : U) : wf (initial u).
Proof. unfold wf, MAX_RETRIES; simpl. split; [lia | left; auto]. Qed.

Lemma wf_connect ctor (s : state U) :
  (retryCount s <= MAX_RETRIES)%nat -> live s = [] -> timers s = [] ->
  wf (fst (connect cbs ctor s)).
Proof.
  intros Hr Hl Ht. unfold wf. unfold_handlers.
  break; rewrite ?Hl; simpl; eauto 10.
Qed.

Lemma wf_getProgressUpdates taskId ctor (u : U) :
  wf (fst (getProgressUpdates cbs taskId ctor u)).
Proof. apply wf_connect; simpl; auto. unfold MAX_RETRIES; lia. Qed.

Lemma onmessage_service payload (s : state U) :
  let s' := fst (onmessage cbs payload s) in
  timers s' = timers s /\ eventSource s' = eventSource s /\
  created s' = created s /\
  (retryCount s' = retryCount s \/ retryCount s' = 0%nat) /\
  (live s' = live s \/
   exists c, eventSource s = Some c /\
             live s' = filter (fun c' => c' <> c) (live s)).
Proof. unfold_handlers. break; eauto 10. Qed.

Lemma onerror_service (s : state U) c :
  eventSource s = Some c ->
  let s' := fst (onerror cbs s) in
  eventSource s' = Some c /\ created s' = created s /\
  live s' = filter (fun c' => c' <> c) (live s) /\
  if (retryCount s <? MAX_RETRIES)%nat then
    retryCount s' = S (retryCount s) /\
    timers s' = (timers s ++ [1000%nat])%list /\
    calls s' = calls s /\ client s' = client s
  else
    retryCount s' = retryCount s /\ timers s' = timers s /\
    calls s' = (calls s ++ match onError cbs with
                          | Some _ => [OnError lost_connection]
                          | None => []
                          end)%list.
Proof.
  intros He. unfold_handlers. rewrite He. simpl.
  destruct (retryCount s <? MAX_RETRIES)%nat eqn:Hlt; simpl.
  - repeat split; auto. lia.
  - break; rewrite ?app_nil_r; repeat split; auto.
Qed.

Lemma wf_dispatch ev (s : state U) : wf s -> wf (dispatch cbs ev s).
Proof.
  intros [Hr Hs]. destruct ev as [c|c payload|c| ctor |]; simpl.
  - destruct (decide (c ∈ live s)); [|by split].
    unfold wf, onopen, set_retryCount; simpl. split; [lia | done].
  - destruct (decide (c ∈ live s)) as [Hin|]; [|by split].
    destruct (onmessage_service payload s) as (Ht & He & _ & Hrc & Hl).
    unfold wf. rewrite Ht, He. split; [destruct Hrc as [->| ->]; lia|].
    destruct Hs as [[Hn _]|(c0 & Hl0 & He0 & Ht0)].
    { rewrite Hn in Hin. by apply elem_of_nil in Hin. }
    destruct Hl as [->|(c1 & He1 & ->)]; [right; eauto|].
    left. rewrite Hl0, Ht0. rewrite He0 in He1. injection He1 as <-.
    rewrite filter_ne_singleton. auto.
  - destruct (decide (c ∈ live s)) as [Hin|]; [|by split].
    destruct Hs as [[Hn _]|(c0 & Hl0 & He0 & Ht0)].
    { rewrite Hn in Hin. by apply elem_of_nil in Hin. }
    destruct (onerror_service s c0 He0) as (He & _ & Hl & Hrest).
    unfold wf. rewrite Hl, Hl0, filter_ne_singleton.
    destruct (retryCount s <? MAX_RETRIES)%nat eqn:Hlt.
    + destruct Hrest as (-> & -> & _). rewrite Ht0. simpl.
      apply Nat.ltb_lt in Hlt. split; [lia | left; auto].
    + destruct Hrest as (-> & -> & _). rewrite Ht0. split; [lia | left; auto].
  - destruct (timers s) as [|t ts] eqn:Ht; [split; [done|]; by rewrite Ht|].
    destruct Hs as [[Hn [Hts|Hts]]|(c0 & Hl0 & He0 & Ht0)]; try congruence.
    apply wf_connect; simpl; auto. rewrite Ht. by injection Hts as _ ->.
  - unfold wf. unfold_handlers.
    destruct (eventSource s) as [c|] eqn:He; simpl;
      [|split; [done|]; by rewrite He].
    split; [done|].
    destruct Hs as [[Hn Hts]|(c0 & Hl0 & He0 & Ht0)].
    + left. rewrite Hn, filter_nil. auto.
    + left. rewrite Hl0, Ht0. injection He0 as ->. rewrite filter_ne_singleton. auto.
Qed.

Lemma wf_steps evs (s : state U) : wf s -> wf (steps cbs evs s).
Proof.
  revert s. induction evs as [|ev evs IH]; intros s Hs; [done|].
  simpl. apply IH. by apply wf_dispatch.
Qed.

Lemma steps_app evs1 evs2 (s : state U) :
  steps cbs (evs1 ++ evs2) s = steps cbs evs2 (steps cbs evs1 s).
Proof. unfold steps. by rewrite foldl_app. Qed.

(** A quiescent client stays as it is, whatever arrives. *)
Lemma quiescent_dispatch ev (s : state U) :
  quiescent s -> dispatch cbs ev s = s.
Proof.
  intros [Hl Ht]. destruct ev; simpl; rewrite ?Hl, ?Ht; auto.
  unfold_handlers. destruct s as [rc es cr lv tm cl u]; simpl in *.
  subst. by destruct es.
Qed.

Lemma quiescent_steps evs (s : state U) :
  quiescent s -> steps cbs evs s = s.
Proof.
  intros Hq. induction evs as [|ev evs IH]; [done|].
  simpl. by rewrite quiescent_dispatch.
Qed.

Lemma live_cases (s : state U) c :
  wf s -> c ∈ live s ->
  live s = [c] /\ eventSource s = Some c /\ timers s = [].
Proof.
  intros [_ [[Hn _]|(c0 & Hl & He & Ht)]] Hin.
  - rewrite Hn in Hin. by apply elem_of_nil in Hin.
  - rewrite Hl in Hin. apply list_elem_of_singleton in Hin. by subst.
Qed.

Lemma count_snoc kind l (c : call) :
  count kind (l ++ [c]) = (count kind l + if kind c then 1 else 0)%nat.
Proof. rewrite count_app. unfold count; simpl. by destruct (kind c). Qed.

(** [onComplete] is only ever invoked on the way into quiescence. *)
Lemma dispatch_completions ev (s : state U) :
  wf s ->
  let s' := dispatch cbs ev s in
  count is_complete (calls s') = count is_complete (calls s) \/
  quiescent s'.
Proof.
  intros Hwf. destruct ev as [c|c payload|c| ctor |]; simpl.
  - destruct (decide (c ∈ live s)); auto.
  - destruct (decide (c ∈ live s)) as [Hin|]; auto.
    destruct (live_cases s c Hwf Hin) as (Hl & He & Ht).
    unfold quiescent. unfold_handlers.
    break; rewrite ?count_snoc, ?He, ?Hl, ?Ht in *; simpl;
      rewrite ?filter_ne_singleton, ?Nat.add_0_r; auto; try congruence.
    all: right; split; auto; simplify_eq; apply filter_ne_singleton.
  - destruct (decide (c ∈ live s)) as [Hin|]; auto.
    destruct (live_cases s c Hwf Hin) as (Hl & He & Ht).
    left. unfold_handlers.
    break; rewrite ?count_snoc; simpl; rewrite ?Nat.add_0_r; auto;
      congruence.
  - destruct (timers s); auto. left. unfold_handlers.
    break; rewrite ?count_snoc; simpl; rewrite ?Nat.add_0_r; auto.
  - left. unfold_handlers. break; auto.
Qed.

Lemma steps_completions evs (s : state U) :
  wf s ->
  count is_complete (calls s) = 0%nat \/ quiescent s ->
  let s' := steps cbs evs s in
  count is_complete (calls s') = 0%nat \/ quiescent s'.
Proof.
  revert s. induction evs as [|ev evs IH]; intros s Hwf Hs; [done|].
  simpl. apply IH; [by apply wf_dispatch|].
  destruct Hs as [H0|Hq]; [|by rewrite quiescent_dispatch; auto].
  destruct (dispatch_completions ev s Hwf) as [->|]; auto.
Qed.

Lemma stream_complete_is_final taskId ctor (u : U) :
  complete_is_final cbs (getProgressUpdates cbs taskId ctor u).1
                    (dispatch cbs).
Proof.
  intros evs c data evs' s Hin Hget s1.
  assert (Hwf : wf s) by apply wf_steps, wf_getProgressUpdates.
  assert (H0 : count is_complete (calls s) = 0%nat).
  { destruct (steps_completions evs _ (wf_getProgressUpdates taskId ctor u))
      as [H|[Hq _]]; auto.
    - left. unfold getProgressUpdates. unfold_handlers. break; auto.
    - unfold steps in Hq. unfold s in Hin. rewrite Hq in Hin.
      by apply elem_of_nil in Hin. }
  destruct (live_cases s c Hwf Hin) as (Hl & He & Ht).
  assert (Hs1 : count is_complete (calls s1)
                = match onComplete cbs with Some _ => 1%nat | None => 0%nat end /\
                count is_message (calls s1) = count is_message (calls s) /\
                quiescent s1).
  { subst s1. simpl. rewrite decide_True by done. unfold quiescent.
    unfold_handlers. rewrite Hget. simpl. rewrite He. simpl.
    rewrite Hl, filter_ne_singleton.
    break; rewrite ?count_snoc, ?H0; simpl; rewrite ?Nat.add_0_r; auto. }
  destruct Hs1 as (Hc & Hm & Hq). repeat split; auto; try apply Hq.
  apply (quiescent_steps evs' s1 Hq).
Qed.

End StreamFacts.

(** ** The earlier stream client *)

Section LegacyFacts.
Import Js ProgressStream StreamSpec.
Context {U : Type} (cbs : callbacks U).


Lemma legacy_wf_start taskId ctor (u : U) :
  wf (LegacyStream.getProgressUpdates cbs taskId ctor u).1 /\
  timers (LegacyStream.getProgressUpdates cbs taskId ctor u).1 = [] /\
  count is_complete
    (calls (LegacyStream.getProgressUpdates cbs taskId ctor u).1) = 0%nat.
Proof.
  unfold wf, MAX_RETRIES. unfold_legacy.
  break; repeat split; eauto 10; lia.
Qed.

Lemma legacy_dispatch ev (s : state U) :
  wf s -> timers s = [] ->
  let s' := LegacyStream.dispatch cbs ev s in
  wf s' /\ timers s' = [] /\
  (count is_complete (calls s') = count is_complete (calls s) \/
   quiescent s').
Proof.
  intros Hwf Ht. destruct ev as [c|c payload|c| ctor |]; simpl; auto.
  - destruct (decide (c ∈ live s)) as [Hin|]; auto.
    destruct (live_cases s c Hwf Hin) as (Hl & He & _).
    destruct Hwf as [Hr _]. unfold wf, quiescent. unfold_legacy.
    break; rewrite ?count_snoc, ?He, ?Hl, ?Ht in *; simpl;
      rewrite ?filter_ne_singleton, ?Nat.add_0_r; simplify_eq;
      rewrite ?filter_ne_singleton; eauto 10.
  - destruct (decide (c ∈ live s)) as [Hin|]; auto.
    destruct (live_cases s c Hwf Hin) as (Hl & He & _).
    destruct Hwf as [Hr _]. unfold wf, quiescent. unfold_legacy.
    break; rewrite ?count_snoc, ?He, ?Hl, ?Ht in *; simpl;
      rewrite ?filter_ne_singleton, ?Nat.add_0_r; simplify_eq;
      rewrite ?filter_ne_singleton; eauto 10.
  - pose proof (wf_dispatch cbs EvClose s Hwf) as Hwf'. simpl in Hwf'.
    split; [done|]. unfold_legacy. break; auto.
Qed.

Lemma legacy_quiescent_dispatch ev (s : state U) :
  quiescent s -> LegacyStream.dispatch cbs ev s = s.
Proof.
  intros Hq. destruct ev; try done.
  - simpl. destruct Hq as [-> _]. done.
  - simpl. destruct Hq as [-> _]. done.
  - apply (quiescent_dispatch cbs EvClose s Hq).
Qed.

Lemma legacy_quiescent_steps evs (s : state U) :
  quiescent s -> LegacyStream.steps cbs evs s = s.
Proof.
  intros Hq. induction evs as [|ev evs IH]; [done|].
  simpl. by rewrite legacy_quiescent_dispatch.
Qed.

Lemma legacy_steps evs (s : state U) :
  wf s -> timers s = [] ->
  count is_complete (calls s) = 0%nat \/ quiescent s ->
  let s' := LegacyStream.steps cbs evs s in
  wf s' /\ timers s' = [] /\
  (count is_complete (calls s') = 0%nat \/ quiescent s').
Proof.
  revert s. induction evs as [|ev evs IH]; intros s Hwf Ht Hs; [done|].
  simpl. destruct (legacy_dispatch ev s Hwf Ht) as (Hwf' & Ht' & Hc).
  apply IH; auto.
  destruct Hs as [H0|Hq]; [|by rewrite legacy_quiescent_dispatch; auto].
  destruct Hc as [->|]; auto.
Qed.

Lemma legacy_complete_is_final taskId ctor (u : U) :
  complete_is_final cbs (LegacyStream.getProgressUpdates cbs taskId ctor u).1
                    (LegacyStream.dispatch cbs).
Proof.
  intros evs c data evs' s Hin Hget s1.
  destruct (legacy_wf_start taskId ctor u) as (Hw0 & Ht0 & Hc0).
  destruct (legacy_steps evs _ Hw0 Ht0 (or_introl Hc0)) as (Hwf & Ht & Hc).
  change (LegacyStream.steps cbs evs
            (LegacyStream.getProgressUpdates cbs taskId ctor u).1)
    with s in Hwf, Ht, Hc.
  assert (H0 : count is_complete (calls s) = 0%nat).
  { destruct Hc as [|[Hq _]]; auto.
    rewrite Hq in Hin. by apply elem_of_nil in Hin. }
  destruct (live_cases s c Hwf Hin) as (Hl & He & _).
  assert (Hs1 : count is_complete (calls s1)
                = match onComplete cbs with Some _ => 1%nat | None => 0%nat end /\
                count is_message (calls s1) = count is_message (calls s) /\
                quiescent s1).
  { subst s1. simpl. rewrite decide_True by done. unfold quiescent.
    unfold_legacy. rewrite Hget. simpl. rewrite He. simpl.
    rewrite Hl, filter_ne_singleton.
    break; rewrite ?count_snoc, ?H0; simpl; rewrite ?Nat.add_0_r; auto. }
  destruct Hs1 as (Hc1 & Hm & Hq). repeat split; auto; try apply Hq.
  apply (legacy_quiescent_steps evs' s1 Hq).
Qed.

End LegacyFacts.

(** ** The claims about the progress stream *)

Section StreamClaims.
Import Js ProgressStream StreamSpec.
Context {U : Type} (cbs : callbacks U).


(** One transport failure followed by a successful reconnect. *)
Lemma fail_and_reconnect (s : state U) c :
  live s = [c] -> eventSource s = Some c -> timers s = [] ->
  (retryCount s < MAX_RETRIES)%nat ->
  let s' := steps cbs [EvError c; EvTimer None] s in
  live s' = [created s] /\ eventSource s' = Some (created s) /\
  timers s' = [] /\ retryCount s' = S (retryCount s) /\
  calls s' = calls s /\ created s' = S (created s).
Proof.
  intros Hl He Ht Hr. unfold steps. cbn [foldl dispatch].
  rewrite decide_True by (rewrite Hl; by apply list_elem_of_singleton).
  destruct (onerror_service cbs s c He) as (He' & Hc' & Hl' & Hrest).
  apply Nat.ltb_lt in Hr. rewrite Hr in Hrest.
  destruct Hrest as (Hr' & Ht' & Hcalls & _).
  rewrite Ht', Ht. cbn [app].
  rewrite Ht in Ht'. remember (onerror cbs s).1 as s1 eqn:Hs1. clear Hs1.
  unfold connect, new_EventSource, try_catch, pop_timer. simpl.
  rewrite Hl', Hl, filter_ne_singleton, Hc', Ht'. simpl.
  repeat split; congruence.
Qed.

Lemma failures_run k : forall (s : state U) c,
  live s = [c] -> eventSource s = Some c -> timers s = [] ->
  (retryCount s + k <= MAX_RETRIES)%nat ->
  let sk := steps cbs (failures c (created s) k) s in
  let ck := match k with O => c | S k' => (created s + k')%nat end in
  (live sk = [ck] /\ eventSource sk = Some ck) /\
  timers sk = [] /\ retryCount sk = (retryCount s + k)%nat /\
  calls sk = calls s /\ created sk = (created s + k)%nat.
Proof.
  induction k as [|k IH]; intros s c Hl He Ht Hr.
  - simpl. repeat split; eauto; lia.
  - destruct (fail_and_reconnect s c Hl He Ht) as (Hl1 & He1 & Ht1 & Hr1 & Hc1 & Hn1);
      [lia|].
    cbn [failures]. change (?a :: ?b :: ?l) with ([a; b] ++ l).
    rewrite steps_app. set (s1 := steps cbs [EvError c; EvTimer None] s) in *.
    rewrite <- Hn1.
    destruct (IH s1 (created s) Hl1 He1 Ht1) as ((Hl2 & He2) & Ht2 & Hr2 & Hc2 & Hn2);
      [lia|].
    assert (Hck : match k with O => created s | S k' => (created s1 + k')%nat end
                  = (created s + k)%nat).
    { destruct k; [lia|]. rewrite Hn1. lia. }
    rewrite Hck in Hl2, He2.
    repeat split; auto; try congruence; lia.
Qed.

(** C1 (amended). For every run of the client opened by
    [getProgressUpdates] and every live source [c]: a connection open or
    an ordinary progress message resets the failure count to zero; while
    the count is below three a transport error invokes no callback and
    schedules one reconnect after 1000 ms; and counting from a reset, up
    to three failures in a row each lead to a reconnect, whereas the
    fourth failure in a row passes the lost-connection error to
    [onError] and leaves the client quiescent, so that no further
    attempt is made. *)
Theorem C1_terminal_error_on_fourth_failure taskId ctor (u : U) evs c :
  let s := steps cbs evs (getProgressUpdates cbs taskId ctor u).1 in
  c ∈ live s ->
  retryCount (dispatch cbs (EvOpen c) s) = 0%nat /\
  (forall data t, progress_message data t ->
     retryCount (dispatch cbs (EvMessage c (Some data)) s) = 0%nat) /\
  ((retryCount s < MAX_RETRIES)%nat ->
     let s' := dispatch cbs (EvError c) s in
     timers s' = [1000%nat] /\ calls s' = calls s /\ live s' = []) /\
  (retryCount s = 0%nat ->
     (forall k, (k <= 3)%nat ->
        let sk := steps cbs (failures c (created s) k) s in
        calls sk = calls s /\ retryCount sk = k /\ timers sk = [] /\
        exists c', live sk = [c']) /\
     (let s4 := steps cbs (failures c (created s) 3
                             ++ [EvError (created s + 2)%nat]) s in
      calls s4 = calls s ++ reported cbs lost_connection /\
      quiescent s4 /\
      forall evs', steps cbs evs' s4 = s4)).
Proof.
  intros s Hin.
  assert (Hwf : wf s) by apply wf_steps, wf_getProgressUpdates.
  destruct (live_cases s c Hwf Hin) as (Hl & He & Ht).
  split; [|split; [|split]].
  - simpl. by rewrite decide_True.
  - intros data t ((v & Hv & Hf) & Hm & Hp). simpl.
    rewrite decide_True by done.
    unfold_handlers. rewrite Hv. simpl. rewrite Hf, Hm. simpl.
    destruct (negb (String.eqb t "")); simpl; rewrite ?Hp; break; auto.
  - intros Hr. simpl. rewrite decide_True by done.
    destruct (onerror_service cbs s c He) as (_ & _ & Hl' & Hrest).
    apply Nat.ltb_lt in Hr. rewrite Hr in Hrest.
    destruct Hrest as (_ & Ht' & Hc' & _).
    rewrite Ht', Ht, Hl', Hl, filter_ne_singleton. auto.
  - intros H0. split.
    + intros k Hk.
      destruct (failures_run k s c Hl He Ht) as ((Hlk & _) & Htk & Hrk & Hck & _).
      { rewrite H0. unfold MAX_RETRIES. lia. }
      rewrite H0 in Hrk. repeat split; eauto.
    + rewrite steps_app.
      destruct (failures_run 3 s c Hl He Ht) as ((Hl3 & He3) & Ht3 & Hr3 & Hc3 & _).
      { rewrite H0. unfold MAX_RETRIES. lia. }
      set (s3 := steps cbs (failures c (created s) 3) s) in *.
      simpl. rewrite decide_True by (rewrite Hl3; by apply list_elem_of_singleton).
      destruct (onerror_service cbs s3 _ He3) as (_ & _ & Hl' & Hrest).
      rewrite Hr3, H0 in Hrest. simpl in Hrest.
      destruct Hrest as (_ & Ht' & Hc').
      assert (Hq : quiescent (onerror cbs s3).1).
      { split; [by rewrite Hl', Hl3, filter_ne_singleton | by rewrite Ht'] . }
      split; [by rewrite Hc', Hc3|]. split; [done|].
      intros evs'. by apply quiescent_steps.
Qed.

(** C3. Both versions of the client treat a [{complete: true}] payload
    received on a live source as final: the source is closed,
    [onComplete] has then been invoked exactly once in the whole run,
    no [onMessage] is added, no timer is pending, and no later event,
    whatever source it is addressed to, changes the state or invokes a
    callback. *)
Theorem C3_complete_is_final taskId ctor (u : U) :
  complete_is_final cbs (getProgressUpdates cbs taskId ctor u).1
                    (dispatch cbs) /\
  complete_is_final cbs (LegacyStream.getProgressUpdates cbs taskId ctor u).1
                    (LegacyStream.dispatch cbs).
Proof.
  split; [apply stream_complete_is_final | apply legacy_complete_is_final].
Qed.

(** C4 (amended). After any run, [close()] does not throw, invokes no
    callback, closes the current source and is idempotent; called on a
    quiescent client (for instance after completion) it changes
    nothing; it leaves a pending retry timer pending; and when no retry
    timer is pending at the time of the call, nothing that arrives
    afterwards changes the state or invokes a callback. *)
Theorem C4_close_idempotent_final_without_timer taskId ctor (u : U) evs :
  let s := steps cbs evs (getProgressUpdates cbs taskId ctor u).1 in
  let s' := dispatch cbs EvClose s in
  (close s).2 = Ok tt /\
  dispatch cbs EvClose s' = s' /\
  calls s' = calls s /\ live s' = [] /\ timers s' = timers s /\
  (quiescent s -> s' = s) /\
  (timers s = [] -> forall evs', steps cbs evs' s' = s').
Proof.
  intros s s'.
  assert (Hwf : wf s) by apply wf_steps, wf_getProgressUpdates.
  assert (Hl : live s' = [] /\ timers s' = timers s /\ calls s' = calls s
               /\ eventSource s' = eventSource s).
  { subst s'. simpl. unfold_handlers.
    destruct Hwf as [_ [[Hn _]|(c0 & Hl0 & He0 & _)]].
    - destruct (eventSource s) eqn:E; simpl; rewrite ?Hn, ?filter_nil; auto.
    - rewrite He0. simpl. rewrite Hl0, filter_ne_singleton. auto. }
  destruct Hl as (Hl & Ht & Hc & He).
  split; [unfold close; by destruct (eventSource s)|].
  split.
  { generalize Hl. generalize s'. intros [rc es cr lv tm cl cu] Hlv.
    simpl in *. subst lv. unfold_handlers. simpl. by destruct es. }
  repeat split; auto.
  - intros Hq. by apply quiescent_dispatch.
  - intros Ht0 evs'. apply quiescent_steps. split; congruence.
Qed.

(** C10 (amended). Both versions of [getProgressUpdates] return a handle
    for every task identifier, every choice of callbacks and every
    outcome of the EventSource constructor, provided [onError], if
    supplied, returns normally when a failed construction is reported to
    it (an exception of the caller's own callback is not caught): nothing is
    thrown, [close()] never throws on the handle however the run
    continues, and a constructor failure is passed to [onError] (the
    fixed connect-failure error in the current version, the exception
    itself in the earlier one) and leaves a handle whose [close()] does
    nothing. *)
Theorem C10_getProgressUpdates_returns_handle taskId ctor (u : U) :
  (forall f e e', ctor = Some e -> onError cbs = Some f -> (f e' u).2 = None) ->
  returns_handle cbs ctor (fun _ => connect_failed) (dispatch cbs)
                 (getProgressUpdates cbs taskId ctor u) /\
  returns_handle cbs ctor (fun e => e) (LegacyStream.dispatch cbs)
                 (LegacyStream.getProgressUpdates cbs taskId ctor u).
Proof.
  intros Hquiet. split.
  - unfold returns_handle. split; [|split].
    + unfold getProgressUpdates. unfold_handlers. unfold initial.
      destruct ctor as [e|]; simpl; [|done].
      destruct (onError cbs) as [f|] eqn:Hf; simpl; [|done].
      specialize (Hquiet f e connect_failed eq_refl eq_refl). simpl in Hquiet.
      destruct (f connect_failed u) as [u' [x|]]; simpl in *; done.
    + intros evs. unfold close. by destruct (eventSource _).
    + intros e ->. unfold getProgressUpdates, reported, quiescent.
      unfold_handlers. unfold initial. simpl.
      destruct (onError cbs) as [f|]; simpl; [|done].
      by destruct (f connect_failed u).
  - unfold returns_handle. split; [|split].
    + unfold LegacyStream.getProgressUpdates. unfold_handlers. unfold initial.
      destruct ctor as [e|]; simpl; [|done].
      destruct (onError cbs) as [f|] eqn:Hf; simpl; [|done].
      specialize (Hquiet f e e eq_refl eq_refl). simpl in Hquiet.
      destruct (f e u) as [u' [x|]]; simpl in *; done.
    + intros evs. unfold close. by destruct (eventSource _).
    + intros e ->. unfold LegacyStream.getProgressUpdates, reported, quiescent.
      unfold_handlers. unfold initial. simpl.
      destruct (onError cbs) as [f|]; simpl; [|done].
      by destruct (f e u).
Qed.

End StreamClaims.

Section StreamInstances.
Import Js ProgressStream StreamSpec.

(** C1, the claim as stated, at a concrete run of the client with
    observing callbacks: after three transport failures in a row no error
    has been reported and a fourth attempt is scheduled; the same holds
    in the run fail, fail, message, fail, fail, fail, where the error is
    reported only at the fourth failure after the reset. *)
Lemma C1_third_failure_is_not_terminal :
  let three := [EvError 0; EvTimer None; EvError 1; EvTimer None; EvError 2] in
  let mixed := [EvError 0; EvTimer None; EvError 1; EvTimer None;
                EvMessage 2 (Some (text "Planned 4 submodules"));
                EvError 2; EvTimer None; EvError 3; EvTimer None;
                EvError 4] in
  (count is_error (calls (steps observers three start)) = 0%nat /\
   timers (steps observers three start) = [1000%nat]) /\
  (count is_error (calls (steps observers mixed start)) = 0%nat /\
   timers (steps observers mixed start) = [1000%nat] /\
   calls (steps observers (mixed ++ [EvTimer None; EvError 5]) start)
   = [OnMessage (text "Planned 4 submodules"); OnError lost_connection]).
Proof. vm_compute. auto. Qed.

Lemma C1_witness :
  0%nat ∈ live start /\ retryCount start = 0%nat /\
  let four := failures 0 1 3 ++ [EvError 3] in
  calls (steps observers four start) = [OnError lost_connection] /\
  quiescent (steps observers four start).
Proof.
  assert (Hin : 0%nat ∈ live start) by (vm_compute; left).
  destruct (C1_terminal_error_on_fourth_failure
              observers "task-1" None tt [] 0%nat Hin)
    as (_ & _ & _ & Hcount).
  destruct (Hcount eq_refl) as (_ & Hfour & Hq & _).
  split; [exact Hin|]. split; [reflexivity|]. split; [exact Hfour | exact Hq].
Defined.

Lemma C3_witness :
  let done := JObj [("complete", JBool true)] in
  let s1 := dispatch observers (EvMessage 0 (Some done)) start in
  0%nat ∈ live start /\ get done "complete" = Ok (Some (JBool true)) /\
  count is_complete (calls s1) = 1%nat /\
  steps observers [EvMessage 0 (Some (text "late")); EvError 0; EvTimer None] s1
  = s1.
Proof.
  assert (Hin : 0%nat ∈ live start) by (vm_compute; left).
  destruct (C3_complete_is_final observers "task-1" None tt) as [Hfinal _].
  destruct (Hfinal [] 0%nat (JObj [("complete", JBool true)])
              [EvMessage 0 (Some (text "late")); EvError 0; EvTimer None]
              Hin eq_refl) as (Hc & _ & _ & Hs).
  split; [exact Hin|]. split; [reflexivity|]. split; [exact Hc | exact Hs].
Defined.

(** C4, the claim as stated, fails: a close() issued while a reconnect
    timer is pending leaves the timer pending; when it expires a new
    source is opened and its messages reach [onMessage]. *)
Lemma C4_pending_retry_survives_close :
  let closed := steps observers [EvError 0; EvClose] start in
  let later := steps observers
                 [EvTimer None;
                  EvMessage 1 (Some (text "Planned 4 submodules"))] closed in
  timers closed = [1000%nat] /\ calls closed = [] /\
  live later = [1%nat] /\
  calls later = [OnMessage (text "Planned 4 submodules")] /\
  ~ close_is_final start (dispatch observers).
Proof.
  repeat split; try reflexivity.
  intros H.
  destruct (H [EvError 0]
              [EvTimer None; EvMessage 1 (Some (text "Planned 4 submodules"))])
    as [Ht _].
  vm_compute in Ht. discriminate Ht.
Qed.

Lemma C4_witness :
  let s' := dispatch observers EvClose start in
  timers start = [] /\
  steps observers [EvMessage 0 (Some (text "late")); EvError 0; EvTimer None] s'
  = s'.
Proof.
  pose proof (C4_close_idempotent_final_without_timer
                observers "task-1" None tt []) as H.
  destruct H as (_ & _ & _ & _ & _ & _ & Hfinal).
  split; [reflexivity|]. exact (Hfinal eq_refl _).
Defined.

(** C10, the claim as stated, at a concrete call: the EventSource
    constructor fails and the [onError] that the caller supplied throws
    when the failure is reported to it. Neither version returns a
    handle: the exception of [onError] leaves [getProgressUpdates]. *)
Lemma C10_throwing_onError_escapes :
  let cbs : callbacks unit :=
    {| onMessage := None;
       onError := Some (fun _ u => (u, Some (Error "boom")));
       onComplete := None |} in
  let failing := Some (Error "EventSource is not defined") in
  (getProgressUpdates cbs "task-1" failing tt).2 = Throw (Error "boom") /\
  (LegacyStream.getProgressUpdates cbs "task-1" failing tt).2
  = Throw (Error "boom").
Proof. vm_compute. auto. Qed.

Lemma C10_witness :
  (forall f e e', Some SyntaxError = Some e -> onError observers = Some f ->
                  (f e' tt).2 = None) /\
  returns_handle observers (Some SyntaxError) (fun _ => connect_failed)
                 (dispatch observers)
                 (getProgressUpdates observers "task-1" (Some SyntaxError) tt).
Proof.
  assert (Hquiet : forall f (e e' : error),
             Some SyntaxError = Some e -> onError observers = Some f ->
             (f e' tt).2 = None).
  { intros f e e' _ Hf. injection Hf as <-. reflexivity. }
  split; [exact Hquiet|].
  exact (proj1 (C10_getProgressUpdates_returns_handle
                  observers "task-1" (Some SyntaxError) tt Hquiet)).
Defined.

End StreamInstances.

(** ** The generator page *)

Section PageFacts.
Import Js ProgressStream StreamSpec GeneratorPage PageSpec.


(** A property of the client state that every callback preserves holds
    throughout the run; [onMessage] only needs to preserve it for
    deliverable payloads. *)
Lemma dispatch_client_inv {U} (cbs : callbacks U) (P : U -> Prop) :
  (forall f data u, ProgressStream.onMessage cbs = Some f ->
                    deliverable data -> P u -> P (f data u).1) ->
  (forall f e u, ProgressStream.onError cbs = Some f -> P u -> P (f e u).1) ->
  (forall f x u, onComplete cbs = Some f -> P u -> P (f x u).1) ->
  forall ev s, P (client s) -> P (client (dispatch cbs ev s)).
Proof.
  intros HM HE HC ev s HP.
  assert (Hdel : forall d m, get d "message" = Ok m ->
                   truthy m = false \/ (exists t, m = Some (JStr t)) ->
                   deliverable d) by (intros d m ? ?; exists m; auto).
  destruct ev as [c|c payload|c| ctor |]; simpl.
  - destruct (decide (c ∈ live s)); auto.
  - destruct (decide (c ∈ live s)); auto.
    unfold_handlers. unfold string_method in *.
    break; simplify_eq;
      repeat match goal with
             | H : ?f ?a ?u0 = (?u, _), H0 : P ?u0 |- _ =>
                 assert (P u) by
                   (replace u with (f a u0).1 by (by rewrite H);
                    first [ eapply HM; eauto | eapply HE; eauto
                          | eapply HC; eauto ]);
                 clear H
             end; eauto.
  - destruct (decide (c ∈ live s)); auto.
    unfold_handlers.
    break; simplify_eq;
      repeat match goal with
             | H : ?f ?a ?u0 = (?u, _), H0 : P ?u0 |- _ =>
                 assert (P u) by
                   (replace u with (f a u0).1 by (by rewrite H);
                    eapply HE; eauto);
                 clear H
             end; eauto.
  - destruct (timers s); auto. unfold_handlers.
    break; simplify_eq;
      repeat match goal with
             | H : ?f ?a ?u0 = (?u, _), H0 : P ?u0 |- _ =>
                 assert (P u) by
                   (replace u with (f a u0).1 by (by rewrite H);
                    eapply HE; eauto);
                 clear H
             end; eauto.
  - unfold_handlers. break; auto.
Qed.

Lemma steps_client_inv {U} (cbs : callbacks U) (P : U -> Prop) :
  (forall f data u, ProgressStream.onMessage cbs = Some f ->
                    deliverable data -> P u -> P (f data u).1) ->
  (forall f e u, ProgressStream.onError cbs = Some f -> P u -> P (f e u).1) ->
  (forall f x u, onComplete cbs = Some f -> P u -> P (f x u).1) ->
  forall evs s, P (client s) -> P (client (steps cbs evs s)).
Proof.
  intros HM HE HC evs. induction evs as [|ev evs IH]; intros s HP; [done|].
  simpl. apply IH. by apply dispatch_client_inv.
Qed.

(** A falsy value or a string is strictly equal to itself. *)
Lemma deliverable_self_equal m :
  truthy m = false \/ (exists t, m = Some (JStr t)) -> strict_eq m m = true.
Proof.
  intros [Hf|[t ->]]; simpl.
  - destruct m as [[| b | n | t | |]|]; simpl in *; try done.
    + by destruct b.
    + apply Z.eqb_refl.
    + apply String.eqb_refl.
  - apply String.eqb_refl.
Qed.

Lemma addUpdate_recorded data l :
  recorded l -> deliverable data ->
  exists l', addUpdate data l = Ok l' /\ recorded l'.
Proof.
  intros [Hall Hadj] Hd. unfold addUpdate.
  destruct (last l) as [x|] eqn:Hlast.
  - apply last_Some in Hlast as [l0 ->].
    assert (Hx : deliverable x).
    { rewrite Forall_app, Forall_singleton in Hall. apply Hall. }
    destruct Hx as (m & Hm & Hmp). destruct Hd as (m' & Hm' & Hmp').
    rewrite Hm, Hm'.
    destruct (strict_eq m m') eqn:Heq; simpl.
    { eexists; split; [done|]. by split. }
    eexists; split; [done|]. split.
    { apply Forall_app; split; [done|]. apply Forall_singleton.
      by exists m'. }
    intros i a b Ha Hb.
    destruct (decide (S i < length (l0 ++ [x]))%nat) as [Hlt|Hge].
    + rewrite lookup_app_l in Ha by lia. rewrite lookup_app_l in Hb by done.
      by apply (Hadj i).
    + assert (Hi : S i = length (l0 ++ [x])).
      { apply lookup_lt_Some in Hb. rewrite length_app in Hb. simpl in Hb. lia. }
      rewrite lookup_app_r in Hb by lia.
      rewrite Hi, Nat.sub_diag in Hb. simpl in Hb. injection Hb as <-.
      rewrite length_app in Hi. simpl in Hi.
      rewrite lookup_app_l in Ha by (rewrite length_app; simpl; lia).
      rewrite lookup_app_r in Ha by lia.
      replace (i - length l0)%nat with 0%nat in Ha by lia.
      simpl in Ha. injection Ha as <-.
      split; [|by exists m, m'].
      intros ->. rewrite Hm in Hm'. injection Hm' as <-.
      rewrite (deliverable_self_equal m Hmp) in Heq. discriminate.
  - apply last_None in Hlast as ->. eexists; split; [done|]. split.
    + by apply Forall_singleton.
    + intros i a b Ha Hb. simpl in Hb. by rewrite lookup_nil in Hb.
Qed.

Lemma onMessage_recorded captured data (p : page) :
  recorded (progressUpdates p) -> deliverable data ->
  recorded (progressUpdates (GeneratorPage.onMessage captured data p).1).
Proof.
  intros Hr Hd. unfold GeneratorPage.onMessage.
  destruct (addUpdate_recorded data _ Hr Hd) as (l' & -> & Hr').
  by destruct (calculateProgress captured).
Qed.

(** C2. In every run of the client that [handleSubmit] opens for the
    page, the recorded list of progress updates never holds two equal
    neighbours, nor two neighbours whose [message] is strictly equal;
    a progress message whose text equals that of the last recorded
    update leaves the list as it is, and one whose text differs is
    appended. *)
Theorem C2_no_adjacent_duplicates (p : page) taskId ctor evs :
  let cbs := page_callbacks (progressUpdates p) in
  let s := steps cbs evs (handleSubmit p taskId ctor).1 in
  let recorded_now := progressUpdates (client s) in
  no_adjacent_duplicates recorded_now /\
  (forall c data t lastUpdate m,
     c ∈ live s -> progress_message data t ->
     last recorded_now = Some lastUpdate ->
     get lastUpdate "message" = Ok m ->
     progressUpdates (client (dispatch cbs (EvMessage c (Some data)) s))
     = if strict_eq m (Some (JStr t)) then recorded_now
       else recorded_now ++ [data]).
Proof.
  intros cbs s recorded_now. split.
  - assert (Hrec : recorded recorded_now); [|apply Hrec].
    subst recorded_now s.
    apply (steps_client_inv cbs (fun u => recorded (progressUpdates u))).
    + intros f data u Hf Hd Hu. injection Hf as <-.
      by apply onMessage_recorded.
    + intros f e u Hf Hu. by injection Hf as <-.
    + intros f x u Hf. discriminate Hf.
    + unfold handleSubmit, connectToProgressUpdates, getProgressUpdates. unfold_handlers.
      destruct ctor; simpl; (split; [constructor|]);
        intros i a b Ha; by rewrite lookup_nil in Ha.
  - intros c data t lastUpdate m Hin ((v & Hv & Hf) & Hm & Hp) Hlast Hget.
    simpl. rewrite decide_True by done.
    unfold_handlers. rewrite Hv. simpl. rewrite Hf, Hm. simpl.
    fold s. fold recorded_now.
    assert (Hadd : addUpdate data recorded_now
                   = Ok (if strict_eq m (Some (JStr t)) then recorded_now
                         else recorded_now ++ [data])).
    { unfold addUpdate. rewrite Hlast, Hget, Hm.
      by destruct (strict_eq m (Some (JStr t))). }
    destruct (negb (String.eqb t "")); simpl; rewrite ?Hp; simpl;
      unfold GeneratorPage.onMessage; fold recorded_now; rewrite Hadd;
      by destruct (calculateProgress (progressUpdates p)).
Qed.

(** C8, what the code does: the callback evaluates [calculateProgress]
    on the list captured by its closure, not on the list that includes
    the message just received. When the form was submitted with an empty
    list the displayed percentage is 10 after any sequence of events. *)
Theorem C8_percentage_from_captured_list (p : page) taskId ctor evs :
  progressUpdates p = [] ->
  let s := steps (page_callbacks (progressUpdates p)) evs
                 (handleSubmit p taskId ctor).1 in
  progressPercentage (client s) = Some 10%Z.
Proof.
  intros Hp s. subst s. rewrite Hp.
  apply (steps_client_inv (page_callbacks [])
           (fun u => progressPercentage u = Some 10%Z)).
  - intros f data u Hf _ _. injection Hf as <-.
    unfold GeneratorPage.onMessage. by simpl.
  - intros f e u Hf Hu. by injection Hf as <-.
  - intros f x u Hf. discriminate Hf.
  - unfold handleSubmit, connectToProgressUpdates, getProgressUpdates. unfold_handlers.
    by destruct ctor.
Qed.

End PageFacts.

Section PageInstances.
Import Js ProgressStream StreamSpec GeneratorPage PageSpec.

Lemma C2_witness :
  let cbs := page_callbacks [] in
  let s := steps cbs [EvMessage 0 (Some (text "Planned 4 submodules"))]
                 (handleSubmit fresh "task-1" None).1 in
  0%nat ∈ live s /\
  progressUpdates
    (client (dispatch cbs (EvMessage 0 (Some (text "Planned 4 submodules"))) s))
  = [text "Planned 4 submodules"].
Proof.
  assert (Hin : 0%nat ∈ live
            (steps (page_callbacks [])
                   [EvMessage 0 (Some (text "Planned 4 submodules"))]
                   (handleSubmit fresh "task-1" None).1))
    by (vm_compute; left).
  split; [exact Hin|].
  destruct (C2_no_adjacent_duplicates fresh "task-1" None
              [EvMessage 0 (Some (text "Planned 4 submodules"))])
    as [_ Hsame].
  refine (Hsame 0%nat (text "Planned 4 submodules") "Planned 4 submodules"
                (text "Planned 4 submodules")
                (Some (JStr "Planned 4 submodules")) Hin _ eq_refl eq_refl).
  split; [exists None; split; reflexivity | split; reflexivity].
Defined.

(** C8 at the failing input: on a fresh page the first message of the
    stream is "Finalized learning path"; the percentage shown is 10,
    while [calculateProgress] on the list that includes the message
    is 95. *)
Lemma C8_witness :
  let s := steps (page_callbacks [])
                 [EvMessage 0 (Some (text "Finalized learning path"))]
                 (handleSubmit fresh "task-1" None).1 in
  progressUpdates fresh = [] /\
  progressPercentage (client s) = Some 10%Z /\
  calculateProgress (progressUpdates (client s)) = Ok 95%Z.
Proof.
  split; [reflexivity|]. split; [|reflexivity].
  exact (C8_percentage_from_captured_list fresh "task-1" None
           [EvMessage 0 (Some (text "Finalized learning path"))] eq_refl).
Defined.

(** [calculateProgress] as a function of the list it is given. *)
Example calculateProgress_table :
  calculateProgress [text "Generated 5 search queries"] = Ok 20%Z /\
  calculateProgress [text "Executed 5 web searches"] = Ok 30%Z /\
  calculateProgress [text "Created learning path with 4 modules"] = Ok 40%Z /\
  calculateProgress [text "Planned 12 submodules"] = Ok 50%Z /\
  calculateProgress [text "Organized 12 submodules into 3 batches"] = Ok 60%Z /\
  calculateProgress [text "Processing submodule batch 3 with 2 submodules"] = Ok 69%Z /\
  calculateProgress [text "Processing submodule batch 14 with 2 submodules"] = Ok 90%Z /\
  calculateProgress [text "Processing submodule batch"] = Ok 70%Z /\
  calculateProgress [text "Completed batch 3"] = Ok 80%Z /\
  calculateProgress [text "Finalized learning path"] = Ok 95%Z /\
  calculateProgress [text "a"; text "b"; text "c"] = Ok 11%Z /\
  calculateProgress [] = Ok 10%Z.
Proof. vm_compute. repeat split. Qed.

End PageInstances.

(** ** The auth session *)

Section AuthFacts.
Import Js AuthSession AuthSpec.

Lemma subscribe_all rs : forall s,
  isRefreshingToken s = true -> Forall fresh_request rs ->
  steps (map Resp401 rs) s
  = {| authToken := authToken s; isRefreshingToken := true;
       refreshSubscribers := refreshSubscribers s ++ map mark_retried rs;
       awaiting := awaiting s; net := net s; rejected := rejected s |}.
Proof.
  induction rs as [|r rs IH]; intros s Hflag Hfresh.
  - simpl. rewrite app_nil_r. destruct s; simpl in *. by subst.
  - apply Forall_cons in Hfresh as [[Hr Hu] Hfresh]. simpl.
    unfold on401, refreshAuthToken. rewrite Hr, Hu, Hflag. simpl.
    rewrite IH by done. simpl. by rewrite <- app_assoc.
Qed.

Lemma replay_all t subs : forall s,
  foldl (replay t) s subs
  = {| authToken := match subs with [] => authToken s | _ => t end;
       isRefreshingToken := isRefreshingToken s;
       refreshSubscribers := refreshSubscribers s; awaiting := awaiting s;
       net := net s ++ map (fun r => Replay r (bearer t)) subs;
       rejected := rejected s |}.
Proof.
  induction subs as [|r subs IH]; intros s.
  - simpl. rewrite app_nil_r. by destruct s.
  - simpl. rewrite IH. simpl. rewrite <- app_assoc. simpl.
    by destruct subs.
Qed.

Lemma count_refresh_app l1 l2 :
  count_refresh (l1 ++ l2) = (count_refresh l1 + count_refresh l2)%nat.
Proof. unfold count_refresh. by rewrite List.filter_app, length_app. Qed.

Lemma count_refresh_replays t rs :
  count_refresh (map (fun r => Replay r (bearer t)) rs) = 0%nat.
Proof. by induction rs. Qed.

(** C5 (amended). When a burst of requests fails with 401 while no
    refresh is in flight, all of them before the refresh call has
    resolved, the first failure issues the refresh call and every later
    one only subscribes to it: exactly one refresh call reaches the
    network however many requests failed (five, for instance). When that
    call resolves with a non-empty token and the statements that follow
    its resolution in [refreshAuthToken] (among them the update of the
    session kept in localStorage) complete, every request of the burst
    is replayed exactly once with the new token, none is rejected, and
    the session is idle again with the new token; a replay that is
    rejected afterwards clears the token and rejects its request, and
    sends nothing. *)
Theorem C5_single_refresh_for_a_burst (s : state) r0 rs (t : string) :
  idle s -> Forall fresh_request (r0 :: rs) -> t <> "" ->
  let burst := steps (map Resp401 (r0 :: rs)) s in
  let s' := dispatch (RefreshResolved (Some t) Completes) burst in
  net burst = net s ++ [PostRefresh] /\
  refreshSubscribers burst = map mark_retried rs /\
  net s' = net s ++ PostRefresh ::
             map (fun r => Replay (mark_retried r) ("Bearer " ++ t)%string)
                 (r0 :: rs) /\
  count_refresh (net s') = S (count_refresh (net s)) /\
  rejected s' = rejected s /\ authToken s' = Some t /\ idle s' /\
  (forall r,
     let s'' := dispatch (ReplayRejected r) s' in
     authToken s'' = None /\ rejected s'' = rejected s' ++ [r] /\
     net s'' = net s' /\ idle s'').
Proof.
  intros (Hflag & Hsubs & Hwait) Hfresh Ht burst s'.
  apply Forall_cons in Hfresh as [[Hr Hu] Hfresh].
  assert (Hburst : burst
    = {| authToken := authToken s; isRefreshingToken := true;
         refreshSubscribers := map mark_retried rs;
         awaiting := [mark_retried r0]; net := net s ++ [PostRefresh];
         rejected := rejected s |}).
  { subst burst. simpl. unfold on401, refreshAuthToken.
    rewrite Hr, Hu, Hflag. simpl. rewrite subscribe_all by done.
    simpl. by rewrite Hsubs, Hwait. }
  assert (Htruthy : negb (String.eqb t "") = true).
  { destruct (String.eqb_spec t ""); [done|reflexivity]. }
  assert (Hs' : s'
    = {| authToken := Some t; isRefreshingToken := false;
         refreshSubscribers := []; awaiting := [];
         net := net s ++ PostRefresh ::
                  map (fun r => Replay (mark_retried r) ("Bearer " ++ t)%string)
                      (r0 :: rs);
         rejected := rejected s |}).
  { subst s'. rewrite Hburst. simpl. unfold refresh_resolved, token_truthy.
    simpl. rewrite Htruthy, replay_all. simpl. rewrite <- !app_assoc. simpl.
    rewrite map_map. f_equal. by destruct rs. }
  rewrite Hburst, Hs'. simpl. repeat split; auto.
  rewrite count_refresh_app. unfold count_refresh at 2. simpl.
  change (length (List.filter is_refresh ?l)) with (count_refresh l).
  rewrite <- (map_map mark_retried (fun r => Replay r (bearer (Some t)))).
  rewrite count_refresh_replays. lia.
Qed.

(** C5, the claim as stated, at a concrete run: five requests fail with
    401, one refresh call is made and it resolves with a token, but the
    session stored under 'auth' is not JSON, so that [JSON.parse] throws
    inside [refreshAuthToken]. None of the five requests is replayed:
    the refresh call is the only traffic, all five are rejected and the
    token is cleared. *)
Lemma C5_damaged_session_blocks_replay :
  let burst := [get_request 1 "/learning-paths";
                get_request 2 "/learning-paths/a";
                get_request 3 "/auth/credits";
                get_request 4 "/learning-paths/b";
                get_request 5 "/auth/status"] in
  let s' := steps (map Resp401 burst
                   ++ [RefreshResolved (Some "t2") (Raises SyntaxError)])
                  (logged_in "t1") in
  net s' = [PostRefresh] /\
  rejected s' = map mark_retried burst /\
  authToken s' = None.
Proof. vm_compute. auto. Qed.

Lemma C5_witness :
  let rs := [get_request 2 "/learning-paths/a"; get_request 3 "/auth/credits";
             get_request 4 "/learning-paths/b"; get_request 5 "/auth/status"] in
  let r0 := get_request 1 "/learning-paths" in
  let s' := steps (map Resp401 (r0 :: rs)
                   ++ [RefreshResolved (Some "t2") Completes])
                  (logged_in "t1") in
  idle (logged_in "t1") /\ Forall fresh_request (r0 :: rs) /\
  count_refresh (net s') = 1%nat /\ length (net s') = 6%nat.
Proof.
  assert (Hidle : idle (logged_in "t1")) by (repeat split).
  assert (Hfresh : Forall fresh_request
            [get_request 1 "/learning-paths";
             get_request 2 "/learning-paths/a"; get_request 3 "/auth/credits";
             get_request 4 "/learning-paths/b"; get_request 5 "/auth/status"])
    by (repeat constructor).
  assert (Ht : "t2" <> "") by discriminate.
  destruct (C5_single_refresh_for_a_burst (logged_in "t1") _ _ "t2"
              Hidle Hfresh Ht) as (_ & _ & Hnet & Hcount & _).
  split; [exact Hidle|]. split; [exact Hfresh|].
  split; [exact Hcount|]. exact (f_equal length Hnet).
Defined.

End AuthFacts.

(** ** The history facade *)

Section FacadeFacts.
Import Js History HistorySpec.
Context {L : Type}.
Variable local_save : json -> string -> L -> L * res json.
Variable local_update : string -> json -> L -> L * res json.
Variable local_delete : string -> L -> L * res json.
Variable local_preview :
  string -> option string -> option string -> L -> L * res json.

Local Arguments truthy : simpl never.
Local Arguments get : simpl never.


Lemma authenticated_token (w : world L) :
  authenticated w ->
  match authToken w with
  | Some t => negb (String.eqb t "")
  | None => false
  end = true.
Proof.
  intros (t & -> & Hne). by destruct (String.eqb_spec t "").
Qed.

Lemma not_authenticated_token (w : world L) :
  ~ authenticated w ->
  match authToken w with
  | Some t => negb (String.eqb t "")
  | None => false
  end = false.
Proof.
  intros Hn. destruct (authToken w) as [t|] eqn:Ht; [|done].
  destruct (String.eqb_spec t ""); [done|].
  destruct Hn. by exists t.
Qed.

(** C6 (amended). Without a truthy auth token [saveToHistory] sends no
    request, leaves the token alone, and returns what the local history
    service returns for the entry, which it stores. With one it sends
    POST /learning-paths with the body [{topic, path_data, favorite:
    false, tags: [], source}], where [topic] is that of the entry or
    'Untitled' and [path_data] the entry itself; when the server answers
    it returns [{success: true, entry_id}] with the [path_id] of the
    response and leaves the local store untouched; when the request is
    rejected it returns instead what the local history service returns
    for the entry, which is then stored locally. *)
Theorem C6_saveToHistory_routes_by_token learningPath source rep
    (w : world L) :
  let out := History.saveToHistory local_save learningPath source rep w in
  (~ authenticated w ->
     net out.1 = net w /\ authToken out.1 = authToken w /\
     forall l r, local_save learningPath source (local w) = (l, Ok r) ->
                 out.2 = Ok r /\ local out.1 = l) /\
  (authenticated w ->
     forall topic, get learningPath "topic" = Ok topic ->
       let sent_topic := match topic with
                         | Some t => if truthy topic then t
                                     else JStr "Untitled"
                         | None => JStr "Untitled"
                         end in
       net out.1
       = net w ++ [{| method := "POST"; History.path := "/learning-paths";
                      params := [];
                      body := Some (JObj [("topic", sent_topic);
                                          ("path_data", learningPath);
                                          ("favorite", JBool false);
                                          ("tags", JArr []);
                                          ("source", JStr source)]) |}] /\
       (forall response_data path_id,
          outcome rep = Ok response_data ->
          get response_data "path_id" = Ok path_id ->
          out.2 = Ok (JObj (("success", JBool true)
                            :: match path_id with
                               | Some id => [("entry_id", id)]
                               | None => []
                               end)) /\
          local out.1 = local w) /\
       (forall e, outcome rep = Throw e ->
          out.2 = (local_save learningPath source (local w)).2 /\
          local out.1 = (local_save learningPath source (local w)).1)).
Proof.
  intros out. split.
  - intros Hn. apply not_authenticated_token in Hn.
    subst out. unfold_facade. simpl. rewrite Hn. simpl.
    destruct (local_save learningPath source (local w)) as [l0 [r0|e0]] eqn:Hl;
      simpl.
    + split; [done|]. split; [done|]. intros l' r' [= <- <-]. auto.
    + destruct (local_save learningPath source l0) as [l1 r1]; simpl.
      split; [done|]. split; [done|]. intros l' r' [=].
  - intros Ha topic Htopic sent_topic. apply authenticated_token in Ha.
    assert (Hreq : create_request learningPath topic source
              = {| method := "POST"; History.path := "/learning-paths";
                   params := [];
                   body := Some (JObj [("topic", sent_topic);
                                       ("path_data", learningPath);
                                       ("favorite", JBool false);
                                       ("tags", JArr []);
                                       ("source", JStr source)]) |}).
    { unfold create_request, object, or_else. subst sent_topic.
      destruct topic as [t|]; [|done]. by destruct (truthy (Some t)). }
    subst out. unfold_facade. simpl. rewrite Ha, Htopic. simpl.
    rewrite Hreq. split; [|split].
    + destruct (outcome rep) as [d|e]; simpl.
      * destruct (get d "path_id"); simpl; [done|].
        by destruct (local_save learningPath source (local w)).
      * by destruct (local_save learningPath source (local w)).
    + intros d pid -> Hpid. simpl. rewrite Hpid. simpl.
      by destruct pid.
    + intros e ->. simpl.
      by destruct (local_save learningPath source (local w)).
Qed.

(** C7 (amended). Under an authenticated session, when the awaited
    request is rejected with [e]: [updateHistoryEntry] and
    [deleteHistoryEntry] rethrow [e] and leave the local store and the
    token as they are, provided the token is still set when the
    rejection is handled; [saveToHistory] falls back to the local
    history service and returns its result; [getHistoryPreview], a read
    path, falls back to the local service as well, after clearing the
    token when [e] is a 401 or a 403. *)
Theorem C7_failed_remote_calls (w : world L) rep e :
  authenticated w -> outcome rep = Throw e ->
  ((exists t, authToken_on_resume rep = Some t /\ t <> "") ->
     (forall entryId data,
        let out := History.updateHistoryEntry local_update entryId data rep w in
        out.2 = Throw e /\ local out.1 = local w /\
        authToken out.1 = authToken_on_resume rep) /\
     (forall entryId,
        let out := History.deleteHistoryEntry local_delete entryId rep w in
        out.2 = Throw e /\ local out.1 = local w /\
        authToken out.1 = authToken_on_resume rep)) /\
  (forall learningPath source,
     let out := History.saveToHistory local_save learningPath source rep w in
     out.2 = (local_save learningPath source (local w)).2 /\
     local out.1 = (local_save learningPath source (local w)).1) /\
  (forall sortBy filterSource searchTerm now now' quota_ok,
     (forall c, sessionStorage w !! cacheKey sortBy filterSource searchTerm
                = Some c -> (cacheTimeMs <= now - timestamp c)%Z) ->
     let out := History.getHistoryPreview local_preview sortBy filterSource
                  searchTerm now now' quota_ok rep w in
     out.2 = (local_preview sortBy filterSource searchTerm (local w)).2 /\
     local out.1 = (local_preview sortBy filterSource searchTerm (local w)).1 /\
     authToken out.1
     = if is_auth_error e then None else authToken_on_resume rep).
Proof.
  intros Ha He. apply authenticated_token in Ha. split; [|split].
  - intros (t & Ht & Hne).
    assert (Hres : negb (String.eqb t "") = true)
      by (by destruct (String.eqb_spec t "")).
    split; intros; subst out; unfold_facade; simpl;
      rewrite Ha; simpl; rewrite He; simpl; rewrite Ht, Hres; simpl; auto.
  - intros learningPath source out. subst out. unfold_facade. simpl.
    rewrite Ha. simpl.
    destruct (get learningPath "topic"); simpl; rewrite ?He; simpl;
      by destruct (local_save learningPath source (local w)).
  - intros sortBy filterSource searchTerm now now' quota_ok Hstale out.
    subst out. unfold_facade. simpl. rewrite Ha. simpl.
    destruct (sessionStorage w !! cacheKey sortBy filterSource searchTerm)
      as [c|] eqn:Hc; simpl.
    + specialize (Hstale c eq_refl).
      destruct (Z.ltb_spec (now - timestamp c) cacheTimeMs); [lia|].
      simpl. rewrite He. simpl.
      destruct (is_auth_error e); simpl;
        by destruct (local_preview sortBy filterSource searchTerm (local w)).
    + rewrite He. simpl.
      destruct (is_auth_error e); simpl;
        by destruct (local_preview sortBy filterSource searchTerm (local w)).
Qed.


End FacadeFacts.

Section FacadeInstances.
Import Js History HistorySpec.

(** C7, the claim as stated, at a concrete call: the session is
    authenticated, the POST is rejected with a 500 and the token is still
    set afterwards; [saveToHistory] does not raise the error but stores
    the entry locally and reports success with a local identifier. *)
Lemma C7_failed_create_is_redirected :
  let rep := {| outcome := Throw (HttpError 500);
                authToken_on_resume := Some "tok" |} in
  let out := saveToHistory path "generated" rep (signed_in "tok") in
  out.2 = Ok (JObj [("success", JBool true); ("entry_id", JStr "local-0")]) /\
  local out.1 = [("local-0", path)] /\
  authToken out.1 = Some "tok".
Proof. vm_compute. auto. Qed.

(** C6, the claim as stated, at a concrete call: a token is set, but the
    POST is rejected (the server cannot be reached). [saveToHistory] has
    contacted the network and yet returns a locally generated
    identifier, having stored the entry in the local store, not
    remotely. *)
Lemma C6_rejected_create_returns_local_id :
  let rep := {| outcome := Throw (Error "Network Error");
                authToken_on_resume := Some "tok" |} in
  let out := saveToHistory path "imported" rep (signed_in "tok") in
  length (net out.1) = 1%nat /\
  out.2 = Ok (JObj [("success", JBool true); ("entry_id", JStr "local-0")]) /\
  local out.1 = [("local-0", path)].
Proof. vm_compute. auto. Qed.

Lemma C6_witness :
  let rep := {| outcome := Ok (JObj [("path_id", JStr "7f3a-41")]);
                authToken_on_resume := Some "tok" |} in
  (~ authenticated signed_out /\
   net (saveToHistory path "generated" rep signed_out).1 = [] /\
   (saveToHistory path "generated" rep signed_out).2
   = Ok (JObj [("success", JBool true); ("entry_id", JStr "local-0")])) /\
  (authenticated (signed_in "tok") /\
   net (saveToHistory path "generated" rep (signed_in "tok")).1
   = [{| method := "POST"; History.path := "/learning-paths"; params := [];
         body := Some (JObj [("topic", JStr "Rocq");
                             ("path_data", JObj [("topic", JStr "Rocq")]);
                             ("favorite", JBool false);
                             ("tags", JArr []);
                             ("source", JStr "generated")]) |}] /\
   (saveToHistory path "generated" rep (signed_in "tok")).2
   = Ok (JObj [("success", JBool true); ("entry_id", JStr "7f3a-41")])).
Proof.
  intros rep.
  assert (Hout : ~ authenticated signed_out).
  { intros (t & Ht & _). discriminate Ht. }
  assert (Hin : authenticated (signed_in "tok")).
  { exists "tok". split; [reflexivity | discriminate]. }
  split.
  - destruct (C6_saveToHistory_routes_by_token LocalStore.saveToHistory
                path "generated" rep signed_out) as [Hlocal _].
    destruct (Hlocal Hout) as (Hnet & _ & Hres).
    split; [exact Hout|]. split; [exact Hnet|].
    exact (proj1 (Hres _ _ eq_refl)).
  - destruct (C6_saveToHistory_routes_by_token LocalStore.saveToHistory
                path "generated" rep (signed_in "tok")) as [_ Hremote].
    destruct (Hremote Hin _ eq_refl) as (Hnet & Hres & _).
    split; [exact Hin|]. split; [exact Hnet|].
    exact (proj1 (Hres _ _ eq_refl eq_refl)).
Defined.

Lemma C7_witness :
  let rep := {| outcome := Throw (HttpError 500);
                authToken_on_resume := Some "tok" |} in
  let out := updateHistoryEntry "7f3a-41" (JObj [("favorite", JBool true)])
               rep (signed_in "tok") in
  authenticated (signed_in "tok") /\
  out.2 = Throw (HttpError 500) /\ local out.1 = [].
Proof.
  intros rep out.
  assert (Hin : authenticated (signed_in "tok")).
  { exists "tok". split; [reflexivity | discriminate]. }
  destruct (C7_failed_remote_calls LocalStore.saveToHistory
              LocalStore.updateHistoryEntry LocalStore.deleteHistoryEntry
              LocalStore.getHistoryPreview (signed_in "tok") rep
              (HttpError 500) Hin eq_refl) as [Hwrite _].
  assert (Hset : exists t, authToken_on_resume rep = Some t /\ t <> "").
  { exists "tok". split; [reflexivity | discriminate]. }
  destruct (Hwrite Hset) as [Hupdate _].
  destruct (Hupdate "7f3a-41" (JObj [("favorite", JBool true)]))
    as (Hres & Hlocal & _).
  split; [exact Hin|]. split; [exact Hres | exact Hlocal].
Defined.



End FacadeInstances.

(** ** Further facts about the stream client *)

Section StreamExtras.
Import Js ProgressStream StreamSpec StreamSpec2.
Context {U : Type} (cbs : callbacks U).

(** X1. Throughout every run of the client at most one EventSource is
    live, the live one is the one the handle closes, a reconnect timer is
    pending only while no source is live (and then exactly one, of 1000
    ms), and the retry count never exceeds three. *)
Theorem stream_single_connection taskId ctor (u : U) evs :
  let s := steps cbs evs (getProgressUpdates cbs taskId ctor u).1 in
  (length (live s) + length (timers s) <= 1)%nat /\
  (forall c, c ∈ live s -> eventSource s = Some c) /\
  (forall ms, ms ∈ timers s -> ms = 1000%nat) /\
  (retryCount s <= 3)%nat.
Proof.
  intros s.
  assert (Hwf : wf s) by apply wf_steps, wf_getProgressUpdates.
  destruct Hwf as [Hr [[Hl [Ht|Ht]]|(c0 & Hl & He & Ht)]];
    rewrite Hl, Ht; simpl; repeat split; auto.
  all: try (intros c Hc; by apply elem_of_nil in Hc).
  - intros ms Hms. by apply list_elem_of_singleton in Hms.
  - intros c Hc. apply list_elem_of_singleton in Hc. by subst.
Qed.

Lemma created_dispatch ev (s : state U) :
  created (dispatch cbs ev s)
  = match ev with
    | EvTimer None => match timers s with
                      | [] => created s
                      | _ :: _ => S (created s)
                      end
    | _ => created s
    end.
Proof.
  destruct ev as [c|c payload|c| ctor |]; simpl.
  - by destruct (decide (c ∈ live s)).
  - destruct (decide (c ∈ live s)); [|done].
    by destruct (onmessage_service cbs payload s) as (_ & _ & -> & _).
  - destruct (decide (c ∈ live s)); [|done].
    unfold_handlers. break; auto.
  - destruct (timers s); [by destruct ctor|].
    unfold_handlers. break; auto.
  - unfold_handlers. break; auto.
Qed.

Lemma created_steps evs : forall (s : state U),
  (created (steps cbs evs s) <= created s + timer_events evs)%nat.
Proof.
  induction evs as [|ev evs IH]; intros s; [simpl; lia|].
  simpl. specialize (IH (dispatch cbs ev s)).
  rewrite created_dispatch in IH. unfold timer_events in *. simpl.
  destruct ev as [| | |[e|]|]; simpl in *; try lia.
  destruct (timers s); lia.
Qed.

(** X2. An EventSource is constructed only by the initial call and by
    the expiry of a retry timer: after a run, the number of sources ever
    created is at most one more than the number of timer expiries. *)
Theorem stream_sources_created_by_timers taskId ctor (u : U) evs :
  let s := steps cbs evs (getProgressUpdates cbs taskId ctor u).1 in
  (created s <= 1 + timer_events evs)%nat.
Proof.
  intros s. subst s.
  assert (H0 : (created (getProgressUpdates cbs taskId ctor u).1 <= 1)%nat).
  { unfold getProgressUpdates. unfold_handlers. break; simpl; lia. }
  pose proof (created_steps evs (getProgressUpdates cbs taskId ctor u).1).
  lia.
Qed.

(** X3. A message whose text starts with "Error:" is a report from the
    server, not a transport failure: the reason (the text without its
    first "Error: ") goes to [onError] (followed by the exception of
    [onError] itself, should it throw), nothing goes to [onMessage], the
    source stays live, no reconnect is scheduled, and the retry count
    is left as it is (it is not reset). *)
Theorem stream_error_message_is_reported (s : state U) c data v t :
  c ∈ live s ->
  get data "complete" = Ok v -> truthy v = false ->
  get data "message" = Ok (Some (JStr t)) -> startsWith t "Error:" = true ->
  let s' := dispatch cbs (EvMessage c (Some data)) s in
  let reason := Error (replace t "Error: " "") in
  calls s' = calls s ++ reported cbs reason
               ++ echoed cbs reason (client s) /\
  live s' = live s /\ timers s' = timers s /\
  retryCount s' = retryCount s /\ eventSource s' = eventSource s.
Proof.
  intros Hin Hv Hf Hm Hp. simpl. rewrite decide_True by done.
  assert (Ht : negb (String.eqb t "") = true).
  { destruct t; [discriminate Hp | reflexivity]. }
  unfold_handlers. unfold reported, echoed.
  rewrite Hv. simpl. rewrite Hf, Hm. simpl.
  rewrite Ht. simpl. rewrite Hp. simpl.
  destruct (onError cbs) as [f|]; simpl; [|by rewrite ?app_nil_r].
  destruct (f (Error (replace t "Error: " "")) (client s)) as [u1 [e1|]];
    simpl.
  - destruct (f e1 u1) as [u2 o2]; simpl. by rewrite <- ?app_assoc.
  - by rewrite ?app_nil_r.
Qed.

(** X4. A payload that cannot be used (text that is not JSON, the JSON
    value null, or a truthy [message] that is not a string) is reported
    to [onError] with the exception it caused; the source stays live, no
    reconnect is scheduled and the retry count is not reset. *)
Theorem stream_bad_payload_is_reported (s : state U) c payload :
  c ∈ live s ->
  (payload = None \/ payload = Some JNull \/
   exists data v m, payload = Some data /\ get data "complete" = Ok v /\
                    truthy v = false /\ get data "message" = Ok m /\
                    truthy m = true /\ (forall t, m <> Some (JStr t))) ->
  let s' := dispatch cbs (EvMessage c payload) s in
  calls s' = calls s ++ reported cbs (match payload with
                                      | None => SyntaxError
                                      | Some _ => TypeError
                                      end) /\
  live s' = live s /\ timers s' = timers s /\
  retryCount s' = retryCount s.
Proof.
  intros Hin Hbad. simpl. rewrite decide_True by done.
  unfold_handlers. unfold reported.
  destruct Hbad as [->|[->|(data & v & m & -> & Hv & Hf & Hm & Ht & Hns)]];
    simpl.
  - break; rewrite ?app_nil_r; auto.
  - break; rewrite ?app_nil_r; auto.
  - rewrite Hv. simpl. rewrite Hf, Hm. simpl. rewrite Ht. simpl.
    assert (Hthrow : forall A (f : string -> A),
               string_method m f = Throw TypeError).
    { intros A f. destruct m as [[| | |t| |]|]; simpl; try done.
      by destruct (Hns t). }
    rewrite Hthrow. simpl. break; rewrite ?app_nil_r; auto.
Qed.

Lemma plain_calls_dispatch ev (s : state U) :
  Forall plain_call (calls s) -> Forall plain_call (calls (dispatch cbs ev s)).
Proof.
  intros Hs.
  assert (Hsnoc : forall c, plain_call c -> Forall plain_call (calls s ++ [c])).
  { intros c Hc. apply Forall_app. split; [done|]. by apply Forall_singleton. }
  assert (Hsnoc2 : forall c c', plain_call c -> plain_call c' ->
                     Forall plain_call ((calls s ++ [c]) ++ [c'])).
  { intros c c' Hc Hc'. apply Forall_app. split; [auto|].
    by apply Forall_singleton. }
  destruct ev as [c|c payload|c| ctor |]; simpl.
  - by destruct (decide (c ∈ live s)).
  - destruct (decide (c ∈ live s)); [|done].
    unfold_handlers. unfold string_method in *.
    break; simplify_eq; auto; try (apply Hsnoc2; simpl; auto);
      try (apply Hsnoc; simpl; auto).
    all: unfold plain; eauto 10.
  - destruct (decide (c ∈ live s)); [|done].
    unfold_handlers. break; auto; apply Hsnoc; simpl; auto.
  - destruct (timers s); [done|].
    unfold_handlers. break; auto; apply Hsnoc; simpl; auto.
  - unfold_handlers. break; auto.
Qed.

Lemma plain_calls_steps evs : forall (s : state U),
  Forall plain_call (calls s) -> Forall plain_call (calls (steps cbs evs s)).
Proof.
  induction evs as [|ev evs IH]; intros s Hs; [done|].
  simpl. apply IH. by apply plain_calls_dispatch.
Qed.

(** X5. [onMessage] never receives a completion payload, a payload whose
    [complete] or [message] cannot be read, or a message that announces
    an error: in every run, each payload that was passed to it has a
    falsy [complete] and a [message] that is falsy or a text not starting
    with "Error:". *)
Theorem stream_onMessage_gets_progress_only taskId ctor (u : U) evs data :
  let s := steps cbs evs (getProgressUpdates cbs taskId ctor u).1 in
  OnMessage data ∈ calls s -> plain data.
Proof.
  intros s Hin.
  assert (Hall : Forall plain_call (calls s)).
  { apply plain_calls_steps.
    unfold getProgressUpdates. unfold_handlers. unfold initial.
    break; repeat constructor. }
  rewrite Forall_forall in Hall. apply (Hall _ Hin).
Qed.

End StreamExtras.

Section LegacyExtras.
Import Js ProgressStream StreamSpec StreamSpec2.
Context {U : Type} (cbs : callbacks U).

Lemma legacy_created_dispatch ev (s : state U) :
  created (LegacyStream.dispatch cbs ev s) = created s.
Proof.
  destruct ev as [c|c payload|c| ctor |]; simpl; auto.
  - destruct (decide (c ∈ live s)); [|done]. unfold_legacy. break; auto.
  - destruct (decide (c ∈ live s)); [|done]. unfold_legacy. break; auto.
  - unfold_legacy. break; auto.
Qed.

Lemma legacy_created_steps evs : forall (s : state U),
  created (LegacyStream.steps cbs evs s) = created s.
Proof.
  induction evs as [|ev evs IH]; intros s; [done|].
  change (LegacyStream.steps cbs (ev :: evs) s)
    with (LegacyStream.steps cbs evs (LegacyStream.dispatch cbs ev s)).
  rewrite IH. apply legacy_created_dispatch.
Qed.

(** X6. The earlier version of the client never reconnects: in every run
    at most one EventSource is ever constructed and no timer is ever
    pending, and a transport error on the live source closes it, passes
    the error event to [onError] and leaves the client quiescent. *)
Theorem legacy_never_reconnects taskId ctor (u : U) evs :
  let s := LegacyStream.steps cbs evs
             (LegacyStream.getProgressUpdates cbs taskId ctor u).1 in
  (created s <= 1)%nat /\ timers s = [] /\
  forall c, c ∈ live s ->
    let s' := LegacyStream.dispatch cbs (EvError c) s in
    calls s' = calls s ++ reported cbs ErrorEvent /\ quiescent s'.
Proof.
  intros s.
  destruct (legacy_wf_start cbs taskId ctor u) as (Hw0 & Ht0 & Hc0).
  destruct (legacy_steps cbs evs _ Hw0 Ht0 (or_introl Hc0)) as (Hwf & Ht & _).
  change (LegacyStream.steps cbs evs
            (LegacyStream.getProgressUpdates cbs taskId ctor u).1)
    with s in Hwf, Ht.
  split; [|split; [done|]].
  - subst s. rewrite legacy_created_steps.
    unfold_legacy. break; simpl; lia.
  - intros c Hin s'.
    destruct (live_cases s c Hwf Hin) as (Hl & He & _).
    subst s'. simpl. rewrite decide_True by done.
    unfold quiescent, reported. unfold_legacy. rewrite He. simpl.
    rewrite Hl, filter_ne_singleton, Ht.
    break; rewrite ?app_nil_r; auto.
Qed.

End LegacyExtras.

Section StreamExtraInstances.
Import Js ProgressStream StreamSpec StreamSpec2.

Lemma stream_error_message_witness :
  let data := text "Error: model quota exceeded" in
  let s' := dispatch observers (EvMessage 0 (Some data)) start in
  0%nat ∈ live start /\
  calls s' = [OnError (Error "model quota exceeded")] /\
  live s' = [0%nat] /\ retryCount s' = 0%nat.
Proof.
  assert (Hin : 0%nat ∈ live start) by (vm_compute; left).
  destruct (stream_error_message_is_reported observers start 0%nat
              (text "Error: model quota exceeded") None
              "Error: model quota exceeded" Hin eq_refl eq_refl eq_refl eq_refl)
    as (Hc & Hl & _ & Hr & _).
  split; [exact Hin|]. split; [exact Hc|]. split; [exact Hl | exact Hr].
Defined.

Lemma stream_bad_payload_witness :
  let s' := dispatch observers (EvMessage 0 None) start in
  0%nat ∈ live start /\
  calls s' = [OnError SyntaxError] /\ live s' = [0%nat].
Proof.
  assert (Hin : 0%nat ∈ live start) by (vm_compute; left).
  destruct (stream_bad_payload_is_reported observers start 0%nat None Hin
              (or_introl eq_refl)) as (Hc & Hl & _).
  split; [exact Hin|]. split; [exact Hc | exact Hl].
Defined.

Lemma stream_onMessage_witness :
  let s := steps observers [EvMessage 0 (Some (text "Planned 4 submodules"))]
                 start in
  OnMessage (text "Planned 4 submodules") ∈ calls s /\
  plain (text "Planned 4 submodules").
Proof.
  assert (Hin : OnMessage (text "Planned 4 submodules")
                ∈ calls (steps observers
                           [EvMessage 0 (Some (text "Planned 4 submodules"))]
                           start)) by (vm_compute; left).
  split; [exact Hin|].
  exact (stream_onMessage_gets_progress_only observers "task-1" None tt
           [EvMessage 0 (Some (text "Planned 4 submodules"))] _ Hin).
Defined.

Lemma legacy_never_reconnects_witness :
  let s := (LegacyStream.getProgressUpdates observers "task-1" None tt).1 in
  0%nat ∈ live s /\
  calls (LegacyStream.dispatch observers (EvError 0) s) = [OnError ErrorEvent].
Proof.
  assert (Hin : 0%nat ∈ live
            (LegacyStream.getProgressUpdates observers "task-1" None tt).1)
    by (vm_compute; left).
  split; [exact Hin|].
  destruct (legacy_never_reconnects observers "task-1" None tt [])
    as (_ & _ & Herr).
  exact (proj1 (Herr 0%nat Hin)).
Defined.

End StreamExtraInstances.

(** ** Further facts about the generator page *)

Section PageExtras.
Import Js ProgressStream StreamSpec GeneratorPage PageSpec.

Lemma parseInt_from_nonneg ds : forall acc,
  (0 <= acc)%Z ->
  (forall a, a ∈ list_ascii_of_string ds -> is_digit a = true) ->
  (0 <= parseInt_from acc ds)%Z.
Proof.
  induction ds as [|a ds IH]; intros acc Hacc Hd; [done|].
  simpl. apply IH.
  - assert (Ha : is_digit a = true) by (apply Hd; simpl; left).
    unfold is_digit in Ha. apply andb_true_iff in Ha as [Ha _].
    apply Nat.leb_le in Ha. lia.
  - intros b Hb. apply Hd. simpl. by right.
Qed.

Lemma span_digits_digits s ds rest :
  span_digits s = (ds, rest) ->
  forall a, a ∈ list_ascii_of_string ds -> is_digit a = true.
Proof.
  revert ds rest. induction s as [|c s IH]; intros ds rest Hs a Ha.
  - simpl in Hs. injection Hs as <- <-. by apply elem_of_nil in Ha.
  - simpl in Hs. destruct (is_digit c) eqn:Hc.
    + destruct (span_digits s) as [ds' rest'] eqn:Hs'.
      injection Hs as <- <-. simpl in Ha.
      apply elem_of_cons in Ha as [->|Ha]; [done|]. by eapply IH.
    + injection Hs as <- <-. by apply elem_of_nil in Ha.
Qed.

Lemma match_batch_digits s ds :
  match_batch s = Some ds ->
  forall a, a ∈ list_ascii_of_string ds -> is_digit a = true.
Proof.
  induction s as [|c s IH].
  - simpl. unfold batch_at. simpl. discriminate.
  - intros Hm.
    assert (Hcase : batch_at (String c s) = Some ds \/ match_batch s = Some ds).
    { simpl in Hm. destruct (batch_at (String c s)); [left; congruence | by right]. }
    destruct Hcase as [Hb|Hrec]; [|by apply IH].
    unfold batch_at in Hb.
    destruct (String.prefix "batch " (String c s)); [|discriminate].
    destruct (span_digits (drop_chars 6 (String c s))) as [ds' rest] eqn:Hs.
    destruct (String.eqb ds' ""); [discriminate|].
    destruct (String.prefix " with" rest); [|discriminate].
    injection Hb as <-. by eapply span_digits_digits.
Qed.

(** X7. [calculateProgress] returns for every list whose last update
    carries a text, whatever the text, and for every list whose last
    update carries an array that does not hold the text "Processing
    submodule batch"; it throws a TypeError when the [message] of the
    last update is missing, null, a number, a boolean or an object; and
    every value it returns lies between 7 and 95. *)
Theorem calculateProgress_total_on_text_and_bounded updates :
  (forall v, calculateProgress updates = Ok v -> (7 <= v <= 95)%Z) /\
  (forall lastUpdate t,
     last updates = Some lastUpdate ->
     get lastUpdate "message" = Ok (Some (JStr t)) ->
     exists v, calculateProgress updates = Ok v) /\
  (forall lastUpdate items,
     last updates = Some lastUpdate ->
     get lastUpdate "message" = Ok (Some (JArr items)) ->
     JStr "Processing submodule batch" ∉ items ->
     exists v, calculateProgress updates = Ok v) /\
  (forall lastUpdate m,
     last updates = Some lastUpdate ->
     get lastUpdate "message" = Ok m ->
     (forall t, m <> Some (JStr t)) ->
     (forall items, m <> Some (JArr items)) ->
     calculateProgress updates = Throw TypeError).
Proof.
  split; [|split; [|split]].
  - intros v. unfold calculateProgress.
    destruct (last updates) as [l|] eqn:Hlast; [|intros [= <-]; lia].
    destruct (get l "message") as [m|e]; [|discriminate].
    destruct (includes_of m) as [has|]; [|discriminate].
    assert (Hlen : (1 <= Z.of_nat (length updates))%Z).
    { destruct updates; [discriminate Hlast | simpl; lia]. }
    repeat match goal with
           | |- context [if ?b then _ else _] => destruct b
           end; try (intros [= <-]; lia).
    destruct m as [[| | |t| |]|]; simpl; try discriminate.
    destruct (match_batch t) as [ds|] eqn:Hb; intros [= <-]; [|lia].
    pose proof (parseInt_from_nonneg ds 0 (Z.le_refl 0)
                  (match_batch_digits t ds Hb)) as Hn.
    unfold parseInt.
    assert (0 <= 30 * parseInt_from 0 ds / 10)%Z
      by (apply Z.div_pos; lia).
    lia.
  - intros l t Hlast Hm. unfold calculateProgress.
    rewrite Hlast, Hm. simpl.
    repeat match goal with
           | |- context [if ?b then _ else _] => destruct b
           end; eauto.
    destruct (match_batch t); eauto.
  - intros l items Hlast Hm Hni. unfold calculateProgress.
    rewrite Hlast, Hm. simpl.
    assert (Hno : existsb (fun x => strict_eq (Some x)
                                (Some (JStr "Processing submodule batch")))
                          items = false).
    { apply not_true_is_false. intros Hex.
      apply existsb_exists in Hex as (x & Hx & Heq). apply Hni.
      destruct x as [| | |t| |]; simpl in Heq; try discriminate.
      apply String.eqb_eq in Heq as ->. by apply list_elem_of_In. }
    simpl in Hno. rewrite Hno.
    repeat match goal with
           | |- context [if ?b then _ else _] => destruct b
           end; eauto.
  - intros l m Hlast Hm Hns Hna. unfold calculateProgress.
    rewrite Hlast, Hm.
    destruct m as [[| | |t|items|]|]; simpl; try done.
    + by destruct (Hns t).
    + by destruct (Hna items).
Qed.

(** X8. The recorded list of progress updates is append-only: in every
    run of the client opened by [handleSubmit], the list held after any
    further events extends the list held before, so it never shrinks
    and what was recorded is never rewritten. *)
Theorem progressUpdates_append_only (p : page) taskId ctor evs evs' :
  let cbs := page_callbacks (progressUpdates p) in
  let s := steps cbs evs (handleSubmit p taskId ctor).1 in
  progressUpdates (client s)
    `prefix_of` progressUpdates (client (steps cbs evs' s)).
Proof.
  intros cbs s.
  apply (steps_client_inv cbs
           (fun u => progressUpdates (client s) `prefix_of` progressUpdates u)).
  - intros f data u Hf _ Hu. injection Hf as <-.
    unfold GeneratorPage.onMessage.
    assert (Hext : match addUpdate data (progressUpdates u) with
                   | Ok l => progressUpdates u `prefix_of` l
                   | Throw _ => True
                   end).
    { unfold addUpdate. destruct (last (progressUpdates u)).
      - destruct (get j "message"); [|done].
        destruct (get data "message"); [|done].
        destruct (negb (strict_eq a a0)); [by apply prefix_app_r | done].
      - by apply prefix_app_r. }
    destruct (addUpdate data (progressUpdates u)) as [l|e];
      destruct (calculateProgress (progressUpdates p)); simpl;
      try done; by etrans.
  - intros f e u Hf Hu. by injection Hf as <-.
  - intros f x u Hf. discriminate Hf.
  - done.
Qed.

End PageExtras.

(** ** Tags *)

Section TagFacts.
Import Tags.
Variable trim : string -> string.

Lemma handleAddTag_tags s :
  tags (handleAddTag trim s) = tags s \/
  (tags (handleAddTag trim s) = tags s ++ [trim (newTag s)] /\
   trim (newTag s) <> "" /\ trim (newTag s) ∉ tags s).
Proof.
  unfold handleAddTag.
  destruct (String.eqb_spec (trim (newTag s)) ""); simpl; [by left|].
  destruct (bool_decide_reflect (trim (newTag s) ∈ tags s)); simpl;
    [by left | by right].
Qed.

Lemma perform_keeps_tag_set_clean a s :
  NoDup (tags s) -> "" ∉ tags s ->
  NoDup (tags (perform trim a s)) /\ "" ∉ tags (perform trim a s).
Proof.
  intros Hnd Hne.
  assert (Hadd : NoDup (tags (handleAddTag trim s))
                 /\ "" ∉ tags (handleAddTag trim s)).
  { destruct (handleAddTag_tags s) as [->|(-> & Hn & Hni)]; [done|].
    split.
    - apply NoDup_app. split; [done|]. split; [|apply NoDup_singleton].
      intros x Hx Hx'. apply list_elem_of_singleton in Hx'. by subst.
    - intros Hin. apply elem_of_app in Hin as [Hin|Hin]; [done|].
      apply list_elem_of_singleton in Hin. by subst. }
  destruct a as [text| |tag|key]; simpl; auto.
  - split; [by apply NoDup_filter|].
    intros Hin. apply list_elem_of_filter in Hin as [_ Hin]. done.
  - unfold handleTagKeyDown. by destruct (String.eqb key "Enter").
Qed.

(** X9. Whatever the user types, adds and deletes, the tag list never
    holds a tag twice and never holds the empty tag; a tag that is added
    is the trimmed text of the input field, and it is added at the end;
    after a tag is deleted it is no longer in the list, and the other
    tags keep their order. *)
Theorem tags_stay_distinct actions s :
  NoDup (tags s) -> "" ∉ tags s ->
  let s' := foldl (fun s a => perform trim a s) s actions in
  (NoDup (tags s') /\ "" ∉ tags s') /\
  (forall tag, (tag ∉ tags (handleDeleteTag tag s')) /\
               tags (handleDeleteTag tag s')
               = filter (fun t => t <> tag) (tags s')) /\
  (trim (newTag s') <> "" -> trim (newTag s') ∉ tags s' ->
   handleAddTag trim s'
   = {| tags := tags s' ++ [trim (newTag s')]; newTag := "" |}) /\
  (trim (newTag s') = "" \/ trim (newTag s') ∈ tags s' ->
   handleAddTag trim s' = s').
Proof.
  intros Hnd Hne s'.
  assert (Hclean : NoDup (tags s') /\ "" ∉ tags s').
  { subst s'. revert s Hnd Hne.
    induction actions as [|a actions IH]; intros s Hnd Hne; [done|].
    simpl. destruct (perform_keeps_tag_set_clean a s Hnd Hne).
    by apply IH. }
  split; [done|]. split; [|split].
  - intros tag. split; [|done]. simpl.
    intros Hin. apply list_elem_of_filter in Hin as [Hin _]. done.
  - intros Hn Hni. unfold handleAddTag.
    destruct (String.eqb_spec (trim (newTag s')) ""); [done|]. simpl.
    by rewrite bool_decide_eq_false_2.
  - intros [He|Hin]; unfold handleAddTag.
    + rewrite He. done.
    + rewrite (bool_decide_eq_true_2 _ Hin). simpl.
      by rewrite andb_false_r.
Qed.

End TagFacts.

Section TagInstances.
Import Tags.

Lemma tags_witness :
  let s := {| tags := ["rocq"]; newTag := "" |} in
  let s' := foldl (fun s a => perform trim_ascii a s) s
                  [Type_ "  proofs "; KeyDown "Enter"; Type_ "rocq"; Add] in
  NoDup (tags s) /\ ("" ∉ tags s) /\
  NoDup (tags s') /\ tags s' = ["rocq"; "proofs"].
Proof.
  assert (Hnd : NoDup ["rocq"]) by (apply NoDup_singleton).
  assert (Hne : "" ∉ ["rocq"]).
  { intros Hin. apply list_elem_of_singleton in Hin. discriminate Hin. }
  split; [exact Hnd|]. split; [exact Hne|].
  destruct (tags_stay_distinct trim_ascii
              [Type_ "  proofs "; KeyDown "Enter"; Type_ "rocq"; Add]
              {| tags := ["rocq"]; newTag := "" |} Hnd Hne) as [[Hres _] _].
  split; [exact Hres | reflexivity].
Defined.

End TagInstances.

(** ** Further facts about the auth session *)

Section AuthExtras.
Import Js AuthSession AuthSpec AuthSpec2.

Lemma foldl_replay_frame t subs : forall s,
  let s' := foldl (replay t) s subs in
  isRefreshingToken s' = isRefreshingToken s /\
  refreshSubscribers s' = refreshSubscribers s /\
  awaiting s' = awaiting s /\
  count_refresh (net s') = count_refresh (net s) /\
  replayed (net s') = replayed (net s) ++ subs.
Proof.
  induction subs as [|r subs IH]; intros s; simpl.
  - by rewrite app_nil_r.
  - destruct (IH (replay t s r)) as (-> & -> & -> & -> & ->). simpl.
    rewrite count_refresh_app. unfold replayed. rewrite omap_app. simpl.
    rewrite <- app_assoc. repeat split; auto.
Qed.

Lemma foldl_fail_frame subs : forall s,
  let s' := foldl fail_request s subs in
  isRefreshingToken s' = isRefreshingToken s /\
  refreshSubscribers s' = refreshSubscribers s /\
  awaiting s' = awaiting s /\ net s' = net s /\
  rejected s' = rejected s ++ subs /\
  authToken s' = match subs with [] => authToken s | _ => None end.
Proof.
  induction subs as [|r subs IH]; intros s; simpl.
  - by rewrite app_nil_r.
  - destruct (IH (fail_request s r)) as (-> & -> & -> & -> & -> & ->).
    simpl. rewrite <- app_assoc. repeat split; auto. by destruct subs.
Qed.

Lemma dispatch_refresh_state ev s :
  idle s \/ refreshing s ->
  let s' := dispatch ev s in
  (idle s' \/ refreshing s') /\
  (count_refresh (net s') + (if isRefreshingToken s' then 0 else 1)
   <= count_refresh (net s) + (if isRefreshingToken s then 0 else 1)
      + outcomes [ev])%nat /\
  (Forall (fun r => retried r = true) (replayed (net s))
   /\ Forall (fun r => retried r = true) (awaiting s ++ refreshSubscribers s)
   -> Forall (fun r => retried r = true) (replayed (net s'))
      /\ Forall (fun r => retried r = true)
                (awaiting s' ++ refreshSubscribers s')).
Proof.
  intros Hs. unfold idle, refreshing in Hs.
  destruct s as [tok flag subs wait nt rej]; simpl in *.
  destruct Hs as [(-> & -> & ->)|(-> & r0 & ->)];
    destruct ev as [r|t [|e]| |r]; simpl;
    unfold on401, refreshAuthToken, refresh_resolved, refresh_rejected,
      idle, refreshing, outcomes; simpl.
  - destruct (negb (retried r) && negb (includes (url r) "/auth/refresh"));
      simpl.
    + split; [right; eauto|]. rewrite count_refresh_app.
      split; [unfold count_refresh; simpl; lia|].
      intros [H1 _]. unfold replayed. rewrite omap_app, app_nil_r.
      split; [done | by repeat constructor].
    + split; [by left|]. split; [lia | done].
  - split; [by left|]. split; [lia | done].
  - split; [by left|]. split; [lia | done].
  - split; [by left|]. split; [lia | done].
  - split; [by left|]. split; [lia | done].
  - destruct (negb (retried r) && negb (includes (url r) "/auth/refresh"));
      simpl.
    + split; [right; eauto|]. split; [lia|].
      intros [H1 H2]. split; [done|].
      apply Forall_cons in H2 as [H2 H3]. constructor; [done|].
      apply Forall_app. split; [done | by repeat constructor].
    + split; [right; eauto|]. split; [lia | done].
  - destruct (token_truthy t).
    + edestruct (foldl_replay_frame t subs) as (Hf' & Hs' & Hw' & Hc' & Hr').
      rewrite Hf', Hs', Hw', Hc', Hr'. simpl.
      split; [by left|]. rewrite count_refresh_app.
      split; [unfold count_refresh at 2; simpl; lia|].
      intros [H1 H2]. apply Forall_cons in H2 as [H2 H3].
      split; [|constructor].
      unfold replayed at 1. rewrite omap_app. simpl.
      repeat (apply Forall_app; split); auto; by repeat constructor.
    + edestruct (foldl_fail_frame subs) as (Hf' & Hs' & Hw' & Hn' & _).
      rewrite Hf', Hs', Hw', Hn'. simpl.
      split; [by left|]. rewrite count_refresh_app.
      split; [unfold count_refresh at 2; simpl; lia|].
      intros [H1 H2]. apply Forall_cons in H2 as [H2 H3].
      split; [|constructor].
      unfold replayed. rewrite omap_app. simpl.
      apply Forall_app; split; auto; by repeat constructor.
  - edestruct (foldl_fail_frame subs) as (Hf' & Hs' & Hw' & Hn' & _).
    rewrite Hf', Hs', Hw', Hn'. simpl.
    split; [by left|]. split; [lia|].
    intros [H1 H2]. split; [done | constructor].
  - edestruct (foldl_fail_frame subs) as (Hf' & Hs' & Hw' & Hn' & _).
    rewrite Hf', Hs', Hw', Hn'. simpl.
    split; [by left|]. split; [lia|].
    intros [H1 H2]. split; [done | constructor].
  - split; [right; eauto|]. split; [lia | done].
Qed.

Lemma outcomes_cons ev evs :
  outcomes (ev :: evs) = (outcomes [ev] + outcomes evs)%nat.
Proof. unfold outcomes. simpl. by destruct ev. Qed.

Lemma steps_refresh_state evs : forall s,
  idle s \/ refreshing s ->
  let s' := steps evs s in
  (idle s' \/ refreshing s') /\
  (count_refresh (net s') + (if isRefreshingToken s' then 0 else 1)
   <= count_refresh (net s) + (if isRefreshingToken s then 0 else 1)
      + outcomes evs)%nat /\
  (Forall (fun r => retried r = true) (replayed (net s))
   /\ Forall (fun r => retried r = true) (awaiting s ++ refreshSubscribers s)
   -> Forall (fun r => retried r = true) (replayed (net s'))
      /\ Forall (fun r => retried r = true)
                (awaiting s' ++ refreshSubscribers s')).
Proof.
  induction evs as [|ev evs IH]; intros s Hs.
  - simpl. split; [done|]. split; [unfold outcomes; simpl; lia | done].
  - destruct (dispatch_refresh_state ev s Hs) as (H1 & H2 & H3).
    destruct (IH (dispatch ev s) H1) as (H4 & H5 & H6).
    change (steps (ev :: evs) s) with (steps evs (dispatch ev s)).
    rewrite outcomes_cons. split; [done|]. split; [lia | auto].
Qed.

(** X10. Whatever the order in which 401 responses and refresh outcomes
    arrive, starting from an idle session: at any moment the session is
    idle or exactly one refresh call is awaited, and the number of
    refresh calls sent never exceeds the number of refresh outcomes
    received so far by more than one. *)
Theorem auth_one_refresh_in_flight evs s :
  idle s ->
  let s' := steps evs s in
  (idle s' \/ refreshing s') /\
  (count_refresh (net s') <= count_refresh (net s) + outcomes evs + 1)%nat.
Proof.
  intros Hidle s'.
  destruct (steps_refresh_state evs s (or_introl Hidle)) as (H1 & H2 & _).
  split; [done|]. fold s' in H2.
  destruct Hidle as (Hf & _). rewrite Hf in H2.
  destruct (isRefreshingToken s'); lia.
Qed.

(** X11. A request is retried at most once on account of a refresh:
    every request that is ever replayed carries the [_retry] mark, and a
    401 for a request that carries the mark, or for the refresh call
    itself, sends nothing and rejects the request. *)
Theorem auth_retry_at_most_once evs s :
  idle s -> net s = [] ->
  let s' := steps evs s in
  Forall (fun r => retried r = true) (replayed (net s')) /\
  forall r, retried r = true \/ includes (url r) "/auth/refresh" = true ->
    net (dispatch (Resp401 r) s') = net s' /\
    rejected (dispatch (Resp401 r) s') = rejected s' ++ [r] /\
    isRefreshingToken (dispatch (Resp401 r) s') = isRefreshingToken s'.
Proof.
  intros Hidle Hnet s'.
  destruct (steps_refresh_state evs s (or_introl Hidle)) as (_ & _ & H3).
  split.
  - apply H3. destruct Hidle as (_ & -> & ->). rewrite Hnet.
    split; constructor.
  - intros r Hr. simpl. unfold on401.
    assert (Hc : negb (retried r) && negb (includes (url r) "/auth/refresh")
                 = false).
    { destruct Hr as [->| ->]; [done | by rewrite andb_false_r]. }
    by rewrite Hc.
Qed.

(** X12. When the refresh call is rejected after a burst of 401s, no
    request is replayed: every request of the burst is rejected back to
    its caller, the token is cleared, and the session is idle again,
    with the one refresh call as the only traffic. *)
Theorem auth_failed_refresh_rejects_all (s : state) r0 rs :
  idle s -> Forall fresh_request (r0 :: rs) ->
  let s' := steps (map Resp401 (r0 :: rs) ++ [RefreshRejected]) s in
  net s' = net s ++ [PostRefresh] /\
  rejected s' = rejected s ++ map mark_retried (r0 :: rs) /\
  authToken s' = None /\ idle s'.
Proof.
  intros (Hflag & Hsubs & Hwait) Hfresh s'.
  apply Forall_cons in Hfresh as [[Hr Hu] Hfresh].
  assert (Hburst : steps (map Resp401 (r0 :: rs)) s
    = {| authToken := authToken s; isRefreshingToken := true;
         refreshSubscribers := map mark_retried rs;
         awaiting := [mark_retried r0]; net := net s ++ [PostRefresh];
         rejected := rejected s |}).
  { simpl. unfold on401, refreshAuthToken.
    rewrite Hr, Hu, Hflag. simpl. rewrite subscribe_all by done.
    simpl. by rewrite Hsubs, Hwait. }
  subst s'. unfold steps in *. rewrite foldl_app, Hburst. simpl.
  unfold refresh_rejected. simpl.
  edestruct (foldl_fail_frame (map mark_retried rs)) as
    (Hf' & Hs' & Hw' & Hn' & Hrej & Htok).
  rewrite Hn', Hrej, Htok. simpl.
  split; [done|]. split; [by rewrite <- app_assoc|].
  split; [by destruct (map mark_retried rs)|].
  unfold idle. by rewrite Hf', Hs', Hw'.
Qed.

End AuthExtras.

Section AuthExtraInstances.
Import Js AuthSession AuthSpec AuthSpec2.

Lemma auth_one_refresh_witness :
  let evs := [Resp401 (get_request 1 "/learning-paths");
              Resp401 (get_request 2 "/auth/credits");
              RefreshResolved (Some "t2") Completes;
              Resp401 (get_request 3 "/learning-paths")] in
  idle (logged_in "t1") /\
  (count_refresh (net (steps evs (logged_in "t1"))) <= 0 + 1 + 1)%nat.
Proof.
  assert (Hidle : idle (logged_in "t1")) by (repeat split).
  split; [exact Hidle|].
  exact (proj2 (auth_one_refresh_in_flight _ (logged_in "t1") Hidle)).
Defined.

Lemma auth_retry_witness :
  let r := mark_retried (get_request 1 "/learning-paths") in
  idle (logged_in "t1") /\ net (logged_in "t1") = [] /\
  net (dispatch (Resp401 r) (logged_in "t1")) = [] /\
  rejected (dispatch (Resp401 r) (logged_in "t1")) = [r].
Proof.
  assert (Hidle : idle (logged_in "t1")) by (repeat split).
  destruct (auth_retry_at_most_once [] (logged_in "t1") Hidle eq_refl)
    as [_ H].
  destruct (H (mark_retried (get_request 1 "/learning-paths"))
              (or_introl eq_refl)) as (Hn & Hr & _).
  split; [exact Hidle|]. split; [reflexivity|].
  split; [exact Hn | exact Hr].
Defined.

Lemma auth_failed_refresh_witness :
  let r0 := get_request 1 "/learning-paths" in
  let rs := [get_request 2 "/auth/credits"] in
  let s' := steps (map Resp401 (r0 :: rs) ++ [RefreshRejected])
                  (logged_in "t1") in
  idle (logged_in "t1") /\ Forall fresh_request (r0 :: rs) /\
  net s' = [PostRefresh] /\ authToken s' = None.
Proof.
  assert (Hidle : idle (logged_in "t1")) by (repeat split).
  assert (Hfresh : Forall fresh_request
            [get_request 1 "/learning-paths"; get_request 2 "/auth/credits"])
    by (repeat constructor).
  destruct (auth_failed_refresh_rejects_all (logged_in "t1") _ _ Hidle Hfresh)
    as (Hn & _ & Ht & _).
  split; [exact Hidle|]. split; [exact Hfresh|].
  split; [exact Hn | exact Ht].
Defined.

End AuthExtraInstances.

(** ** Further facts about the history facade *)

Section FacadeExtras.
Import Js HistorySpec History.
Context {L : Type}.
Variable local_update : string -> json -> L -> L * res json.
Variable local_delete : string -> L -> L * res json.
Variable local_preview :
  string -> option string -> option string -> L -> L * res json.

Local Arguments truthy : simpl never.
Local Arguments get : simpl never.

Lemma token_not_truthy (t : option string) :
  ~ (exists t', t = Some t' /\ t' <> "") ->
  match t with
  | Some t' => negb (String.eqb t' "")
  | None => false
  end = false.
Proof.
  intros Hn. destruct t as [t'|]; [|done].
  destruct (String.eqb_spec t' ""); [done|]. destruct Hn. by exists t'.
Qed.

(** X13. [updateHistoryEntry] and [deleteHistoryEntry] route alike.
    Without a truthy token no request is sent and the local service does
    the work, a second time when its first attempt throws. With one, the
    PUT or DELETE for the entry is sent; when it succeeds the result is
    [{success: true}] and the local store is left alone; when it is
    rejected and the token has been cleared meanwhile, the local service
    is used instead of raising the error. *)
Theorem history_writes_route entryId data rep (w : world L) :
  let routes (out : world L * res json) (q : http)
             (local_op : L -> L * res json) :=
    (~ authenticated w ->
       net out.1 = net w /\ authToken out.1 = authToken w /\
       let first := local_op (local w) in
       let last := match first.2 with
                   | Ok _ => first
                   | Throw _ => local_op first.1
                   end in
       out.2 = last.2 /\ local out.1 = last.1) /\
    (authenticated w ->
       net out.1 = net w ++ [q] /\
       (forall d, outcome rep = Ok d ->
          out.2 = Ok (JObj [("success", JBool true)]) /\
          local out.1 = local w) /\
       (forall e, outcome rep = Throw e ->
          ~ (exists t, authToken_on_resume rep = Some t /\ t <> "") ->
          out.2 = (local_op (local w)).2 /\
          local out.1 = (local_op (local w)).1)) in
  routes (History.updateHistoryEntry local_update entryId data rep w)
         {| method := "PUT"; path := "/learning-paths/" ++ entryId;
            params := []; body := Some data |}
         (local_update entryId data) /\
  routes (History.deleteHistoryEntry local_delete entryId rep w)
         {| method := "DELETE"; path := "/learning-paths/" ++ entryId;
            params := []; body := None |}
         (local_delete entryId).
Proof.
  intros routes. subst routes. cbv beta.
  split; (split;
    [ intros Hn; apply not_authenticated_token in Hn;
      unfold_facade; simpl; rewrite Hn; simpl;
      match goal with
      | |- context [?f (local w)] =>
          destruct (f (local w)) as [l0 [r0|e0]] eqn:Hl; simpl; [done|];
          rewrite Hn; simpl; by destruct (f l0)
      end
    | intros Ha; apply authenticated_token in Ha;
      unfold_facade; simpl; rewrite Ha; simpl;
      split; [|split];
      [ destruct (outcome rep); simpl; [done|];
        destruct (authToken_on_resume rep) as [t|]; simpl;
          [destruct (negb (String.eqb t "")); simpl|]; try done;
          match goal with
          | |- context [let (_, _) := ?f (local w) in _] =>
              by destruct (f (local w))
          end
      | by intros d ->
      | intros e -> Hn; apply token_not_truthy in Hn; simpl;
        rewrite Hn; simpl;
        match goal with
        | |- context [let (_, _) := ?f (local w) in _] =>
            by destruct (f (local w))
        end ] ]).
Qed.

(** X14. [getHistoryPreview] writes to the preview cache only a payload
    that the server returned and that is an object with truthy
    [entries], or an array: it is stored under the key
    [history_preview_<sortBy>_<filterSource or 'null'>_<searchTerm or
    'null'>] with the time read after the response, and it is the
    result of the call; what the local service returns is never cached.
    Without a truthy token the call sends nothing. *)
Theorem getHistoryPreview_caches_server_payloads_only
    sortBy filterSource searchTerm now now' quota_ok rep (w : world L) :
  let out := History.getHistoryPreview local_preview sortBy filterSource
               searchTerm now now' quota_ok rep w in
  let or_null (x : option string) : string :=
    match x with
    | Some t => if String.eqb t "" then "null" else t
    | None => "null"
    end in
  let key := ("history_preview_" ++ sortBy ++ "_" ++ or_null filterSource
              ++ "_" ++ or_null searchTerm)%string in
  (sessionStorage out.1 = sessionStorage w \/
   exists d,
     authenticated w /\ outcome rep = Ok d /\
     ((exists items, d = JArr items) \/
      (exists fs, d = JObj fs /\ truthy (assoc "entries" fs) = true)) /\
     out.2 = Ok d /\ local out.1 = local w /\
     sessionStorage out.1
     = <[key := {| data := d; timestamp := now' |}]> (sessionStorage w)) /\
  (~ authenticated w ->
     net out.1 = net w /\
     forall l r,
       local_preview sortBy filterSource searchTerm (local w) = (l, Ok r) ->
       out.2 = Ok r /\ local out.1 = l /\ authToken out.1 = authToken w).
Proof.
  intros out or_null key.
  assert (Hkey : key = cacheKey sortBy filterSource searchTerm).
  { subst key or_null. unfold cacheKey, given.
    destruct filterSource as [f|], searchTerm as [t|]; simpl;
      repeat match goal with
             | |- context [String.eqb ?x ""] => destruct (String.eqb x "")
             end; done. }
  clearbody key. subst key. clear or_null. split.
  - subst out. unfold_facade. simpl.
    destruct (match authToken w with
              | Some t => negb (String.eqb t "")
              | None => false
              end) eqn:Ha; simpl.
    2:{ left.
        destruct (local_preview sortBy filterSource searchTerm (local w))
          as [l0 [r0|e0]]; simpl; [done|].
        destruct (is_auth_error e0); simpl;
          by destruct (local_preview sortBy filterSource searchTerm l0). }
    assert (Hauth : authenticated w).
    { destruct (authToken w) as [t|] eqn:Ht; [|done]. exists t.
      split; [done|]. intros ->. done. }
    destruct (match sessionStorage w !! cacheKey sortBy filterSource searchTerm
              with
              | Some e => if (now - timestamp e <? cacheTimeMs)%Z
                          then Some (data e) else None
              | None => None
              end) as [d|]; simpl; [by left|].
    destruct (outcome rep) as [d|e] eqn:Hrep; simpl.
    + destruct (truthy (Some d)) eqn:Hd; simpl; [|by left].
      destruct (has_entries d) eqn:He; simpl; [|by left].
      destruct quota_ok; simpl; [|by left].
      right. exists d. repeat split; try done.
      destruct d as [| | | |items|fs]; try done; [left|right]; eauto.
    + left. destruct (is_auth_error e); simpl;
        by destruct (local_preview sortBy filterSource searchTerm (local w)).
  - intros Hn. apply not_authenticated_token in Hn.
    subst out. unfold_facade. simpl. rewrite Hn. simpl.
    destruct (local_preview sortBy filterSource searchTerm (local w))
      as [l0 [r0|e0]] eqn:Hl; simpl.
    + split; [done|]. by intros l r [= <- <-].
    + split; [|done].
      destruct (is_auth_error e0); simpl;
        by destruct (local_preview sortBy filterSource searchTerm l0).
Qed.

(** X15. The cache key does not tell a filter (or a search term) that
    is the text "null" from an absent one: although the two requests
    differ, a preview filtered by the source "null" is answered, without
    any request, from an unfiltered preview cached less than 60 seconds
    before. *)
Theorem getHistoryPreview_key_confuses_null
    sortBy searchTerm now now' quota_ok rep (w : world L) c :
  authenticated w ->
  sessionStorage w !! cacheKey sortBy None searchTerm = Some c ->
  (now - timestamp c < cacheTimeMs)%Z ->
  preview_request sortBy (Some "null") searchTerm
    <> preview_request sortBy None searchTerm /\
  History.getHistoryPreview local_preview sortBy (Some "null") searchTerm
    now now' quota_ok rep w = (w, Ok (data c)).
Proof.
  intros Ha Hc Hage. apply authenticated_token in Ha. split.
  - unfold preview_request. simpl. intros [=].
    by destruct (given searchTerm).
  - unfold_facade. simpl. rewrite Ha. simpl.
    change (cacheKey sortBy (Some "null") searchTerm)
      with (cacheKey sortBy None searchTerm).
    rewrite Hc. simpl.
    by destruct (Z.ltb_spec (now - timestamp c) cacheTimeMs); [|lia].
Qed.

End FacadeExtras.

Section FacadeExtraInstances.
Import Js History HistorySpec.

Lemma history_writes_route_witness :
  let rep := {| outcome := Throw (HttpError 401);
                authToken_on_resume := None |} in
  let data := JObj [("favorite", JBool true)] in
  (~ authenticated signed_out /\
   net (deleteHistoryEntry "local-0" rep signed_out).1 = []) /\
  (authenticated (signed_in "tok") /\
   (updateHistoryEntry "7f3a-41" data rep (signed_in "tok")).2
   = Ok (JObj [("success", JBool false)])).
Proof.
  intros rep data.
  assert (Hout : ~ authenticated signed_out).
  { intros (t & Ht & _). discriminate Ht. }
  assert (Hin : authenticated (signed_in "tok")).
  { exists "tok". split; [reflexivity | discriminate]. }
  assert (Hgone : ~ (exists t, authToken_on_resume rep = Some t /\ t <> "")).
  { intros (t & Ht & _). discriminate Ht. }
  split.
  - destruct (history_writes_route LocalStore.updateHistoryEntry
                LocalStore.deleteHistoryEntry "local-0" data rep signed_out)
      as [_ [Hlocal _]].
    split; [exact Hout|]. exact (proj1 (Hlocal Hout)).
  - destruct (history_writes_route LocalStore.updateHistoryEntry
                LocalStore.deleteHistoryEntry "7f3a-41" data rep
                (signed_in "tok")) as [[_ Hremote] _].
    destruct (Hremote Hin) as (_ & _ & Hfail).
    split; [exact Hin|]. exact (proj1 (Hfail _ eq_refl Hgone)).
Defined.

Lemma getHistoryPreview_caches_witness :
  let payload := JArr [path] in
  let rep := {| outcome := Ok payload; authToken_on_resume := Some "tok" |} in
  let out := getHistoryPreview "creation_date" (Some "imported") None
               1000 1250 true rep (signed_in "tok") in
  sessionStorage out.1 !! "history_preview_creation_date_imported_null"
  = Some {| data := payload; timestamp := 1250 |} /\
  out.2 = Ok payload.
Proof.
  intros payload rep out.
  assert (Hlook : sessionStorage out.1
                    !! "history_preview_creation_date_imported_null"
                  <> None) by (vm_compute; discriminate).
  destruct (getHistoryPreview_caches_server_payloads_only
              LocalStore.getHistoryPreview "creation_date" (Some "imported")
              None 1000 1250 true rep (signed_in "tok"))
    as [[Hsame|(d & _ & Hd & _ & Hres & _ & Hst)] _].
  - exfalso. apply Hlook. subst out.
    unfold HistorySpec.getHistoryPreview. rewrite Hsame.
    apply lookup_empty.
  - injection Hd as <-. subst out.
    unfold HistorySpec.getHistoryPreview.
    split; [|exact Hres]. rewrite Hst. apply lookup_insert_eq.
Defined.

Lemma getHistoryPreview_key_witness :
  let c := {| data := JObj [("entries", JArr [path])]; timestamp := 1000 |} in
  let w := {| authToken := Some "tok";
              sessionStorage :=
                {[ cacheKey "creation_date" None None := c ]};
              local := []; net := [] |} in
  let rep := {| outcome := Ok JNull; authToken_on_resume := Some "tok" |} in
  authenticated w /\
  getHistoryPreview "creation_date" (Some "null") None 2000 2100 true rep w
  = (w, Ok (data c)).
Proof.
  intros c w rep.
  assert (Hin : authenticated w).
  { exists "tok". split; [reflexivity | discriminate]. }
  assert (Hc : History.sessionStorage w !! cacheKey "creation_date" None None
               = Some c) by apply lookup_singleton_eq.
  assert (Hage : (2000 - timestamp c < cacheTimeMs)%Z) by (vm_compute; done).
  split; [exact Hin|].
  exact (proj2 (getHistoryPreview_key_confuses_null
                  LocalStore.getHistoryPreview "creation_date" None
                  2000 2100 true rep w c Hin Hc Hage)).
Defined.

End FacadeExtraInstances.

(** ** The rest of the history facade *)

Section HistoryMoreFacts.
Import Js JsObject HistorySpec History HistoryMore.
Context {L : Type}.
Variable local_entry : string -> L -> L * res jsval.
Variable local_import : string -> L -> L * res json.
Variable local_history : L -> L * res json.

Local Arguments truthy : simpl never.
Local Arguments get : simpl never.

(** X16. [getHistoryEntry]: without a truthy token the local service
    answers and nothing is sent. With one, a GET for the entry is sent;
    its answer is returned as [{entry}]; when it is rejected the error of
    the server never reaches the caller: the token is cleared on a 401
    or 403, the local service is asked, and the result is its entry when
    that carries a truthy [entry], the fixed "not found" error
    otherwise. *)
Theorem getHistoryEntry_routes entryId rep (w : world L) :
  let out := HistoryMore.getHistoryEntry local_entry entryId rep w in
  let q := {| method := "GET"; path := "/learning-paths/" ++ entryId;
              params := []; body := None |} in
  (~ authenticated w ->
     net out.1 = net w /\ authToken out.1 = authToken w /\
     out.2 = (local_entry entryId (local w)).2 /\
     local out.1 = (local_entry entryId (local w)).1) /\
  (authenticated w ->
     net out.1 = net w ++ [q] /\
     (forall d, outcome rep = Ok d ->
        out.2 = Ok (Some (JObj [("entry", d)])) /\ local out.1 = local w /\
        authToken out.1 = authToken_on_resume rep) /\
     (forall e, outcome rep = Throw e ->
        authToken out.1
        = (if is_auth_error e then None else authToken_on_resume rep) /\
        forall l localEntry,
          local_entry entryId (local w) = (l, Ok localEntry) ->
          local out.1 = l /\
          out.2 = if truthy (prop localEntry "entry") then Ok localEntry
                  else Throw not_found)).
Proof.
  intros out q. split.
  - intros Hn. apply not_authenticated_token in Hn.
    subst out. unfold_more. simpl. rewrite Hn. simpl.
    by destruct (local_entry entryId (local w)).
  - intros Ha. apply authenticated_token in Ha.
    subst out. unfold_more. simpl. rewrite Ha. simpl.
    split; [|split].
    + destruct (outcome rep) as [d|e]; simpl; [done|].
      destruct (is_auth_error e); simpl;
        destruct (local_entry entryId (local w)) as [l [[j|]|e']]; simpl;
        try done;
        destruct (truthy (Some j)); simpl; try done;
        destruct (get j "entry") as [x|]; simpl; try done;
        by destruct (truthy x).
    + by intros d ->.
    + intros e ->. simpl. split.
      * destruct (is_auth_error e); simpl;
          destruct (local_entry entryId (local w)) as [l [[j|]|e']]; simpl;
          try done;
          destruct (truthy (Some j)); simpl; try done;
          destruct (get j "entry") as [x|]; simpl; try done;
          by destruct (truthy x).
      * intros l localEntry Hl.
        destruct (is_auth_error e); simpl; rewrite Hl; simpl;
          (destruct localEntry as [j|]; [|done]);
          unfold prop;
          (destruct j as [|b|n|s|items|fs]; simpl; try done;
           unfold get; simpl;
           [destruct (truthy (Some (JBool b)))
           |destruct (truthy (Some (JNum n)))
           |destruct (truthy (Some (JStr s)))
           |..]; simpl; try done;
           by destruct (truthy (assoc "entry" fs))).
Qed.

(** X17. [importLearningPath] never raises the error of the server:
    text that does not parse is handed to the local service without any
    request; with a token, POST /learning-paths is sent with the body
    [{topic, path_data, favorite: false, tags: [], source: 'imported'}],
    where [topic] is that of the parsed path or 'Untitled' and
    [path_data] the parsed path, and the answer gives [{success: true,
    entry_id, topic}], the local store staying untouched; and when the
    request is rejected the local service imports the text instead. *)
Theorem importLearningPath_routes jsonData parsed rep (w : world L) :
  let out := HistoryMore.importLearningPath local_import jsonData parsed
               rep w in
  let fallback := local_import jsonData (local w) in
  (parsed = None ->
     net out.1 = net w /\ authToken out.1 = authToken w /\
     out.2 = fallback.2 /\ local out.1 = fallback.1) /\
  (forall learningPath topic,
     parsed = Some learningPath -> authenticated w ->
     get learningPath "topic" = Ok topic ->
     let sent_topic := match topic with
                       | Some t => if truthy topic then t
                                   else JStr "Untitled"
                       | None => JStr "Untitled"
                       end in
     net out.1
     = net w ++ [{| method := "POST"; path := "/learning-paths";
                    params := [];
                    body := Some (JObj [("topic", sent_topic);
                                        ("path_data", learningPath);
                                        ("favorite", JBool false);
                                        ("tags", JArr []);
                                        ("source", JStr "imported")]) |}] /\
     (forall d path_id,
        outcome rep = Ok d -> get d "path_id" = Ok path_id ->
        out.2 = Ok (JObj (("success", JBool true)
                          :: match path_id with
                             | Some id => [("entry_id", id)]
                             | None => []
                             end
                          ++ match topic with
                             | Some t => [("topic", t)]
                             | None => []
                             end)) /\
        local out.1 = local w) /\
     (forall e, outcome rep = Throw e ->
        out.2 = fallback.2 /\ local out.1 = fallback.1)).
Proof.
  intros out fallback. subst out fallback. split.
  - intros ->. unfold_more. simpl.
    by destruct (local_import jsonData (local w)).
  - intros learningPath topic -> Ha Htopic sent_topic.
    apply authenticated_token in Ha.
    assert (Hreq : import_request learningPath topic
              = {| method := "POST"; path := "/learning-paths";
                   params := [];
                   body := Some (JObj [("topic", sent_topic);
                                       ("path_data", learningPath);
                                       ("favorite", JBool false);
                                       ("tags", JArr []);
                                       ("source", JStr "imported")]) |}).
    { unfold import_request, object, or_else. subst sent_topic.
      destruct topic as [t|]; [|done]. by destruct (truthy (Some t)). }
    unfold_more. simpl. rewrite Ha. simpl. rewrite Htopic. simpl.
    rewrite Hreq. split; [|split].
    + destruct (outcome rep) as [d|e]; simpl.
      * destruct (get d "path_id"); simpl; [done|].
        by destruct (local_import jsonData (local w)).
      * by destruct (local_import jsonData (local w)).
    + intros d path_id -> Hid. simpl. rewrite Hid. simpl.
      by destruct path_id, topic.
    + intros e ->. simpl. by destruct (local_import jsonData (local w)).
Qed.

Lemma assoc_set_field k v fs : assoc k (set_field k v fs) = Some v.
Proof.
  induction fs as [|[k' v'] fs IH]; simpl.
  - by rewrite String.eqb_refl.
  - destruct (String.eqb_spec k k'); simpl.
    + by rewrite String.eqb_refl.
    + by destruct (String.eqb_spec k k').
Qed.

Lemma assoc_set_field_ne k k0 v fs :
  k0 <> k -> assoc k0 (set_field k v fs) = assoc k0 fs.
Proof.
  intros Hne. induction fs as [|[k' v'] fs IH]; simpl.
  - by destruct (String.eqb_spec k0 k).
  - destruct (String.eqb_spec k k'); simpl.
    + subst k'. by destruct (String.eqb_spec k0 k).
    + by rewrite IH.
Qed.

Lemma assoc_remove_field k fs : assoc k (remove_field k fs) = None.
Proof.
  induction fs as [|[k' v'] fs IH]; simpl; [done|].
  destruct (String.eqb_spec k k'); simpl; [done|].
  by destruct (String.eqb_spec k k').
Qed.

Lemma assoc_remove_field_ne k k0 fs :
  k0 <> k -> assoc k0 (remove_field k fs) = assoc k0 fs.
Proof.
  intros Hne. induction fs as [|[k' v'] fs IH]; simpl; [done|].
  destruct (String.eqb_spec k k'); simpl.
  - subst k'. by destruct (String.eqb_spec k0 k).
  - by rewrite IH.
Qed.

Lemma with_id_object fs :
  exists m, with_id (JObj fs) = Ok m /\
    get m "id" = get (JObj fs) "path_id" /\
    forall k, k <> "id" -> get m k = get (JObj fs) k.
Proof.
  unfold with_id, get. simpl. eexists. split; [done|].
  destruct (assoc "path_id" fs) as [v|]; simpl.
  - split; [by rewrite assoc_set_field|].
    intros k Hk. by rewrite assoc_set_field_ne.
  - split; [by rewrite assoc_remove_field|].
    intros k Hk. by rewrite assoc_remove_field_ne.
Qed.

Lemma map_res_cons {A B} (f : A -> res B) x l :
  map_res f (x :: l)
  = match f x with
    | Throw e => Throw e
    | Ok y => match map_res f l with
              | Throw e => Throw e
              | Ok ys => Ok (y :: ys)
              end
    end.
Proof. done. Qed.

Lemma map_with_id_objects items :
  Forall (fun e => exists fs, e = JObj fs) items ->
  exists mapped, map_res with_id items = Ok mapped /\
    length mapped = length items /\
    forall i entry, items !! i = Some entry ->
      exists m, mapped !! i = Some m /\
        get m "id" = get entry "path_id" /\
        forall k, k <> "id" -> get m k = get entry k.
Proof.
  induction 1 as [|entry items [fs ->] _ IH].
  - exists []. by repeat split.
  - destruct IH as (mapped & Hm & Hlen & Hall).
    destruct (with_id_object fs) as (m & Hw & Hid & Hrest).
    exists (m :: mapped). rewrite map_res_cons, Hw, Hm. split; [done|].
    split; [simpl; by rewrite Hlen|].
    intros [|i] entry; simpl.
    + intros [= <-]. by exists m.
    + apply Hall.
Qed.

(** X18. [exportHistory] under a token, when the server answers with an
    array of entry objects: one GET /learning-paths?per_page=1000 is
    sent, the local store is not read, and the export lists as many
    entries, in the same order, each with every property of the
    server's entry except that [id] now holds its [path_id]. *)
Theorem exportHistory_entries_carry_their_id now rep (w : world L) d items :
  authenticated w -> outcome rep = Ok d ->
  get d "entries" = Ok (Some (JArr items)) ->
  Forall (fun e => exists fs, e = JObj fs) items ->
  let out := HistoryMore.exportHistory local_history now rep w in
  exists mapped,
    out.2 = Ok (JObj [("entries", JArr mapped); ("last_updated", JStr now)])
    /\ net out.1
       = net w ++ [{| method := "GET";
                      path := "/learning-paths?per_page=1000";
                      params := []; body := None |}]
    /\ local out.1 = local w /\
    length mapped = length items /\
    forall i entry, items !! i = Some entry ->
      exists m, mapped !! i = Some m /\
        get m "id" = get entry "path_id" /\
        forall k, k <> "id" -> get m k = get entry k.
Proof.
  intros Ha Hrep Hent Hobj out. apply authenticated_token in Ha.
  destruct (map_with_id_objects items Hobj) as (mapped & Hm & Hlen & Hall).
  exists mapped. subst out. unfold_more. simpl.
  rewrite Ha. simpl. rewrite Hrep. simpl. rewrite Hent. simpl.
  rewrite Hm. simpl. by repeat split.
Qed.

(** X19. [exportHistory] falls back to the raw local history, and
    returns what the local service returns, whenever the request is
    rejected or the answer has no [entries] array; it sends nothing
    without a token. *)
Theorem exportHistory_falls_back now rep (w : world L) :
  let out := HistoryMore.exportHistory local_history now rep w in
  let fallback := local_history (local w) in
  (authenticated w ->
     (match outcome rep with
      | Throw _ => True
      | Ok d => match get d "entries" with
                | Ok (Some (JArr _)) => False
                | _ => True
                end
      end) ->
     out.2 = fallback.2 /\ local out.1 = fallback.1 /\
     net out.1 = net w ++ [export_request]) /\
  (~ authenticated w ->
     net out.1 = net w /\
     forall l r, fallback = (l, Ok r) -> out.2 = Ok r /\ local out.1 = l).
Proof.
  intros out fallback. subst out fallback. split.
  - intros Ha Hbad. apply authenticated_token in Ha.
    unfold_more. simpl. rewrite Ha. simpl.
    destruct (outcome rep) as [d|e]; simpl.
    + destruct (get d "entries") as [[[| | | |items|]|]|e]; simpl;
        try done; by destruct (local_history (local w)).
    + by destruct (local_history (local w)).
  - intros Hn. apply not_authenticated_token in Hn.
    unfold_more. simpl. rewrite Hn. simpl.
    destruct (local_history (local w)) as [l [r|e]] eqn:Hl; simpl.
    + split; [done|]. by intros l' r' [= <- <-].
    + split; [|done]. by destruct (local_history l).
Qed.

End HistoryMoreFacts.

Section HistoryMoreInstances.
Import Js JsObject HistorySpec History HistoryMore.

Lemma getHistoryEntry_routes_witness :
  let nothing_stored : string -> LocalStore.store -> _ :=
    fun _ l => (l, Ok None) in
  let rep := {| outcome := Throw (HttpError 403);
                authToken_on_resume := Some "tok" |} in
  let out := getHistoryEntry nothing_stored "7f3a-41" rep (signed_in "tok") in
  authenticated (signed_in "tok") /\
  authToken out.1 = None /\ out.2 = Throw not_found.
Proof.
  intros nothing_stored rep out.
  assert (Hin : authenticated (signed_in "tok")).
  { exists "tok". split; [reflexivity | discriminate]. }
  destruct (getHistoryEntry_routes nothing_stored "7f3a-41" rep
              (signed_in "tok")) as [_ Hremote].
  destruct (Hremote Hin) as (_ & _ & Hfail).
  destruct (Hfail _ eq_refl) as [Htok Hres].
  split; [exact Hin|]. split; [exact Htok|].
  exact (proj2 (Hres _ _ eq_refl)).
Defined.

Lemma importLearningPath_routes_witness :
  let import_locally : string -> LocalStore.store -> _ :=
    fun text l => (l ++ [("local-0", JStr text)],
                   Ok (JObj [("success", JBool true)])) in
  let rep := {| outcome := Ok (JObj [("path_id", JStr "7f3a-41")]);
                authToken_on_resume := Some "tok" |} in
  let lp := JObj [("modules", JArr [])] in
  let out := importLearningPath import_locally "{}" (Some lp) rep
               (signed_in "tok") in
  net (importLearningPath import_locally "{topic" None rep
         (signed_in "tok")).1 = [] /\
  authenticated (signed_in "tok") /\
  net out.1
  = [{| method := "POST"; History.path := "/learning-paths"; params := [];
        body := Some (JObj [("topic", JStr "Untitled");
                            ("path_data", JObj [("modules", JArr [])]);
                            ("favorite", JBool false);
                            ("tags", JArr []);
                            ("source", JStr "imported")]) |}] /\
  out.2 = Ok (JObj [("success", JBool true); ("entry_id", JStr "7f3a-41")]).
Proof.
  intros import_locally rep lp out.
  assert (Hin : authenticated (signed_in "tok")).
  { exists "tok". split; [reflexivity | discriminate]. }
  split.
  - destruct (importLearningPath_routes import_locally "{topic" None rep
                (signed_in "tok")) as [Hbad _].
    exact (proj1 (Hbad eq_refl)).
  - destruct (importLearningPath_routes import_locally "{}" (Some lp) rep
                (signed_in "tok")) as [_ Hgood].
    destruct (Hgood lp None eq_refl Hin eq_refl) as (Hnet & Hok & _).
    split; [exact Hin|]. split; [exact Hnet|].
    exact (proj1 (Hok _ _ eq_refl eq_refl)).
Defined.

Lemma exportHistory_ids_witness :
  let no_history : LocalStore.store -> _ := fun l => (l, Ok (JObj [])) in
  let entry := JObj [("path_id", JStr "7f3a-41"); ("topic", JStr "Rocq")] in
  let d := JObj [("entries", JArr [entry]); ("total", JNum 1)] in
  let rep := {| outcome := Ok d; authToken_on_resume := Some "tok" |} in
  let out := exportHistory no_history "2025-01-01T00:00:00.000Z" rep
               (signed_in "tok") in
  authenticated (signed_in "tok") /\
  Forall (fun e => exists fs, e = JObj fs) [entry] /\
  net out.1
  = [{| method := "GET"; History.path := "/learning-paths?per_page=1000";
        params := []; body := None |}] /\
  exists mapped m,
    out.2 = Ok (JObj [("entries", JArr mapped);
                      ("last_updated", JStr "2025-01-01T00:00:00.000Z")]) /\
    mapped = [m] /\
    get m "id" = Ok (Some (JStr "7f3a-41")) /\
    get m "topic" = Ok (Some (JStr "Rocq")).
Proof.
  intros no_history entry d rep out.
  assert (Hin : authenticated (signed_in "tok")).
  { exists "tok". split; [reflexivity | discriminate]. }
  assert (Hobj : Forall (fun e => exists fs, e = JObj fs) [entry]).
  { repeat constructor. eexists. reflexivity. }
  destruct (exportHistory_entries_carry_their_id no_history
              "2025-01-01T00:00:00.000Z" rep (signed_in "tok") d [entry]
              Hin eq_refl eq_refl Hobj)
    as (mapped & Hres & Hnet & _ & Hlen & Hall).
  split; [exact Hin|]. split; [exact Hobj|]. split; [exact Hnet|].
  destruct (Hall 0%nat entry eq_refl) as (m & Hm & Hid & Hrest).
  exists mapped, m. split; [exact Hres|]. split.
  - destruct mapped as [|m' [|m'' mapped]]; try discriminate Hlen.
    injection Hm as ->. reflexivity.
  - split; [exact Hid|]. refine (Hrest "topic" _). discriminate.
Defined.

Lemma exportHistory_falls_back_witness :
  let raw := JObj [("entries", JArr []); ("last_updated", JNull)] in
  let raw_history : LocalStore.store -> _ := fun l => (l, Ok raw) in
  let rep := {| outcome := Throw (HttpError 500);
                authToken_on_resume := Some "tok" |} in
  let out := exportHistory raw_history "2025-01-01T00:00:00.000Z" rep
               (signed_in "tok") in
  authenticated (signed_in "tok") /\ out.2 = Ok raw.
Proof.
  intros raw raw_history rep out.
  assert (Hin : authenticated (signed_in "tok")).
  { exists "tok". split; [reflexivity | discriminate]. }
  destruct (exportHistory_falls_back raw_history "2025-01-01T00:00:00.000Z"
              rep (signed_in "tok")) as [Hremote _].
  split; [exact Hin|]. exact (proj1 (Hremote Hin I)).
Defined.

End HistoryMoreInstances.

(** ** The credential store *)

Section CredentialFacts.
Import Js JsObject Credentials.

Local Arguments truthy : simpl never.

Variable number_text : Z -> string.
Variable ks : keys.
Hypothesis first_second : first_key ks <> second_key ks.
Hypothesis first_remember : first_key ks <> remember_key ks.
Hypothesis second_remember : second_key ks <> remember_key ks.

Lemma holds_text_prints x a :
  holds_text x a -> toString_val number_text (or_empty x) = Ok a.
Proof.
  intros [->|[-> [->| ->]]]; try done.
  unfold or_empty, truthy. by destruct (String.eqb_spec a "") as [->|].
Qed.

Lemma save_remember first second a b st :
  toString_val number_text (or_empty first) = Ok a ->
  toString_val number_text (or_empty second) = Ok b ->
  call (save None number_text ks first second true) st
  = (<[remember_key ks := "true"]>
       (<[second_key ks := b]> (<[first_key ks := a]> st)),
     Ok (first, second, true)).
Proof.
  intros Ha Hb. unfold_store. rewrite Ha. simpl. rewrite Hb. simpl.
  by repeat (case_decide; simpl; try done).
Qed.

Lemma save_forget first second st :
  call (save None number_text ks first second false) st
  = (delete (remember_key ks)
       (delete (second_key ks) (delete (first_key ks) st)),
     Ok (first, second, false)).
Proof. unfold_store. simpl. by repeat (case_decide; simpl; try done). Qed.

Lemma save_clears first second st :
  (call (save None number_text ks first second false) st).1
  = (call (clearSaved None ks) st).1.
Proof. unfold_store. simpl. by repeat (case_decide; simpl; try done). Qed.

Lemma getSaved_reads st :
  call (getSaved None ks) st
  = (st, Ok (if bool_decide (st !! remember_key ks = Some "true")
             then (or_null (st !! first_key ks),
                   or_null (st !! second_key ks), true)
             else (None, None, false))).
Proof.
  unfold_store. simpl. repeat (case_decide; simpl; try done).
Qed.

Lemma getSaved_swallows fails_at st :
  exists r, call (getSaved fails_at ks) st = (st, Ok r) /\
    (st !! remember_key ks <> Some "true" -> r = (None, None, false)).
Proof.
  unfold_store. simpl.
  case_decide; simpl; [by eexists|].
  case_bool_decide; simpl; [|by eexists].
  case_decide; simpl; [by eexists|].
  case_decide; simpl; by eexists.
Qed.

Lemma save_swallows fails_at first second remember st :
  (call (save fails_at number_text ks first second remember) st).2
  = Ok (first, second, remember).
Proof.
  unfold_store. destruct remember; simpl.
  - destruct (toString_val number_text (or_empty first)); simpl; [|done].
    case_decide; simpl; [done|].
    destruct (toString_val number_text (or_empty second)); simpl; [|done].
    repeat (case_decide; simpl; try done).
  - repeat (case_decide; simpl; try done).
Qed.

Lemma round_trip first second a b st :
  holds_text first a -> holds_text second b ->
  let saved := call (save None number_text ks first second true) st in
  saved.2 = Ok (first, second, true) /\
  saved.1 !! first_key ks = Some a /\ saved.1 !! second_key ks = Some b /\
  saved.1 !! remember_key ks = Some "true" /\
  call (getSaved None ks) saved.1
  = (saved.1, Ok (if String.eqb a "" then None else Some a,
                  if String.eqb b "" then None else Some b, true)).
Proof.
  intros Ha Hb saved. subst saved.
  rewrite (save_remember first second a b)
    by (by apply holds_text_prints). simpl.
  assert (H1 : <[remember_key ks:="true"]>
                 (<[second_key ks:=b]> (<[first_key ks:=a]> st))
               !! first_key ks = Some a).
  { by rewrite lookup_insert_ne, lookup_insert_ne, lookup_insert_eq. }
  assert (H2 : <[remember_key ks:="true"]>
                 (<[second_key ks:=b]> (<[first_key ks:=a]> st))
               !! second_key ks = Some b).
  { by rewrite lookup_insert_ne, lookup_insert_eq. }
  assert (H3 : <[remember_key ks:="true"]>
                 (<[second_key ks:=b]> (<[first_key ks:=a]> st))
               !! remember_key ks = Some "true") by apply lookup_insert_eq.
  repeat (split; [done|]).
  rewrite getSaved_reads, H1, H2, H3, bool_decide_eq_true_2 by done.
  done.
Qed.

Lemma forgotten first second fails_at st :
  let saved := call (save None number_text ks first second false) st in
  saved.1 !! first_key ks = None /\ saved.1 !! second_key ks = None /\
  saved.1 !! remember_key ks = None /\
  call (getSaved fails_at ks) saved.1 = (saved.1, Ok (None, None, false)).
Proof.
  intros saved. subst saved. rewrite save_forget. simpl.
  assert (Hr : delete (remember_key ks)
                 (delete (second_key ks) (delete (first_key ks) st))
               !! remember_key ks = None) by apply lookup_delete_eq.
  split; [|split; [|split; [done|]]].
  - by rewrite lookup_delete_ne, lookup_delete_ne, lookup_delete_eq.
  - by rewrite lookup_delete_ne, lookup_delete_eq.
  - destruct (getSaved_swallows fails_at
                (delete (remember_key ks)
                   (delete (second_key ks) (delete (first_key ks) st))))
      as (r & -> & Hnone).
    rewrite Hnone; [done|]. by rewrite Hr.
Qed.

Lemma interrupted first second a st b :
  holds_text first a ->
  st !! remember_key ks = Some "true" ->
  st !! second_key ks = Some b ->
  let saved := call (save (Some 1%nat) number_text ks first second true) st in
  saved.2 = Ok (first, second, true) /\
  saved.1 = <[first_key ks := a]> st /\
  call (getSaved None ks) saved.1
  = (saved.1, Ok (if String.eqb a "" then None else Some a,
                  if String.eqb b "" then None else Some b, true)).
Proof.
  intros Ha Hflag Hsecond saved.
  assert (Hsaved : saved.1 = <[first_key ks := a]> st).
  { subst saved. unfold_store. rewrite (holds_text_prints _ _ Ha). simpl.
    destruct (toString_val number_text (or_empty second)); simpl; [|done].
    by repeat (case_decide; simpl; try done). }
  split; [apply save_swallows|]. split; [done|].
  rewrite Hsaved, getSaved_reads.
  rewrite (lookup_insert_ne _ _ (remember_key ks)) by done.
  rewrite Hflag, bool_decide_eq_true_2 by done.
  by rewrite lookup_insert_eq, lookup_insert_ne, Hsecond.
Qed.

End CredentialFacts.

Section CredentialStore.
Import Js JsObject Credentials.
Variable number_text : Z -> string.

Lemma getSavedApiTokens_reads (st : gmap string string) :
  call (getSavedApiTokens None) st
  = (st, Ok (if bool_decide (st !! remember_key token_keys = Some "true")
             then (or_null (st !! first_key token_keys),
                   or_null (st !! second_key token_keys), true)
             else (None, None, false))).
Proof. apply getSaved_reads. Qed.

Lemma saveApiTokens_remember first second a b (st : gmap string string) :
  holds_text first a -> holds_text second b ->
  call (saveApiTokens number_text None first second true) st
  = (<[remember_key token_keys := "true"]>
       (<[second_key token_keys := b]> (<[first_key token_keys := a]> st)),
     Ok (first, second, true)).
Proof.
  intros Ha Hb. apply save_remember; by apply holds_text_prints.
Qed.

(** X20. With a working sessionStorage, the texts that [saveApiTokens]
    is given with [remember] set are stored under
    'learning_path_google_key_token', 'learning_path_pplx_key_token'
    and 'learning_path_remember_tokens' (an absent value as the empty
    text, the flag as 'true'), and [getSavedApiTokens] reads them back:
    the two texts, an empty one as null, and [remember: true]. The same
    holds of [saveApiKeys] and [getSavedApiKeys] in the earlier version,
    with the keys 'learning_path_openai_key', 'learning_path_tavily_key'
    and 'learning_path_remember_keys'. *)
Theorem saved_credentials_round_trip (first second : jsval) (a b : string)
    (st : gmap string string) :
  holds_text first a -> holds_text second b ->
  let expected := (if String.eqb a "" then None else Some a,
                   if String.eqb b "" then None else Some b, true) in
  (let saved := call (saveApiTokens number_text None first second true) st in
   saved.2 = Ok (first, second, true) /\
   saved.1 !! "learning_path_google_key_token" = Some a /\
   saved.1 !! "learning_path_pplx_key_token" = Some b /\
   saved.1 !! "learning_path_remember_tokens" = Some "true" /\
   call (getSavedApiTokens None) saved.1 = (saved.1, Ok expected)) /\
  (let saved := call (saveApiKeys number_text None first second true) st in
   saved.2 = Ok (first, second, true) /\
   saved.1 !! "learning_path_openai_key" = Some a /\
   saved.1 !! "learning_path_tavily_key" = Some b /\
   saved.1 !! "learning_path_remember_keys" = Some "true" /\
   call (getSavedApiKeys None) saved.1 = (saved.1, Ok expected)).
Proof.
  intros Ha Hb expected. split.
  - by apply (round_trip number_text token_keys).
  - by apply (round_trip number_text api_keys).
Qed.

(** X21. Saving with [remember] unset forgets, as [clearSavedApiTokens]
    does: the three items are gone from sessionStorage, and the next
    read returns nulls and [remember: false], whether or not the storage
    works then; in both versions. *)
Theorem unremembered_credentials_are_forgotten (first second : jsval)
    fails_at (st : gmap string string) :
  (let saved := call (saveApiTokens number_text None first second false) st in
   saved.1 = (call (clearSavedApiTokens None) st).1 /\
   saved.1 !! first_key token_keys = None /\
   saved.1 !! second_key token_keys = None /\
   saved.1 !! remember_key token_keys = None /\
   call (getSavedApiTokens fails_at) saved.1
   = (saved.1, Ok (None, None, false))) /\
  (let saved := call (saveApiKeys number_text None first second false) st in
   saved.1 = (call (clearSavedApiKeys None) st).1 /\
   saved.1 !! first_key api_keys = None /\
   saved.1 !! second_key api_keys = None /\
   saved.1 !! remember_key api_keys = None /\
   call (getSavedApiKeys fails_at) saved.1
   = (saved.1, Ok (None, None, false))).
Proof. split; (split; [apply save_clears | by apply forgotten]). Qed.

(** X22. The credential store never raises a storage exception:
    whichever storage operation throws, [saveApiTokens] returns its
    arguments, and [getSavedApiTokens] returns a result and leaves
    sessionStorage as it found it, nulls and [remember: false] unless
    the remember item holds "true". *)
Theorem credential_store_swallows_storage_errors
    fails_at (first second : jsval) remember (st : gmap string string) :
  (call (saveApiTokens number_text fails_at first second remember) st).2
  = Ok (first, second, remember) /\
  exists r, call (getSavedApiTokens fails_at) st = (st, Ok r) /\
    (st !! remember_key token_keys <> Some "true" -> r = (None, None, false)).
Proof. split; [apply save_swallows | apply getSaved_swallows]. Qed.

(** X23. A save that is interrupted mixes credentials: when a pair is
    already remembered and the write of the second value throws, only
    the item 'learning_path_google_key_token' has been rewritten, and
    the next read returns the new first text together with the old
    second one. *)
Theorem interrupted_save_mixes_credentials
    (first second : jsval) (a : string) (st : gmap string string) b :
  holds_text first a ->
  st !! "learning_path_remember_tokens" = Some "true" ->
  st !! "learning_path_pplx_key_token" = Some b ->
  let saved :=
    call (saveApiTokens number_text (Some 1%nat) first second true) st in
  saved.2 = Ok (first, second, true) /\
  saved.1 = <["learning_path_google_key_token" := a]> st /\
  call (getSavedApiTokens None) saved.1
  = (saved.1, Ok (if String.eqb a "" then None else Some a,
                  if String.eqb b "" then None else Some b, true)).
Proof. intros Ha Hflag Hsecond. by apply interrupted. Qed.

End CredentialStore.

Section CredentialInstances.
Import Js JsObject Credentials.

Lemma saved_credentials_witness :
  let saved := call (saveApiTokens decimal None (Some (JStr "g-tok")) None
                       true) ∅ in
  holds_text (Some (JStr "g-tok")) "g-tok" /\ holds_text None "" /\
  saved.1 !! "learning_path_google_key_token" = Some "g-tok" /\
  saved.1 !! "learning_path_pplx_key_token" = Some "" /\
  (call (getSavedApiTokens None) saved.1).2 = Ok (Some "g-tok", None, true).
Proof.
  intros saved.
  assert (Ha : holds_text (Some (JStr "g-tok")) "g-tok") by (by left).
  assert (Hb : holds_text None "") by (right; split; [|left]; reflexivity).
  destruct (saved_credentials_round_trip decimal (Some (JStr "g-tok")) None
              "g-tok" "" ∅ Ha Hb) as [(_ & H1 & H2 & _ & Hread) _].
  split; [exact Ha|]. split; [exact Hb|]. split; [exact H1|].
  split; [exact H2|]. exact (f_equal snd Hread).
Defined.

Lemma interrupted_save_witness :
  let st : gmap string string :=
    <["learning_path_remember_tokens" := "true"]>
      (<["learning_path_pplx_key_token" := "old-pplx"]>
         (<["learning_path_google_key_token" := "old-google"]> ∅)) in
  let saved := call (saveApiTokens decimal (Some 1%nat)
                       (Some (JStr "new-google"))
                       (Some (JStr "new-pplx")) true) st in
  holds_text (Some (JStr "new-google")) "new-google" /\
  st !! "learning_path_remember_tokens" = Some "true" /\
  st !! "learning_path_pplx_key_token" = Some "old-pplx" /\
  (call (getSavedApiTokens None) saved.1).2
  = Ok (Some "new-google", Some "old-pplx", true).
Proof.
  intros st saved.
  assert (Ha : holds_text (Some (JStr "new-google")) "new-google")
    by (by left).
  assert (Hflag : st !! "learning_path_remember_tokens" = Some "true")
    by apply lookup_insert_eq.
  assert (Hsecond : st !! "learning_path_pplx_key_token" = Some "old-pplx").
  { subst st. rewrite lookup_insert_ne by done. apply lookup_insert_eq. }
  split; [exact Ha|]. split; [exact Hflag|]. split; [exact Hsecond|].
  exact (f_equal snd
           (proj2 (proj2 (interrupted_save_mixes_credentials decimal
                     (Some (JStr "new-google")) (Some (JStr "new-pplx"))
                     "new-google" st "old-pplx" Ha Hflag Hsecond)))).
Defined.

End CredentialInstances.

(** ** The bearer token *)

Section AuthTokenFacts.
Import Js JsObject AuthToken.
Variable number_text : Z -> string.

Local Arguments truthy : simpl never.
Local Arguments get : simpl never.

(** The invariant of the runs with textual tokens. *)
Lemma perform_keeps_header a s :
  textual_action a ->
  textual (authToken s) /\ textual_action (Store (stored s)) /\
  authorization s = match authToken s with
                    | Some (JStr t) => if String.eqb t "" then None
                                       else Some ("Bearer " ++ t)%string
                    | _ => None
                    end ->
  let s' := perform number_text a s in
  textual (authToken s') /\ textual_action (Store (stored s')) /\
  authorization s' = match authToken s' with
                     | Some (JStr t) => if String.eqb t "" then None
                                        else Some ("Bearer " ++ t)%string
                     | _ => None
                     end.
Proof.
  intros Ha (Ht & Hst & Hh).
  assert (Hset : forall t, textual t ->
            let s' := (setAuthToken number_text t s).1 in
            textual (authToken s') /\ textual_action (Store (stored s')) /\
            authorization s' = match authToken s' with
                               | Some (JStr t) =>
                                   if String.eqb t "" then None
                                   else Some ("Bearer " ++ t)%string
                               | _ => None
                               end).
  { intros t Htext. unfold setAuthToken.
    destruct t as [[| | |x| |]|]; try done.
    unfold truthy. simpl.
    by destruct (String.eqb x "") eqn:E; simpl; rewrite ?E. }
  destruct a as [token| | |item]; simpl.
  - by apply Hset.
  - done.
  - unfold initAuthFromStorage.
    destruct (stored s) as [[| |v]|] eqn:Hs; simpl;
      [by rewrite Hs | done | | by rewrite Hs].
    simpl in Hst.
    destruct (get v "accessToken") as [tok|] eqn:Hget; simpl; [|done].
    destruct (truthy tok) eqn:Htok; simpl; [|by rewrite Hs; simpl; rewrite Hget].
    specialize (Hset tok Hst). simpl in Hset.
    destruct (setAuthToken number_text tok s) as [s' [[]|e]] eqn:Hs';
      simpl in *; [done|].
    destruct Hset as (? & _ & ?). done.
  - done.
Qed.

(** X24. The Authorization default header follows the token: after any
    sequence of [setAuthToken], [clearAuthToken] and
    [initAuthFromStorage] calls, interleaved with writes to the stored
    item, in which every token set or stored is a text or absent, the
    token is a text or absent and the header is [Bearer <token>] when
    the token is a non-empty text, and absent otherwise. *)
Theorem authorization_header_follows_token item (actions : list action) :
  textual_action (Store item) -> Forall textual_action actions ->
  let s := foldl (fun s a => perform number_text a s) (loaded item) actions in
  textual (authToken s) /\
  authorization s = match authToken s with
                    | Some (JStr t) => if String.eqb t "" then None
                                       else Some ("Bearer " ++ t)%string
                    | _ => None
                    end.
Proof.
  intros Hitem Hall s.
  assert (Hinv : textual (authToken s) /\ textual_action (Store (stored s)) /\
                 authorization s = match authToken s with
                                   | Some (JStr t) =>
                                       if String.eqb t "" then None
                                       else Some ("Bearer " ++ t)%string
                                   | _ => None
                                   end); [|by destruct Hinv as (? & _ & ?)].
  subst s.
  assert (Hinit : textual (authToken (loaded item)) /\
                  textual_action (Store (stored (loaded item))) /\
                  authorization (loaded item)
                  = match authToken (loaded item) with
                    | Some (JStr t) => if String.eqb t "" then None
                                       else Some ("Bearer " ++ t)%string
                    | _ => None
                    end) by done.
  revert Hinit. generalize (loaded item).
  induction Hall as [|a actions Ha _ IH]; intros s Hs; simpl; [done|].
  apply IH. by apply perform_keeps_header.
Qed.

(** X25. [initAuthFromStorage] returns true exactly when the stored
    item parses to a value with a truthy [accessToken] that can be
    converted to a string, which then is the token, with the header
    built from it. When it returns false the header is as it was, and
    so is the token, except that a truthy [accessToken] which cannot be
    converted (an object with a [toString] property of its own) has
    been assigned before the conversion threw. The stored item is
    removed exactly when it is malformed text, null, or holds such an
    [accessToken]; otherwise it is left as it is. *)
Theorem initAuthFromStorage_outcome (s : state) :
  let out := initAuthFromStorage number_text s in
  let unconvertible v accessToken :=
    stored s = Some (Holds v) /\ get v "accessToken" = Ok accessToken /\
    truthy accessToken = true /\
    exists e, toString_val number_text accessToken = Throw e in
  (out.2 = true <->
     exists v accessToken text,
       stored s = Some (Holds v) /\ get v "accessToken" = Ok accessToken /\
       truthy accessToken = true /\
       toString_val number_text accessToken = Ok text /\
       authToken out.1 = accessToken /\
       authorization out.1 = Some ("Bearer " ++ text)%string) /\
  (out.2 = false ->
     authorization out.1 = authorization s /\
     (authToken out.1 = authToken s \/
      exists v accessToken,
        unconvertible v accessToken /\ authToken out.1 = accessToken)) /\
  (stored out.1 = stored s \/ stored out.1 = None) /\
  (stored out.1 = None <->
     stored s = None \/ stored s = Some Malformed \/
     stored s = Some (Holds JNull) \/
     exists v accessToken, unconvertible v accessToken).
Proof.
  intros out unconvertible. subst out unconvertible.
  unfold initAuthFromStorage.
  destruct (stored s) as [[| |v]|] eqn:Hst; simpl.
  - split; [split; [done|by intros (? & ? & ? & [=] & _)]|].
    split; [by auto|]. split; [by left|]. rewrite Hst.
    split; [done|]. intros [?|[?|[?|(? & ? & ? & _)]]]; done.
  - split; [split; [done|by intros (? & ? & ? & [=] & _)]|].
    split; [by auto|]. split; [by right|]. split; auto.
  - destruct (get v "accessToken") as [tok|e] eqn:Hget; simpl.
    + destruct (truthy tok) eqn:Htok; simpl.
      * unfold setAuthToken. rewrite Htok.
        destruct (toString_val number_text tok) as [text|e] eqn:Hp; simpl.
        -- split; [split; [intros _; by exists v, tok, text | done]|].
           split; [done|]. split; [by left|]. rewrite Hst.
           split; [done|].
           intros [?|[?|[[= ->]|(v' & tok' & [= <-] & Hg & _ & e' & Hp')]]];
             try done.
           rewrite Hget in Hg. injection Hg as <-. congruence.
        -- split.
           { split; [done|].
             intros (v' & tok' & text & [= <-] & Hg & _ & Hp' & _).
             rewrite Hget in Hg. injection Hg as <-. congruence. }
           split.
           { intros _. split; [done|]. right. exists v, tok.
             repeat split; eauto. }
           split; [by right|]. split; [|done]. intros _.
           right. right. right. exists v, tok. repeat split; eauto.
      * split.
        { split; [done|].
          intros (v' & tok' & text & [= <-] & Hg & Ht & _).
          rewrite Hget in Hg. injection Hg as <-. congruence. }
        split; [by auto|]. split; [by left|]. rewrite Hst.
        split; [done|].
        intros [?|[?|[[= ->]|(v' & tok' & [= <-] & Hg & Ht & _)]]];
          try done.
        rewrite Hget in Hg. injection Hg as <-. congruence.
    + assert (v = JNull) as -> by (by destruct v).
      split.
      { split; [done|].
        intros (v' & tok' & text & [= <-] & Hg & _). congruence. }
      split; [by auto|]. split; [by right|]. split; auto.
  - split; [split; [done|by intros (? & ? & ? & [=] & _)]|].
    split; [by auto|]. split; [by left|]. rewrite Hst. split; auto.
Qed.

End AuthTokenFacts.

(** ** Exchange of API keys *)

Section ApiKeysFacts.
Import Js JsObject History ApiKeys.
Variable message_of : error -> option string.
Variable number_text : Z -> string.

Local Arguments truthy : simpl never.
Local Arguments get : simpl never.
Local Arguments Credentials.call : simpl never.

Lemma given_not_empty x d : d <> "" -> default d (given x) <> "".
Proof.
  intros Hd. destruct x as [t|]; simpl; [|done].
  by destruct (String.eqb_spec t "").
Qed.

(** X26. [authenticateApiKeys] sends exactly one request, POST
    /auth/api-keys with the body [{google_api_key, pplx_api_key}]. It
    writes to sessionStorage only when [remember] is set and the answer
    carries a token: the tokens can then be read back with
    [getSavedApiTokens]. Whatever goes wrong, the caller gets an [Error]
    with a non-empty message and sessionStorage is as before. *)
Theorem authenticateApiKeys_stores_tokens_on_request
    googleKey pplxKey remember fails_at outcome (s : state) :
  let out := authenticateApiKeys message_of number_text googleKey pplxKey
               remember fails_at outcome s in
  sent out.1
  = sent s ++ [{| method := "POST"; path := "/auth/api-keys"; params := [];
                  body := Some (JObj (match googleKey with
                                      | Some k => [("google_api_key", k)]
                                      | None => []
                                      end ++
                                      match pplxKey with
                                      | Some k => [("pplx_api_key", k)]
                                      | None => []
                                      end)) |}] /\
  (remember = false -> session out.1 = session s) /\
  (forall e, out.2 = Throw e ->
     session out.1 = session s /\ exists m, e = Error m /\ m <> "") /\
  (forall data a b,
     remember = true -> fails_at = None -> outcome = Ok data ->
     get data "google_key_token" = Ok (Some (JStr a)) ->
     get data "pplx_key_token" = Ok (Some (JStr b)) ->
     a <> "" ->
     session out.1 !! "learning_path_google_key_token" = Some a /\
     session out.1 !! "learning_path_pplx_key_token" = Some b /\
     (Credentials.call (Credentials.getSavedApiTokens None)
                       (session out.1)).2
     = Ok (Some a, if String.eqb b "" then None else Some b, true)).
Proof.
  intros out. subst out. unfold authenticateApiKeys, on_response.
  assert (Hreq : keys_request googleKey pplxKey
            = {| method := "POST"; path := "/auth/api-keys"; params := [];
                 body := Some (JObj (match googleKey with
                                     | Some k => [("google_api_key", k)]
                                     | None => []
                                     end ++
                                     match pplxKey with
                                     | Some k => [("pplx_api_key", k)]
                                     | None => []
                                     end)) |}).
  { unfold keys_request, object. by destruct googleKey, pplxKey. }
  rewrite Hreq. split; [|split; [|split]].
  - destruct outcome as [data|e]; simpl; [|done].
    by destruct (get data "google_key_token").
  - intros ->. destruct outcome as [data|e]; simpl; [|done].
    by destruct (get data "google_key_token").
  - intros e. destruct outcome as [data|e0]; simpl.
    + destruct (get data "google_key_token"); simpl; [done|].
      intros [= <-]. split; [done|]. eexists. split; [done|].
      by apply given_not_empty.
    + intros [= <-]. split; [done|]. eexists. split; [done|].
      by apply given_not_empty.
  - intros data a b -> -> -> Ha Hb Hne.
    assert (Htruthy : truthy (Some (JStr a)) = true).
    { unfold truthy. by destruct (String.eqb_spec a ""). }
    rewrite Ha, Hb, Htruthy.
    rewrite (saveApiTokens_remember number_text _ _ a b)
      by (by left).
    cbn [andb orb fst snd session].
    rewrite getSavedApiTokens_reads. cbn [fst snd].
    assert (H1 : <[Credentials.remember_key Credentials.token_keys:="true"]>
                   (<[Credentials.second_key Credentials.token_keys:=b]>
                      (<[Credentials.first_key Credentials.token_keys:=a]>
                         (session s)))
                 !! Credentials.first_key Credentials.token_keys = Some a).
    { by rewrite lookup_insert_ne, lookup_insert_ne, lookup_insert_eq. }
    assert (H2 : <[Credentials.remember_key Credentials.token_keys:="true"]>
                   (<[Credentials.second_key Credentials.token_keys:=b]>
                      (<[Credentials.first_key Credentials.token_keys:=a]>
                         (session s)))
                 !! Credentials.second_key Credentials.token_keys = Some b).
    { by rewrite lookup_insert_ne, lookup_insert_eq. }
    split; [exact H1|]. split; [exact H2|].
    rewrite H1, H2, lookup_insert_eq, bool_decide_eq_true_2 by done.
    simpl. by destruct (String.eqb_spec a "").
Qed.

End ApiKeysFacts.

(** ** Migration of local learning paths *)

Section MigrationFacts.
Import Js JsObject History Migration.

Variable number_text : Z -> string.

Local Arguments truthy : simpl never.

Lemma append_not_empty (s t : string) : t <> "" -> String.append s t <> "".
Proof. intros Ht. by destruct s. Qed.

Lemma includes_not_empty (s pat : string) :
  pat <> "" -> includes s pat = true -> s <> "".
Proof.
  intros Hpat Hin ->. unfold includes in Hin. simpl in Hin.
  by destruct pat.
Qed.

Lemma generated_id_not_empty en id text :
  generated_id number_text en id = Ok text -> text <> "".
Proof.
  unfold generated_id. destruct id as [j|].
  - destruct (toString number_text j) as [t|]; [|done].
    destruct (includes t "-") eqn:Hin; intros [= <-].
    + by apply (includes_not_empty _ "-").
    + by apply append_not_empty.
  - intros [= <-]. by apply append_not_empty.
Qed.

Lemma truthy_Some v : truthy v = true -> exists j, v = Some j.
Proof. destruct v; [eauto | done]. Qed.

Lemma processPath_throws en path e :
  processPath number_text en path = Throw e <->
  truthy (assoc "path_id" (spread path)) = false /\
  truthy (assoc "id" (spread path)) = true /\
  toString_val number_text (assoc "id" (spread path)) = Throw e.
Proof.
  unfold processPath, generated_id.
  destruct (truthy (assoc "path_id" (spread path))); simpl.
  { split; [done | by intros [? _]]. }
  destruct (truthy (assoc "id" (spread path))) eqn:Hid; simpl.
  - destruct (assoc "id" (spread path)) as [j|]; [|done]. simpl.
    destruct (toString number_text j) as [t|e']; simpl.
    + split; [|by intros (_ & _ & ?)]. by destruct (includes t "-").
    + split; [by intros [= ->] | by intros (_ & _ & [= ->])].
  - split; [done | by intros (_ & ? & _)].
Qed.

Lemma processPath_object en path p :
  processPath number_text en path = Ok p ->
  exists fs, p = JObj fs /\
    migratable (JObj fs) = true /\
    forall k,
      k ∉ normalised_fields
      \/ (truthy (assoc k (spread path)) = true
          /\ (k = "tags" -> isArray (assoc k (spread path)) = true)) ->
      assoc k fs = assoc k (spread path).
Proof.
  unfold processPath. set (p0 := spread path).
  destruct (if negb (truthy (assoc "path_id" p0))
            then match generated_id number_text en
                         (if truthy (assoc "id" p0)
                          then assoc "id" p0 else None) with
                 | Throw e => Throw e
                 | Ok id => Ok (set_field "path_id" (JStr id) p0)
                 end
            else Ok p0) as [p1|] eqn:Hp1; [|done].
  (* what each step establishes and what it keeps *)
  assert (H1 : truthy (assoc "path_id" p1) = true /\
               forall k, k <> "path_id" \/ truthy (assoc k p0) = true ->
                         assoc k p1 = assoc k p0).
  { destruct (truthy (assoc "path_id" p0)) eqn:Hc; simpl in Hp1.
    - injection Hp1 as <-. by split.
    - destruct (generated_id number_text en _) as [id|] eqn:Hid; [|done].
      injection Hp1 as <-. apply generated_id_not_empty in Hid.
      split.
      { rewrite assoc_set_field. unfold truthy.
        by destruct (String.eqb_spec id ""). }
      intros k [Hk|Hk]; [by rewrite assoc_set_field_ne|].
      destruct (String.eqb_spec k "path_id") as [->|Hne];
        [congruence | by rewrite assoc_set_field_ne]. }
  clear Hp1.
  set (p2 := if _ && _ && _ then _ else _).
  set (p3 := if negb (truthy (assoc "path_data" p2)) then _ else p2).
  set (p4 := if _ || _ then _ else p3).
  set (p5 := if negb (truthy (assoc "source" p4)) then _ else p4).
  intros [= <-]. exists p5. split; [done|].
  assert (H2 : truthy (assoc "topic" p2) = true /\
               forall k, k <> "topic" \/ truthy (assoc k p1) = true ->
                         assoc k p2 = assoc k p1).
  { subst p2. destruct (truthy (assoc "topic" p1)) eqn:Hc; simpl.
    - by split.
    - destruct (truthy (assoc "path_data" p1)
                && truthy (prop (assoc "path_data" p1) "topic")) eqn:Hd.
      + apply andb_prop in Hd as [_ Hd].
        destruct (truthy_Some _ Hd) as [j Hj]. rewrite Hj in *. simpl.
        split; [by rewrite assoc_set_field|].
        intros k [Hk|Hk]; [by rewrite assoc_set_field_ne|].
        destruct (String.eqb_spec k "topic") as [->|Hne];
          [congruence | by rewrite assoc_set_field_ne].
      + split; [by rewrite assoc_set_field|].
        intros k [Hk|Hk]; [by rewrite assoc_set_field_ne|].
        destruct (String.eqb_spec k "topic") as [->|Hne];
          [congruence | by rewrite assoc_set_field_ne]. }
  assert (H3 : truthy (assoc "path_data" p3) = true /\
               forall k, k <> "path_data" \/ truthy (assoc k p2) = true ->
                         assoc k p3 = assoc k p2).
  { subst p3. destruct (truthy (assoc "path_data" p2)) eqn:Hc; simpl.
    - by split.
    - split; [by rewrite assoc_set_field|].
      intros k [Hk|Hk]; [by rewrite assoc_set_field_ne|].
      destruct (String.eqb_spec k "path_data") as [->|Hne];
        [congruence | by rewrite assoc_set_field_ne]. }
  assert (H4 : isArray (assoc "tags" p4) = true /\
               forall k, k <> "tags" \/ isArray (assoc k p3) = true ->
                         assoc k p4 = assoc k p3).
  { subst p4.
    destruct (negb (truthy (assoc "tags" p3))
              || negb (isArray (assoc "tags" p3))) eqn:Hc.
    - split; [by rewrite assoc_set_field|].
      intros k [Hk|Hk]; [by rewrite assoc_set_field_ne|].
      destruct (String.eqb_spec k "tags") as [->|Hne];
        [|by rewrite assoc_set_field_ne].
      rewrite Hk in Hc.
      by destruct (assoc "tags" p3) as [[]|].
    - apply orb_false_elim in Hc as [_ Hc].
      apply negb_false_iff in Hc. by split. }
  assert (H5 : truthy (assoc "source" p5) = true /\
               forall k, k <> "source" \/ truthy (assoc k p4) = true ->
                         assoc k p5 = assoc k p4).
  { subst p5. destruct (truthy (assoc "source" p4)) eqn:Hc; simpl.
    - by split.
    - split; [by rewrite assoc_set_field|].
      intros k [Hk|Hk]; [by rewrite assoc_set_field_ne|].
      destruct (String.eqb_spec k "source") as [->|Hne];
        [congruence | by rewrite assoc_set_field_ne]. }
  destruct H1 as [T1 K1], H2 as [T2 K2], H3 as [T3 K3], H4 as [T4 K4],
    H5 as [T5 K5].
  clearbody p2 p3 p4 p5. split.
  - unfold migratable.
    rewrite T5.
    rewrite (K5 "tags"), T4 by (by left).
    rewrite (K5 "path_data"), (K4 "path_data"), T3 by (by left).
    rewrite (K5 "topic"), (K4 "topic"), (K3 "topic"), T2 by (by left).
    by rewrite (K5 "path_id"), (K4 "path_id"), (K3 "path_id"),
      (K2 "path_id"), T1 by (by left).
  - intros k Hk.
    assert (Hcases : (k <> "path_id" /\ k <> "topic" /\ k <> "path_data"
                      /\ k <> "tags" /\ k <> "source")
                     \/ (truthy (assoc k p0) = true
                         /\ (k = "tags" -> isArray (assoc k p0) = true))).
    { destruct Hk as [Hk|Hk]; [left|by right].
      unfold normalised_fields in Hk.
      repeat split; intros ->; apply Hk; set_solver. }
    destruct Hcases as [(N1 & N2 & N3 & N4 & N5)|[Ht Ha]].
    + by rewrite K5, K4, K3, K2, K1 by (by left).
    + assert (E1 : assoc k p1 = assoc k p0) by (apply K1; by right).
      assert (E2 : assoc k p2 = assoc k p0).
      { rewrite <- E1. apply K2. right. by rewrite E1. }
      assert (E3 : assoc k p3 = assoc k p0).
      { rewrite <- E2. apply K3. right. by rewrite E2. }
      assert (E4 : assoc k p4 = assoc k p0).
      { rewrite <- E3. apply K4.
        destruct (String.eqb_spec k "tags") as [->|Hne]; [|by left].
        right. rewrite E3. by apply Ha. }
      rewrite <- E4. apply K5. right. by rewrite E4.
Qed.

Lemma processPath_fixes_migratable en p :
  migratable p = true -> processPath number_text en p = Ok p.
Proof.
  destruct p as [| | | | |fs]; try done. unfold migratable, processPath.
  intros H. repeat (apply andb_prop in H as [H ?]).
  assert (truthy (assoc "tags" fs) = true)
    by (by destruct (assoc "tags" fs) as [[]|]).
  simpl.
  repeat match goal with
         | H : _ = true |- _ => rewrite H; simpl
         end.
  done.
Qed.

(** X27. The function that [migrateLearningPaths] maps over the paths
    throws exactly when the path has no truthy [path_id] and its [id]
    is truthy but cannot be converted to a string (an object with a
    [toString] property of its own). Otherwise it yields, for any value
    whatever, an object that has a truthy [path_id], [topic],
    [path_data] and [source] and an array of [tags]; every other
    property of the original is kept, as is each of those five that was
    acceptable already; and the function leaves its own results
    unchanged, so that identifiers are stable under a second
    migration. *)
Theorem processPath_normalises en en' path :
  (forall e,
     processPath number_text en path = Throw e <->
     truthy (assoc "path_id" (spread path)) = false /\
     truthy (assoc "id" (spread path)) = true /\
     toString_val number_text (assoc "id" (spread path)) = Throw e) /\
  (forall p,
     processPath number_text en path = Ok p ->
     migratable p = true /\
     (forall k,
        k ∉ normalised_fields
        \/ (truthy (assoc k (spread path)) = true
            /\ (k = "tags" -> isArray (assoc k (spread path)) = true)) ->
        get p k = Ok (assoc k (spread path))) /\
     processPath number_text en' p = Ok p).
Proof.
  split; [intros e; apply processPath_throws|].
  intros p Hp.
  destruct (processPath_object en path p Hp) as (fs & -> & Hm & Hkeep).
  split; [done|]. split.
  - intros k Hk. simpl. by rewrite Hkeep.
  - by apply processPath_fixes_migratable.
Qed.

Lemma processPaths_each (en : nat -> entropy) items : forall processed,
  processPaths number_text en items = Ok processed ->
  length processed = length items /\
  Forall (fun p => migratable p = true) processed /\
  forall i path, items !! i = Some path ->
    exists p, processed !! i = Some p /\
              processPath number_text (en i) path = Ok p.
Proof.
  revert en. induction items as [|path items IH]; intros en processed; simpl.
  - intros [= <-]. by repeat split.
  - destruct (processPath number_text (en 0%nat) path) as [p|] eqn:Hp;
      [|done].
    destruct (processPaths number_text (fun i => en (S i)) items)
      as [ps|] eqn:Hps; [|done].
    intros [= <-]. destruct (IH _ ps Hps) as (Hlen & Hall & Hi).
    split; [simpl; by rewrite Hlen|]. split.
    + constructor; [|done].
      by destruct (processPath_object _ _ _ Hp) as (fs & -> & Hm & _).
    + intros [|i] path'; simpl.
      * intros [= <-]. by exists p.
      * apply Hi.
Qed.

Section Migrate.
Context {L : Type}.
Variable local_history : L -> L * res json.

(** X28. Given an array, [migrateLearningPaths] does not consult the
    local store. When every path can be processed it sends one
    request, POST /learning-paths/migrate with the body
    [{learning_paths}] that lists, in order, the processed form of
    each element, each of them fit for the back end, and it returns
    what the server answers or passes on its rejection. When the
    processing of a path throws, nothing is sent and the exception is
    passed on. *)
Theorem migrateLearningPaths_sends_normalised_paths
    items en rep (w : world L) :
  let out := migrateLearningPaths number_text local_history
               (Some (JArr items)) en rep w in
  local out.1 = local w /\
  (forall processed,
     processPaths number_text en items = Ok processed ->
     net out.1
     = net w ++ [{| method := "POST"; path := "/learning-paths/migrate";
                    params := [];
                    body := Some (JObj [("learning_paths",
                                         JArr processed)]) |}] /\
     length processed = length items /\
     Forall (fun p => migratable p = true) processed /\
     (forall i path, items !! i = Some path ->
        exists p, processed !! i = Some p /\
                  processPath number_text (en i) path = Ok p) /\
     out.2 = outcome rep) /\
  (forall e,
     processPaths number_text en items = Throw e ->
     net out.1 = net w /\ out.2 = Throw e).
Proof.
  intros out. subst out. unfold migrateLearningPaths.
  unfold History.bind, History.ret, History.lift, History.request.
  simpl. split; [by destruct (processPaths number_text en items)|].
  split.
  - intros processed Hp. rewrite Hp. simpl.
    destruct (processPaths_each en items processed Hp) as (? & ? & ?).
    by repeat split.
  - intros e ->. by simpl.
Qed.

End Migrate.

End MigrationFacts.

(** ** Retrieval of a generated path *)

Section TaskFacts.
Import Js JsObject Tasks.
Variable number_text : Z -> string.

Local Arguments truthy : simpl never.
Local Arguments strict_eq : simpl never.

(** X29. Whenever [getLearningPath] returns data, the task had not
    failed with an error; the data is the response with every property
    but [result] as the server sent it; and [result] is the server's
    [learning_path] when the task is completed and came with a
    [learning_path] but no [result], the server's [result]
    otherwise. *)
Theorem getLearningPath_returns_normalised data data' :
  getLearningPath number_text (Ok data) = Returns data' ->
  let field k := prop (Some data) k in
  ~ (is_text (field "status") "failed" = true
     /\ truthy (field "error") = true) /\
  (forall k, k <> "result" -> get data' k = get data k) /\
  get data' "result"
  = Ok (if is_text (field "status") "completed"
           && truthy (field "learning_path")
           && negb (truthy (field "result"))
        then field "learning_path" else field "result").
Proof.
  unfold getLearningPath.
  destruct data as [|b|n|s|items|fs]; simpl; try done;
    try (intros [= <-]; by repeat split; try intros [? ?]).
  destruct (is_text (assoc "status" fs) "failed"
            && truthy (assoc "error" fs)) eqn:Hfailed.
  { by destruct (if truthy (prop (assoc "error" fs) "message")
                 then toString_val number_text
                        (prop (assoc "error" fs) "message")
                 else Ok generation_failed). }
  assert (Hnot : ~ (is_text (assoc "status" fs) "failed" = true
                    /\ truthy (assoc "error" fs) = true)).
  { intros [H1 H2]. by rewrite H1, H2 in Hfailed. }
  destruct (is_text (assoc "status" fs) "completed"); simpl.
  - destruct (truthy (assoc "learning_path" fs)) eqn:Hlp; simpl.
    + destruct (truthy (assoc "result" fs)) eqn:Hres; simpl.
      * intros [= <-]. by repeat split.
      * intros [= <-]. split; [done|].
        destruct (assoc "learning_path" fs) as [j|] eqn:Hj; [|done].
        simpl. split; [|by rewrite assoc_set_field].
        intros k Hk. by rewrite assoc_set_field_ne.
    + intros [= <-]. by repeat split.
  - intros [= <-]. by repeat split.
Qed.

End TaskFacts.

Section TaskInstances.
Import Js JsObject Tasks.

Lemma getLearningPath_witness :
  let data := JObj [("status", JStr "completed");
                    ("learning_path", JObj [("topic", JStr "Rocq")])] in
  let data' := JObj [("status", JStr "completed");
                     ("learning_path", JObj [("topic", JStr "Rocq")]);
                     ("result", JObj [("topic", JStr "Rocq")])] in
  getLearningPath decimal (Ok data) = Returns data' /\
  get data' "result" = Ok (Some (JObj [("topic", JStr "Rocq")])).
Proof.
  intros data data'.
  assert (Hret : getLearningPath decimal (Ok data) = Returns data') by reflexivity.
  split; [exact Hret|].
  exact (proj2 (proj2 (getLearningPath_returns_normalised decimal data data'
                         Hret))).
Defined.

End TaskInstances.

(** ** Starting a generation, earlier version *)

Section LegacyGenerateFacts.
Import Js JsObject History LegacyGenerate.
Variable trim : string -> string.

Local Arguments truthy : simpl never.
Local Arguments Credentials.call : simpl never.

(** [None] and null alike stand for a key that is not given. *)
Lemma final_keys_chosen o saved :
  let chosen (given_ : jsval) (kept : option string) : jsval :=
    if truthy given_ then given_
    else match kept with
         | Some t => if String.eqb t "" then given_ else Some (JStr t)
         | None => given_
         end in
  let unset (x : jsval) : jsval :=
    match x with None => Some JNull | _ => x end in
  final_keys o saved
  = (unset (chosen (openaiApiKey o) saved.1.1),
     unset (chosen (tavilyApiKey o) saved.1.2)).
Proof.
  intros chosen unset. subst chosen unset. unfold final_keys, defaulted.
  destruct saved as [[s1 s2] r]. simpl.
  assert (Hd : forall x : jsval,
            truthy (Some match x with Some j => j | None => JNull end)
            = truthy x) by (by intros [j|]).
  rewrite !Hd.
  assert (Hs : forall x : option string,
            truthy match x with Some t => Some (JStr t) | None => None end
            = match x with
              | Some t => negb (String.eqb t "")
              | None => false
              end) by (by intros [t|]).
  rewrite !Hs.
  destruct (truthy (openaiApiKey o)) eqn:H1,
           (truthy (tavilyApiKey o)) eqn:H2; simpl;
    destruct (openaiApiKey o) as [j1|], (tavilyApiKey o) as [j2|];
    try done;
    destruct s1 as [t1|], s2 as [t2|]; simpl; try done;
    repeat match goal with
           | |- context [String.eqb ?x ""] => destruct (String.eqb x "")
           end; simpl; try done;
    by destruct j1 || by destruct j2 || done.
Qed.

(** X30. The earlier [generateLearningPath] never writes to
    sessionStorage. For each of the two keys it uses the one given in
    the options when that is truthy, and the saved one otherwise. It
    sends a request, POST /generate-learning-path with the topic, the
    three counts (2, 3 and 2 unless given), the two keys trimmed and
    the desired counts that are given, only when both keys are
    non-empty texts that are not empty once trimmed, and then it
    returns what the server answers; when a key is missing it throws
    "Both OpenAI and Tavily API keys are required", when a key is
    blank "API keys cannot be empty", in both cases before anything is
    sent. *)
Theorem legacy_generate_needs_both_keys
    topic o fails_at response (s : ApiKeys.state) :
  let out := generateLearningPath trim topic o fails_at response s in
  let saved :=
    match (Credentials.call (Credentials.getSavedApiKeys fails_at)
                            (ApiKeys.session s)).2 with
    | Ok r => r
    | Throw _ => (None, None, false)
    end in
  let chosen (given_ : jsval) (kept : option string) : jsval :=
    if truthy given_ then given_
    else match kept with
         | Some t => if String.eqb t "" then given_ else Some (JStr t)
         | None => given_
         end in
  let openai := chosen (openaiApiKey o) saved.1.1 in
  let tavily := chosen (tavilyApiKey o) saved.1.2 in
  let or_default (x : jsval) (d : json) : json :=
    match x with Some j => j | None => d end in
  let if_given (name : string) (x : jsval) : list (string * json) :=
    match x with
    | None | Some JNull => []
    | Some j => [(name, j)]
    end in
  let request (a b : string) :=
    {| method := "POST"; path := "/generate-learning-path"; params := [];
       body := Some (JObj
         (match topic with Some t => [("topic", t)] | None => [] end
          ++ [("parallel_count", or_default (parallelCount o) (JNum 2));
              ("search_parallel_count",
               or_default (searchParallelCount o) (JNum 3));
              ("submodule_parallel_count",
               or_default (submoduleParallelCount o) (JNum 2));
              ("openai_api_key", JStr (trim a));
              ("tavily_api_key", JStr (trim b))]
          ++ if_given "desired_module_count" (desiredModuleCount o)
          ++ if_given "desired_submodule_count"
                      (desiredSubmoduleCount o))) |} in
  ApiKeys.session out.1 = ApiKeys.session s /\
  (forall a b,
     openai = Some (JStr a) -> tavily = Some (JStr b) ->
     a <> "" -> b <> "" -> trim a <> "" -> trim b <> "" ->
     ApiKeys.sent out.1 = ApiKeys.sent s ++ [request a b] /\
     out.2 = response) /\
  (ApiKeys.sent out.1 = ApiKeys.sent s \/
   exists a b,
     openai = Some (JStr a) /\ tavily = Some (JStr b) /\
     a <> "" /\ b <> "" /\ trim a <> "" /\ trim b <> "") /\
  (truthy openai = false \/ truthy tavily = false ->
   out = (s, Throw (Error "Both OpenAI and Tavily API keys are required")))
  /\
  (forall a b,
     openai = Some (JStr a) -> tavily = Some (JStr b) ->
     a <> "" -> b <> "" -> trim a = "" \/ trim b = "" ->
     out = (s, Throw (Error "API keys cannot be empty"))).
Proof.
  intros out saved chosen openai tavily or_default if_given request.
  assert (Hreq : forall a b,
            generate_request topic o (trim a) (trim b) = request a b).
  { intros a b. subst request or_default if_given.
    unfold generate_request, object, optional, defaulted. simpl.
    f_equal. f_equal. f_equal.
    destruct topic; simpl;
      repeat f_equal;
      by destruct (desiredModuleCount o) as [[]|],
                  (desiredSubmoduleCount o) as [[]|]. }
  clearbody request.
  (* the keys the function settles on *)
  assert (Hkeys : exists saved',
            out = (let '(k1, k2) := final_keys o saved' in
                   if negb (truthy k1) || negb (truthy k2)
                   then (s, Throw keys_required)
                   else
                     match string_method k1 trim with
                     | Throw e => (s, Throw e)
                     | Ok a =>
                         match string_method k2 trim with
                         | Throw e => (s, Throw e)
                         | Ok b =>
                             if String.eqb a "" || String.eqb b ""
                             then (s, Throw keys_empty)
                             else
                               ({| ApiKeys.session := ApiKeys.session s;
                                   ApiKeys.sent :=
                                     ApiKeys.sent s
                                     ++ [generate_request topic o a b]
                                 |}, response)
                         end
                     end) /\
            chosen (openaiApiKey o) saved'.1.1 = openai /\
            chosen (tavilyApiKey o) saved'.1.2 = tavily).
  { subst out. unfold generateLearningPath.
    assert (Hd : forall x : jsval,
              truthy (Some (defaulted x JNull)) = truthy x)
      by (by intros [j|]).
    rewrite !Hd.
    destruct (negb (truthy (openaiApiKey o))
              || negb (truthy (tavilyApiKey o))) eqn:Hneed.
    - exists saved. by repeat split.
    - exists (None, None, false). split; [done|].
      apply orb_false_elim in Hneed as [H1 H2].
      apply negb_false_iff in H1, H2.
      subst openai tavily chosen. simpl. by rewrite H1, H2. }
  destruct Hkeys as (saved' & Hout & Ho & Ht).
  pose proof (final_keys_chosen o saved') as Hfinal.
  clearbody openai tavily out. subst chosen.
  cbv beta zeta in Hfinal, Ho, Ht. rewrite Ho, Ht in Hfinal.
  rewrite Hfinal in Hout. clear Hfinal Ho Ht saved'. subst out.
  assert (Hu : forall x : jsval,
            truthy match x with None => Some JNull | _ => x end
            = truthy x) by (by intros [j|]).
  rewrite !Hu.
  split; [|split; [|split; [|split]]].
  - destruct (truthy openai), (truthy tavily); simpl; try done.
    destruct openai as [[|b1|n1|a|l1|f1]|], tavily as [[|b2|n2|b|l2|f2]|];
      simpl; try done.
    by destruct (String.eqb (trim a) "" || String.eqb (trim b) "").
  - intros a b -> -> Ha Hb Hta Htb. unfold truthy.
    destruct (String.eqb_spec a ""); [done|].
    destruct (String.eqb_spec b ""); [done|]. simpl.
    destruct (String.eqb_spec (trim a) ""); [done|].
    destruct (String.eqb_spec (trim b) ""); [done|]. simpl.
    by rewrite Hreq.
  - destruct (truthy openai) eqn:H1, (truthy tavily) eqn:H2; simpl;
      try (by left).
    destruct openai as [[|b1|n1|a|l1|f1]|], tavily as [[|b2|n2|b|l2|f2]|];
      simpl; try (by left).
    unfold truthy in H1, H2.
    destruct (String.eqb_spec a ""); [done|].
    destruct (String.eqb_spec b ""); [done|].
    destruct (String.eqb_spec (trim a) ""); simpl; [by left|].
    destruct (String.eqb_spec (trim b) ""); simpl; [by left|].
    right. by exists a, b.
  - intros [-> | ->]; simpl; [done|]. by rewrite orb_true_r.
  - intros a b -> -> Ha Hb Hblank. unfold truthy.
    destruct (String.eqb_spec a ""); [done|].
    destruct (String.eqb_spec b ""); [done|]. simpl.
    destruct Hblank as [-> | ->]; simpl; [done|].
    by rewrite orb_true_r.
Qed.

End LegacyGenerateFacts.

(** ** Instances *)

Section MoreInstances.
Import Js JsObject.

Lemma stream_single_connection_witness :
  let s := ProgressStream.steps StreamSpec.observers
             [ProgressStream.EvError 0] StreamSpec.start in
  (1000%nat ∈ ProgressStream.timers s) /\
  (length (ProgressStream.live s) + length (ProgressStream.timers s) <= 1)%nat.
Proof.
  split; [vm_compute; left|].
  exact (proj1 (stream_single_connection StreamSpec.observers "task-1" None tt
                  [ProgressStream.EvError 0])).
Defined.

Lemma calculateProgress_witness :
  let updates := [JObj [("message", JArr [JStr "Finalized"])]] in
  GeneratorPage.calculateProgress updates = Ok 95%Z /\
  (7 <= 95 <= 95)%Z /\
  exists v, GeneratorPage.calculateProgress
              [StreamSpec.text "Planned 4 submodules"] = Ok v.
Proof.
  intros updates.
  assert (Hv : GeneratorPage.calculateProgress updates = Ok 95%Z)
    by reflexivity.
  split; [exact Hv|]. split.
  - exact (proj1 (calculateProgress_total_on_text_and_bounded updates)
             95%Z Hv).
  - destruct (calculateProgress_total_on_text_and_bounded
                [StreamSpec.text "Planned 4 submodules"])
      as (_ & Hreturns & _).
    exact (Hreturns _ "Planned 4 submodules" eq_refl eq_refl).
Defined.

Lemma authorization_header_witness :
  let item := Some (AuthToken.Holds (JObj [("accessToken", JStr "t1")])) in
  let actions := [AuthToken.InitAuthFromStorage;
                  AuthToken.SetAuthToken (Some (JStr "t2"));
                  AuthToken.ClearAuthToken;
                  AuthToken.SetAuthToken (Some (JStr "t3"))] in
  let s := foldl (fun s a => AuthToken.perform decimal a s)
                 (AuthToken.loaded item) actions in
  AuthToken.textual_action (AuthToken.Store item) /\
  Forall AuthToken.textual_action actions /\
  AuthToken.authToken s = Some (JStr "t3") /\
  AuthToken.authorization s = Some "Bearer t3".
Proof.
  intros item actions s.
  assert (Hitem : AuthToken.textual_action (AuthToken.Store item))
    by exact I.
  assert (Hall : Forall AuthToken.textual_action actions)
    by (repeat constructor).
  split; [exact Hitem|]. split; [exact Hall|].
  split; [reflexivity|].
  exact (proj2 (authorization_header_follows_token decimal item actions
                  Hitem Hall)).
Defined.

Lemma initAuthFromStorage_witness :
  let s := AuthToken.loaded
             (Some (AuthToken.Holds (JObj [("accessToken", JStr "tok")]))) in
  let bad := JObj [("toString", JNum 1)] in
  let s' := AuthToken.loaded
              (Some (AuthToken.Holds (JObj [("accessToken", bad)]))) in
  ((AuthToken.initAuthFromStorage decimal s).2 = true /\
   AuthToken.authToken (AuthToken.initAuthFromStorage decimal s).1
   = Some (JStr "tok") /\
   AuthToken.authorization (AuthToken.initAuthFromStorage decimal s).1
   = Some "Bearer tok") /\
  ((AuthToken.initAuthFromStorage decimal s').2 = false /\
   AuthToken.authorization (AuthToken.initAuthFromStorage decimal s').1
   = None /\
   AuthToken.authToken (AuthToken.initAuthFromStorage decimal s').1
   = Some bad /\
   AuthToken.stored (AuthToken.initAuthFromStorage decimal s').1 = None).
Proof.
  intros s bad s'. split.
  - assert (Htrue : (AuthToken.initAuthFromStorage decimal s).2 = true)
      by reflexivity.
    split; [exact Htrue|].
    destruct (proj1 (proj1 (initAuthFromStorage_outcome decimal s)) Htrue)
      as (v & tok & text & Hst & Hget & _ & Hp & Htok & Hh).
    injection Hst as <-. injection Hget as <-. injection Hp as <-.
    split; [exact Htok | exact Hh].
  - assert (Hfalse : (AuthToken.initAuthFromStorage decimal s').2 = false)
      by reflexivity.
    split; [exact Hfalse|].
    destruct (initAuthFromStorage_outcome decimal s')
      as (_ & Hf & _ & _).
    split; [exact (proj1 (Hf Hfalse))|].
    split; reflexivity.
Defined.

Lemma authenticateApiKeys_witness :
  let message_of e := match e with Error m => Some m | _ => None end in
  let data := JObj [("google_key_token", JStr "g-tok");
                    ("pplx_key_token", JStr "p-tok");
                    ("google_key_valid", JBool true);
                    ("pplx_key_valid", JBool true)] in
  let s := {| ApiKeys.session := ∅; ApiKeys.sent := [] |} in
  let out := ApiKeys.authenticateApiKeys message_of decimal
               (Some (JStr "g-key")) (Some (JStr "p-key")) true None
               (Ok data) s in
  ApiKeys.sent out.1
  = [{| History.method := "POST"; History.path := "/auth/api-keys";
        History.params := [];
        History.body := Some (JObj [("google_api_key", JStr "g-key");
                                    ("pplx_api_key", JStr "p-key")]) |}] /\
  ApiKeys.session out.1 !! "learning_path_google_key_token"
  = Some "g-tok" /\
  (Credentials.call (Credentials.getSavedApiTokens None)
                    (ApiKeys.session out.1)).2
  = Ok (Some "g-tok", Some "p-tok", true).
Proof.
  intros message_of data s out.
  destruct (authenticateApiKeys_stores_tokens_on_request message_of decimal
              (Some (JStr "g-key")) (Some (JStr "p-key")) true None
              (Ok data) s) as (Hsent & _ & _ & Hread).
  split; [exact Hsent|].
  assert (Hne : "g-tok" <> "") by discriminate.
  destruct (Hread data "g-tok" "p-tok" eq_refl eq_refl eq_refl eq_refl
              eq_refl Hne) as (H1 & _ & H3).
  split; [exact H1 | exact H3].
Defined.

Lemma processPath_witness :
  let en := {| Migration.timestamp := 1700000000000;
               Migration.randomPart1 := "k3j9x0ab";
               Migration.randomPart2 := "q8w2e4rt" |} in
  let path := JObj [("id", JNum 17); ("topic", JStr "Rocq");
                    ("favorite", JBool true)] in
  let p := JObj [("id", JNum 17); ("topic", JStr "Rocq");
                 ("favorite", JBool true);
                 ("path_id", JStr "1700000000000-k3j9x0ab-17");
                 ("path_data", path); ("tags", JArr []);
                 ("source", JStr "imported")] in
  Migration.processPath decimal en path = Ok p /\
  ("favorite" ∉ Migration.normalised_fields) /\
  get p "favorite" = Ok (Some (JBool true)) /\
  Migration.processPath decimal en p = Ok p.
Proof.
  intros en path p.
  assert (Hp : Migration.processPath decimal en path = Ok p)
    by (vm_compute; reflexivity).
  assert (Hk : "favorite" ∉ Migration.normalised_fields).
  { unfold Migration.normalised_fields. intros Hin.
    repeat (apply elem_of_cons in Hin as [Hin|Hin]; [discriminate Hin|]).
    by apply elem_of_nil in Hin. }
  split; [exact Hp|]. split; [exact Hk|].
  destruct (proj2 (processPath_normalises decimal en en path) p Hp)
    as (_ & Hkeep & Hfix).
  split; [exact (Hkeep "favorite" (or_introl Hk)) | exact Hfix].
Defined.

Lemma migrateLearningPaths_witness :
  let en := fun _ : nat =>
              {| Migration.timestamp := 1700000000000;
                 Migration.randomPart1 := "k3j9x0ab";
                 Migration.randomPart2 := "q8w2e4rt" |} in
  let path := JObj [("id", JStr "a-1"); ("topic", JStr "Rocq")] in
  let no_history : LocalStore.store -> _ := fun l => (l, Ok (JObj [])) in
  let rep := {| History.outcome := Ok (JObj [("migrated", JNum 1)]);
                History.authToken_on_resume := Some "tok" |} in
  let out := Migration.migrateLearningPaths decimal no_history
               (Some (JArr [path])) en rep (HistorySpec.signed_in "tok") in
  let processed :=
    [JObj [("id", JStr "a-1"); ("topic", JStr "Rocq");
           ("path_id", JStr "a-1"); ("path_data", path);
           ("tags", JArr []); ("source", JStr "imported")]] in
  Migration.processPaths decimal en [path] = Ok processed /\
  History.net out.1
  = [{| History.method := "POST";
        History.path := "/learning-paths/migrate"; History.params := [];
        History.body := Some (JObj [("learning_paths", JArr processed)]) |}]
  /\ out.2 = Ok (JObj [("migrated", JNum 1)]).
Proof.
  intros en path no_history rep out processed.
  assert (Hp : Migration.processPaths decimal en [path] = Ok processed)
    by (vm_compute; reflexivity).
  split; [exact Hp|].
  destruct (migrateLearningPaths_sends_normalised_paths decimal no_history
              [path] en rep (HistorySpec.signed_in "tok"))
    as (_ & Hsent & _).
  destruct (Hsent processed Hp) as (Hnet & _ & _ & _ & Hres).
  split; [exact Hnet | exact Hres].
Defined.

Lemma legacy_generate_witness :
  let o := {| LegacyGenerate.parallelCount := None;
              LegacyGenerate.searchParallelCount := Some (JNum 5);
              LegacyGenerate.submoduleParallelCount := None;
              LegacyGenerate.desiredModuleCount := Some (JNum 4);
              LegacyGenerate.desiredSubmoduleCount := None;
              LegacyGenerate.openaiApiKey := Some (JStr " sk-1 ");
              LegacyGenerate.tavilyApiKey := None |} in
  let s := {| ApiKeys.session :=
                <["learning_path_remember_keys" := "true"]>
                  (<["learning_path_tavily_key" := "tvly-2"]>
                     (<["learning_path_openai_key" := "sk-old"]> ∅));
              ApiKeys.sent := [] |} in
  let out := LegacyGenerate.generateLearningPath Tags.trim_ascii
               (Some (JStr "Rocq")) o None (Ok (JObj [("task_id", JStr "t1")]))
               s in
  Tags.trim_ascii " sk-1 " <> "" /\ Tags.trim_ascii "tvly-2" <> "" /\
  ApiKeys.sent out.1
  = [{| History.method := "POST";
        History.path := "/generate-learning-path"; History.params := [];
        History.body :=
          Some (JObj [("topic", JStr "Rocq");
                      ("parallel_count", JNum 2);
                      ("search_parallel_count", JNum 5);
                      ("submodule_parallel_count", JNum 2);
                      ("openai_api_key", JStr "sk-1");
                      ("tavily_api_key", JStr "tvly-2");
                      ("desired_module_count", JNum 4)]) |}] /\
  out.2 = Ok (JObj [("task_id", JStr "t1")]).
Proof.
  intros o s out.
  assert (H1 : Tags.trim_ascii " sk-1 " <> "") by (vm_compute; discriminate).
  assert (H2 : Tags.trim_ascii "tvly-2" <> "") by (vm_compute; discriminate).
  split; [exact H1|]. split; [exact H2|].
  destruct (legacy_generate_needs_both_keys Tags.trim_ascii
              (Some (JStr "Rocq")) o None (Ok (JObj [("task_id", JStr "t1")]))
              s) as (_ & Hkeys & _).
  refine (Hkeys " sk-1 " "tvly-2" eq_refl _ _ _ H1 H2);
    [vm_compute; reflexivity | discriminate | discriminate].
Defined.

End MoreInstances.
